(** * lib_tar: a read-only accessor for USTAR archives

    A shallow embedding of [src/lib_tar.c] and the properties its
    specification states about it.

    The archive is the byte content behind a POSIX file descriptor; a
    header is the raw 512-byte block the code reads into a
    [tar_header_t]; C strings are lists of bytes read up to the first NUL.
    Unsigned arithmetic is written with its wrap-around ([to_size_t],
    [to_uint]); [off_t] offsets are integers and a seek to a negative
    offset fails.  The [while] loops run on fuel; the entry points supply
    one unit of fuel per byte of the archive, which is shown to be more
    than any scan needs ([loops_terminate]).

    Where C leaves the behaviour undefined -- a string field that runs to
    the end of the block without a NUL, a store beyond the end of a buffer
    or of the array of entries, overflow of the [int] counter -- the model
    gives the result of the operation on unbounded data. *)

From Stdlib Require Import ZArith List Ascii String Lia Bool.
From stdpp Require Import list.
Import ListNotations.

Local Open Scope Z_scope.

(** ** Bytes and C strings *)

Definition NUL : ascii := Ascii.zero.
Definition SLASH : ascii := "/"%char.
Definition SPACE : ascii := " "%char.

(** The value of a byte as an [unsigned char]. *)
Definition byte_val (c : ascii) : Z := Z.of_N (N_of_ascii c).

(** A C string literal. *)
Definition lit (s : string) : list ascii := list_ascii_of_string s.

(** [cstr p]: the characters a [char *] designates, that is the bytes at
    [p] up to (and without) the first NUL.  The end of the list stands for
    a terminator. *)
Fixpoint cstr (p : list ascii) : list ascii :=
  match p with
  | [] => []
  | c :: p' => if Ascii.eqb c NUL then [] else c :: cstr p'
  end.

(** [p[i]] *)
Definition char_at (p : list ascii) (i : nat) : ascii := nth i p NUL.

Definition strlen (p : list ascii) : nat := length (cstr p).

Fixpoint strcmp (s1 s2 : list ascii) : Z :=
  match s1, s2 with
  | [], [] => 0
  | [], c2 :: _ => - byte_val c2
  | c1 :: _, [] => byte_val c1
  | c1 :: r1, c2 :: r2 =>
      if Ascii.eqb c1 c2
      then (if Ascii.eqb c1 NUL then 0 else strcmp r1 r2)
      else byte_val c1 - byte_val c2
  end.

Fixpoint strncmp (s1 s2 : list ascii) (n : nat) : Z :=
  match n with
  | O => 0
  | S n' =>
      let c1 := hd NUL s1 in
      let c2 := hd NUL s2 in
      if Ascii.eqb c1 c2
      then (if Ascii.eqb c1 NUL then 0 else strncmp (tl s1) (tl s2) n')
      else byte_val c1 - byte_val c2
  end.

(** [strchr s c]: the suffix of [s] that starts at the first [c], or
    [None] for a null pointer. *)
Fixpoint strchr (s : list ascii) (c : ascii) : option (list ascii) :=
  match s with
  | [] => if Ascii.eqb c NUL then Some [] else None
  | x :: s' =>
      if Ascii.eqb x c then Some s
      else if Ascii.eqb x NUL then None
      else strchr s' c
  end.

(** [strncpy(dst, src, 255); dst[255] = '\0';] into a [char dst[256]]. *)
Definition strncpy255 (src : list ascii) : list ascii := firstn 255 (cstr src).

(** A string without NUL bytes: the content of a C string. *)
Definition nul_free (s : list ascii) : Prop := Forall (fun c => c <> NUL) s.

(** ** Integer types *)

Definition to_uint (z : Z) : Z := z mod 2 ^ 32.
Definition to_size_t (z : Z) : Z := z mod 2 ^ 64.
(** Conversion of a [size_t] to the signed 64-bit [off_t] / [ssize_t]. *)
Definition to_off_t (z : Z) : Z :=
  let u := z mod 2 ^ 64 in if u <? 2 ^ 63 then u else u - 2 ^ 64.

(** ** The file descriptor

    [tar_fd] is an open, seekable, read-only descriptor: the bytes of the
    file and the current offset. *)

Record tar_fd : Type := mk_fd { fd_content : list ascii; fd_pos : nat }.

Inductive whence : Type := SEEK_SET | SEEK_CUR.

(** [lseek] returns the new offset, or -1 (offset unchanged) when the
    target is negative. *)
Definition lseek (fd : tar_fd) (offset : Z) (w : whence) : Z * tar_fd :=
  let target :=
    match w with
    | SEEK_SET => offset
    | SEEK_CUR => Z.of_nat (fd_pos fd) + offset
    end in
  if target <? 0 then (-1, fd)
  else (target, mk_fd (fd_content fd) (Z.to_nat target)).

(** [read] returns the bytes read (as many as asked for, or those left
    before the end of the file) and advances the offset by their number. *)
Definition read (fd : tar_fd) (count : nat) : list ascii * tar_fd :=
  let data := firstn count (skipn (fd_pos fd) (fd_content fd)) in
  (data, mk_fd (fd_content fd) (fd_pos fd + length data)).

(** A descriptor on an archive, opened at its start. *)
Definition open_archive (content : list ascii) : tar_fd := mk_fd content 0.

(** ** The header block (lib_tar.h) *)

(** Modelled from the spec: [tar_header_t] is declared in lib_tar.h, which
    is not among the sources.  A header is the raw 512-byte block; its
    fields are the byte ranges of the POSIX ustar layout that section 6 of
    the specification tabulates (name 100, size 12, checksum 8, typeflag 1,
    linkname 100, magic 6, version 2, prefix 155). *)
Definition tar_header_t : Type := list ascii.

Definition sizeof_header : nat := 512.
Definition off_name : nat := 0.
Definition off_size : nat := 124.
Definition off_chksum : nat := 148.
Definition off_typeflag : nat := 156.
Definition off_linkname : nat := 157.
Definition off_magic : nat := 257.
Definition off_version : nat := 263.
Definition off_prefix : nat := 345.

(** Character-array fields used as strings decay to a pointer into the
    block. *)
Definition hdr_name (hdr : tar_header_t) : list ascii := skipn off_name hdr.
Definition hdr_linkname (hdr : tar_header_t) : list ascii := skipn off_linkname hdr.
Definition hdr_magic (hdr : tar_header_t) : list ascii := skipn off_magic hdr.
Definition hdr_version (hdr : tar_header_t) : list ascii := skipn off_version hdr.
Definition hdr_prefix (hdr : tar_header_t) : list ascii := skipn off_prefix hdr.
Definition hdr_typeflag (hdr : tar_header_t) : ascii := char_at hdr off_typeflag.
(** The numeric fields, as the arrays they are. *)
Definition hdr_size (hdr : tar_header_t) : list ascii := firstn 12 (skipn off_size hdr).
Definition hdr_chksum (hdr : tar_header_t) : list ascii := firstn 8 (skipn off_chksum hdr).

(** Modelled from the spec: the constants of lib_tar.h (section 6: magic
    is the literal "ustar" and a NUL, version the two bytes "00"; typeflag
    '0' or NUL is a file, '5' a directory, '2' a symbolic link). *)
Definition TMAGIC : list ascii := lit "ustar".
Definition TMAGLEN : nat := 6.
Definition TVERSION : list ascii := lit "00".
Definition TVERSLEN : nat := 2.
Definition REGTYPE : ascii := "0"%char.
Definition AREGTYPE : ascii := NUL.
Definition SYMTYPE : ascii := "2"%char.
Definition DIRTYPE : ascii := "5"%char.

Definition octal_digit (c : ascii) : option Z :=
  let v := byte_val c in
  if (48 <=? v) && (v <=? 55) then Some (v - 48) else None.

Fixpoint octal_acc (field : list ascii) (acc : Z) : Z :=
  match field with
  | [] => acc
  | c :: field' =>
      match octal_digit c with
      | Some d => octal_acc field' (8 * acc + d)
      | None => acc
      end
  end.

(** Modelled from the spec: the macro [TAR_INT] of lib_tar.h decodes an
    "octal ASCII numeric field" (section 3): the value of the octal digits
    the field starts with. *)
Definition TAR_INT (field : list ascii) : Z := octal_acc field 0.

(** ** lib_tar.c *)

Definition is_empty_block (hdr : tar_header_t) : bool :=
  forallb (fun b => Ascii.eqb b NUL) hdr.

(** [snprintf(out, 256, ...)] keeps at most 255 characters. *)
Definition header_path (hdr : tar_header_t) : list ascii :=
  if negb (Ascii.eqb (char_at (hdr_prefix hdr) 0) NUL)
  then firstn 255 (cstr (hdr_prefix hdr) ++ SLASH :: cstr (hdr_name hdr))
  else firstn 255 (cstr (hdr_name hdr)).

(** [size_t size = TAR_INT(hdr.size); off_t jump = ((size + 511) / 512) * 512;] *)
Definition entry_jump (hdr : tar_header_t) : Z :=
  let size := to_size_t (TAR_INT (hdr_size hdr)) in
  to_off_t (to_size_t (to_size_t (size + 511) / 512 * 512)).

(** The [match] flag that [find_header] computes for one header. *)
Definition entry_match (hdr : tar_header_t) (path : list ascii) : bool :=
  let name := header_path hdr in
  if Ascii.eqb (hdr_typeflag hdr) DIRTYPE then
    let len := strlen name in
    if strcmp name path =? 0 then true
    else if (0 <? len)%nat
            && Ascii.eqb (char_at name (len - 1)) SLASH
            && (strncmp name path (len - 1) =? 0)
            && Ascii.eqb (char_at path (len - 1)) NUL
    then true
    else false
  else
    if strcmp name path =? 0 then true else false.

(** The loop of [find_header]; [None] when the fuel runs out. *)
Fixpoint find_header_loop (fuel : nat) (fd : tar_fd) (path : list ascii)
  : option (option (tar_header_t * Z) * tar_fd) :=
  match fuel with
  | O => None
  | S fuel' =>
      let '(hdr, fd1) := read fd sizeof_header in
      if negb (length hdr =? sizeof_header)%nat then Some (None, fd1)
      else if is_empty_block hdr then Some (None, fd1)
      else
        let matched := entry_match hdr path in
        let '(data_off, fd2) := lseek fd1 0 SEEK_CUR in
        if matched then Some (Some (hdr, data_off), fd2)
        else
          let jump := entry_jump hdr in
          let '(r, fd3) := lseek fd2 (data_off + jump) SEEK_SET in
          if r =? -1 then Some (None, fd3)
          else find_header_loop fuel' fd3 path
  end.

(** Fuel for one pass over the archive. *)
Definition scan_fuel (fd : tar_fd) : nat := S (length (fd_content fd)).

(** [find_header]: the header and data offset of the first entry that
    matches [path], or [None] (the C function returns 0). *)
Definition find_header (fd : tar_fd) (path : list ascii)
  : option (tar_header_t * Z) * tar_fd :=
  let '(r, fd0) := lseek fd 0 SEEK_SET in
  if r =? -1 then (None, fd0)
  else
    match find_header_loop (scan_fuel fd0) fd0 path with
    | Some res => res
    | None => (None, fd0)
    end.

(** The trailing slash that [resolve_path] removes from [current]. *)
Definition strip_slash (current : list ascii) : list ascii :=
  let len := strlen current in
  if (0 <? len)%nat && Ascii.eqb (char_at current (len - 1)) SLASH
  then firstn (len - 1) current
  else current.

(** The [for] loop of [resolve_path], with [n] iterations left. *)
Fixpoint resolve_path_loop (n : nat) (fd : tar_fd) (current : list ascii)
  : option (tar_header_t * Z * list ascii) * tar_fd :=
  match n with
  | O => (None, fd)
  | S n' =>
      match find_header fd current with
      | (None, fd1) => (None, fd1)
      | (Some (header, off), fd1) =>
          if Ascii.eqb (hdr_typeflag header) SYMTYPE
          then resolve_path_loop n' fd1 (strip_slash (strncpy255 (hdr_linkname header)))
          else (Some (header, off, header_path header), fd1)
      end
  end.

(** [resolve_path]: header, data offset and canonical path of the entry
    that [path] leads to, or [None] (the C function returns 0). *)
Definition resolve_path (fd : tar_fd) (path : list ascii)
  : option (tar_header_t * Z * list ascii) * tar_fd :=
  resolve_path_loop 16 fd (strip_slash (strncpy255 path)).

(** [memcpy(tmp, &hdr, sizeof(hdr)); memset(tmp + offsetof(tar_header_t, chksum), ' ', 8);] *)
Definition blank_chksum (hdr : tar_header_t) : list ascii :=
  firstn off_chksum hdr ++ repeat SPACE 8 ++ skipn (off_chksum + 8) hdr.

(** [unsigned int sum = 0; for (...) sum += tmp[i];] *)
Definition byte_sum (tmp : list ascii) : Z :=
  fold_left (fun sum b => to_uint (sum + byte_val b)) tmp 0.

(** The three tests of [check_archive] on a header:
    [strncmp(hdr.magic, TMAGIC, TMAGLEN) != 0 || hdr.magic[TMAGLEN - 1] != '\0'],
    [strncmp(hdr.version, TVERSION, TVERSLEN) != 0] and [sum != expected]. *)
Definition bad_magic (hdr : tar_header_t) : bool :=
  negb (strncmp (hdr_magic hdr) TMAGIC TMAGLEN =? 0)
  || negb (Ascii.eqb (char_at (hdr_magic hdr) (TMAGLEN - 1)) NUL).

Definition bad_version (hdr : tar_header_t) : bool :=
  negb (strncmp (hdr_version hdr) TVERSION TVERSLEN =? 0).

Definition bad_chksum (hdr : tar_header_t) : bool :=
  let expected := to_uint (TAR_INT (hdr_chksum hdr)) in
  let sum := byte_sum (blank_chksum hdr) in
  negb (sum =? expected).

(** The loop of [check_archive]; [None] when the fuel runs out.  [count]
    is a C [int]; it is not wrapped, since signed overflow is undefined. *)
Fixpoint check_archive_loop (fuel : nat) (fd : tar_fd) (count : Z)
  : option (Z * tar_fd) :=
  match fuel with
  | O => None
  | S fuel' =>
      let '(hdr, fd1) := read fd sizeof_header in
      if negb (length hdr =? sizeof_header)%nat then Some (count, fd1)
      else if is_empty_block hdr then Some (count, fd1)
      else if bad_magic hdr then Some (-1, fd1)
      else if bad_version hdr then Some (-2, fd1)
      else if bad_chksum hdr then Some (-3, fd1)
      else
        let jump := entry_jump hdr in
        let '(r, fd2) := lseek fd1 jump SEEK_CUR in
        if r =? -1 then Some (-3, fd2)
        else check_archive_loop fuel' fd2 (count + 1)
  end.

Definition check_archive (fd : tar_fd) : Z * tar_fd :=
  let '(r, fd0) := lseek fd 0 SEEK_SET in
  if r =? -1 then (-3, fd0)
  else
    match check_archive_loop (scan_fuel fd0) fd0 0 with
    | Some res => res
    | None => (-3, fd0)
    end.

(** [exists] is a keyword of Rocq, hence the underscore. *)
Definition exists_ (fd : tar_fd) (path : list ascii) : Z * tar_fd :=
  match find_header fd path with
  | (Some _, fd1) => (1, fd1)
  | (None, fd1) => (0, fd1)
  end.

Definition is_dir (fd : tar_fd) (path : list ascii) : Z * tar_fd :=
  match find_header fd path with
  | (None, fd1) => (0, fd1)
  | (Some (hdr, _), fd1) =>
      (if Ascii.eqb (hdr_typeflag hdr) DIRTYPE then 1 else 0, fd1)
  end.

Definition is_file (fd : tar_fd) (path : list ascii) : Z * tar_fd :=
  match find_header fd path with
  | (None, fd1) => (0, fd1)
  | (Some (hdr, _), fd1) =>
      (if Ascii.eqb (hdr_typeflag hdr) REGTYPE
          || Ascii.eqb (hdr_typeflag hdr) AREGTYPE then 1 else 0, fd1)
  end.

Definition is_symlink (fd : tar_fd) (path : list ascii) : Z * tar_fd :=
  match find_header fd path with
  | (None, fd1) => (0, fd1)
  | (Some (hdr, _), fd1) =>
      (if Ascii.eqb (hdr_typeflag hdr) SYMTYPE then 1 else 0, fd1)
  end.

(** The test [list] applies to an entry path [name] against the prefix
    [base]: [strncmp(name, base, base_len) == 0 && strcmp(name, base) != 0]
    and then [!slash || slash[1] == '\0'] for the first slash of the
    remainder. *)
Definition is_child (name base : list ascii) : bool :=
  let base_len := strlen base in
  if (strncmp name base base_len =? 0) && negb (strcmp name base =? 0) then
    let rest := skipn base_len name in
    match strchr rest SLASH with
    | None => true
    | Some slash => Ascii.eqb (char_at slash 1) NUL
    end
  else false.

(** The loop of [list]; [entries] is the caller's array of path buffers,
    [count] the number of paths written so far. *)
Fixpoint list_loop (fuel : nat) (fd : tar_fd) (base : list ascii)
    (capacity : nat) (entries : list (list ascii)) (count : nat)
  : option (list (list ascii) * nat * tar_fd) :=
  match fuel with
  | O => None
  | S fuel' =>
      let '(hdr, fd1) := read fd sizeof_header in
      if negb (length hdr =? sizeof_header)%nat then Some (entries, count, fd1)
      else if is_empty_block hdr then Some (entries, count, fd1)
      else
        let name := header_path hdr in
        let jump := entry_jump hdr in
        let '(data_off, fd2) := lseek fd1 0 SEEK_CUR in
        let '(entries', count') :=
          if is_child name base then
            if (count <? capacity)%nat
            then (<[count := name]> entries, S count)
            else (entries, count)
          else (entries, count) in
        let '(r, fd3) := lseek fd2 (data_off + jump) SEEK_SET in
        if r =? -1 then Some (entries', count', fd3)
        else list_loop fuel' fd3 base capacity entries' count'
  end.

(** The prefix [list] derives from the canonical path of the directory. *)
Definition dir_prefix (base : list ascii) : list ascii :=
  let len := strlen base in
  if (0 <? len)%nat && negb (Ascii.eqb (char_at base (len - 1)) SLASH)
  then base ++ [SLASH]
  else base.

Module Tar.

(** [list(tar_fd, path, entries, no_entries)]: the return value, the array
    [entries] and [*no_entries] after the call.  [path] is [None] for a
    null pointer. *)
Definition list (fd : tar_fd) (path : option (Datatypes.list ascii))
    (entries : Datatypes.list (Datatypes.list ascii)) (no_entries : nat)
  : (Z * Datatypes.list (Datatypes.list ascii) * nat) * tar_fd :=
  let capacity := no_entries in
  let no_entries := 0%nat in
  let resolved :=
    match path with
    | Some p =>
        if negb (Ascii.eqb (char_at p 0) NUL) then
          match resolve_path fd p with
          | (None, fd1) => (None, fd1)
          | (Some (hdr, _, base), fd1) =>
              if negb (Ascii.eqb (hdr_typeflag hdr) DIRTYPE) then (None, fd1)
              else (Some (dir_prefix base), fd1)
          end
        else (Some [], fd)
    | None => (Some [], fd)
    end in
  match resolved with
  | (None, fd1) => ((0, entries, no_entries), fd1)
  | (Some base, fd1) =>
      let '(r, fd2) := lseek fd1 0 SEEK_SET in
      if r =? -1 then ((0, entries, no_entries), fd2)
      else
        match list_loop (scan_fuel fd2) fd2 base capacity entries 0 with
        | Some (entries', count, fd3) => ((1, entries', count), fd3)
        | None => ((0, entries, no_entries), fd2)
        end
  end.

End Tar.

(** [read_file(tar_fd, path, offset, dest, len)]: the return value, the
    buffer [dest] and [*len] after the call. *)
Definition read_file (fd : tar_fd) (path : list ascii) (offset : Z)
    (dest : list ascii) (len : Z) : (Z * list ascii * Z) * tar_fd :=
  match resolve_path fd path with
  | (None, fd1) => ((-1, dest, len), fd1)
  | (Some (hdr, data_off, _), fd1) =>
      if negb (Ascii.eqb (hdr_typeflag hdr) REGTYPE
               || Ascii.eqb (hdr_typeflag hdr) AREGTYPE)
      then ((-1, dest, len), fd1)
      else
        let size := to_size_t (TAR_INT (hdr_size hdr)) in
        if size <? offset then ((-2, dest, len), fd1)
        else
          let to_read := to_size_t (size - offset) in
          let to_read := if len <? to_read then len else to_read in
          let '(r0, fd2) := lseek fd1 (to_off_t (data_off + offset)) SEEK_SET in
          if r0 =? -1 then ((-1, dest, len), fd2)
          else
            let '(data, fd3) := read fd2 (Z.to_nat to_read) in
            let r := Z.of_nat (length data) in
            if r <? 0 then ((-1, dest, len), fd3)
            else
              let dest' := data ++ skipn (length data) dest in
              let len' := to_size_t r in
              if to_size_t (offset + to_size_t r) <? size
              then ((to_off_t (to_size_t (to_size_t (size - offset) - to_size_t r)),
                     dest', len'), fd3)
              else ((0, dest', len'), fd3)
  end.

(** ** The sequence of headers one pass visits

    Every operation walks the archive in the same way: read a block, stop
    at a short read or at an empty block, skip the entry's data.  [scan]
    is that walk, kept as the list of headers with their data offsets. *)

Fixpoint scan (fuel : nat) (content : list ascii) (pos : nat)
  : list (tar_header_t * Z) :=
  match fuel with
  | O => []
  | S fuel' =>
      let hdr := firstn sizeof_header (skipn pos content) in
      if negb (length hdr =? sizeof_header)%nat then []
      else if is_empty_block hdr then []
      else
        let data_off := Z.of_nat (pos + sizeof_header) in
        (hdr, data_off) :: scan fuel' content (Z.to_nat (data_off + entry_jump hdr))
  end.

Definition scan_from (content : list ascii) (pos : nat) : list (tar_header_t * Z) :=
  scan (S (length content - pos)) content pos.

Definition headers (content : list ascii) : list (tar_header_t * Z) :=
  scan_from content 0.

(** The first scanned entry that [find_header] accepts for [path]. *)
Definition find_entry (path : list ascii) (hs : list (tar_header_t * Z))
  : option (tar_header_t * Z) :=
  List.find (fun e => entry_match (fst e) path) hs.

(** The verdict of [check_archive] on a sequence of headers. *)
Fixpoint check_headers (hs : list (tar_header_t * Z)) (count : Z) : Z :=
  match hs with
  | [] => count
  | (hdr, _) :: hs' =>
      if bad_magic hdr then -1
      else if bad_version hdr then -2
      else if bad_chksum hdr then -3
      else check_headers hs' (count + 1)
  end.

(** The entry paths that [list] selects under the prefix [base]. *)
Definition children (base : list ascii) (hs : list (tar_header_t * Z))
  : list (list ascii) :=
  List.filter (fun name => is_child name base) (map (fun e => header_path (fst e)) hs).

(** [names] stored into the array from index [count] on. *)
Fixpoint write_entries (entries : list (list ascii)) (count : nat)
    (names : list (list ascii)) : list (list ascii) :=
  match names with
  | [] => entries
  | name :: names' => write_entries (<[count := name]> entries) (S count) names'
  end.

(** The size an entry declares and the whole blocks its data occupies. *)
Definition entry_size (hdr : tar_header_t) : Z := TAR_INT (hdr_size hdr).
Definition entry_span (hdr : tar_header_t) : Z := (entry_size hdr + 511) / 512 * 512.

(** What the loop of [list] leaves in the array and in [count] after the
    headers [hs]. *)
Fixpoint collect (base : list ascii) (capacity : nat)
    (hs : list (tar_header_t * Z)) (entries : list (list ascii)) (count : nat)
  : list (list ascii) * nat :=
  match hs with
  | [] => (entries, count)
  | (hdr, _) :: hs' =>
      let name := header_path hdr in
      if is_child name base then
        if (count <? capacity)%nat
        then collect base capacity hs' (<[count := name]> entries) (S count)
        else collect base capacity hs' entries count
      else collect base capacity hs' entries count
  end.

(** [resolve_path] and the first half of [list], on the scanned headers. *)
Fixpoint resolve_entries (n : nat) (hs : list (tar_header_t * Z))
    (current : list ascii) : option (tar_header_t * Z * list ascii) :=
  match n with
  | O => None
  | S n' =>
      match find_entry current hs with
      | None => None
      | Some (header, off) =>
          if Ascii.eqb (hdr_typeflag header) SYMTYPE
          then resolve_entries n' hs (strip_slash (strncpy255 (hdr_linkname header)))
          else Some (header, off, header_path header)
      end
  end.

Definition list_prefix (hs : list (tar_header_t * Z)) (path : option (list ascii))
  : option (list ascii) :=
  match path with
  | Some p =>
      if negb (Ascii.eqb (char_at p 0) NUL) then
        match resolve_entries 16 hs (strip_slash (strncpy255 p)) with
        | None => None
        | Some (hdr, _, base) =>
            if negb (Ascii.eqb (hdr_typeflag hdr) DIRTYPE) then None
            else Some (dir_prefix base)
        end
      else Some []
  | None => Some []
  end.

(** ** Specification vocabulary *)

(** [s] without its last character when that is a slash. *)
Definition without_slash (s : list ascii) : list ascii :=
  if Ascii.eqb (List.last s NUL) SLASH then removelast s else s.

(** The entry [find_header] locates for [path] in an archive. *)
Definition lookup (content : list ascii) (path : list ascii)
  : option (tar_header_t * Z) :=
  fst (find_header (open_archive content) path).

(** The path [resolve_path] starts from: its argument cut to 255 bytes,
    one trailing slash removed. *)
Definition path_query (path : list ascii) : list ascii :=
  strip_slash (strncpy255 path).

(** The path a symbolic link names. *)
Definition link_target (lnk : tar_header_t) : list ascii :=
  path_query (hdr_linkname lnk).

(** [link_chain content n path = Some (hdr, off)]: [path] names a symbolic
    link whose target names a symbolic link, and so on through exactly [n]
    links, the last of which names the entry [hdr], not a link. *)
Fixpoint link_chain (content : list ascii) (n : nat) (path : list ascii)
  : option (tar_header_t * Z) :=
  match lookup content path with
  | None => None
  | Some (hdr, off) =>
      match n with
      | O => if Ascii.eqb (hdr_typeflag hdr) SYMTYPE then None else Some (hdr, off)
      | S n' =>
          if Ascii.eqb (hdr_typeflag hdr) SYMTYPE
          then link_chain content n' (link_target hdr)
          else None
      end
  end.

(** The magic is "ustar" and a NUL, the version the two bytes "00". *)
Definition has_magic (hdr : tar_header_t) : Prop :=
  firstn 6 (skipn off_magic hdr) = lit "ustar" ++ [NUL].

Definition has_version (hdr : tar_header_t) : Prop :=
  firstn 2 (skipn off_version hdr) = lit "00".

(** The sum of the bytes, as a number. *)
Definition plain_sum (bytes : list ascii) : Z :=
  fold_right (fun b s => byte_val b + s) 0 bytes.

(** The checksum field holds the byte-sum of the block taken with that
    field as eight spaces. *)
Definition has_checksum (hdr : tar_header_t) : Prop :=
  TAR_INT (hdr_chksum hdr) = plain_sum (blank_chksum hdr).

Definition well_formed_header (hdr : tar_header_t) : Prop :=
  length hdr = sizeof_header /\ has_magic hdr /\ has_version hdr /\ has_checksum hdr.

(** An entry is a header and the blocks of its data: the content padded to
    a multiple of 512 bytes. *)
Definition well_formed_entry (e : tar_header_t * list ascii) : Prop :=
  well_formed_header (fst e) /\ Z.of_nat (length (snd e)) = entry_span (fst e).

Definition entries_image (es : list (tar_header_t * list ascii)) : list ascii :=
  flat_map (fun e => fst e ++ snd e) es.

(** The end-of-archive marker: a block of zeros. *)
Definition end_block : list ascii := repeat NUL sizeof_header.

(** The headers of [entries_image es] laid out from offset [pos], with
    their data offsets. *)
Fixpoint image_headers (es : list (tar_header_t * list ascii)) (pos : nat)
  : list (tar_header_t * Z) :=
  match es with
  | [] => []
  | (hdr, body) :: es' =>
      (hdr, Z.of_nat (pos + sizeof_header))
      :: image_headers es' (pos + sizeof_header + length body)
  end.

(** [name] is directly under the prefix [base]: it starts with [base], is
    longer, and the remainder has no slash except possibly as its last
    character. *)
Definition direct_child (base name : list ascii) : Prop :=
  exists rest, name = base ++ rest /\ rest <> [] /\ ~ In SLASH (removelast rest).

(** [lists_under fd path base]: [list] called with [path] filters the
    archive by the prefix [base].  A null or empty path is the root, with
    the empty prefix; any other path must resolve to a directory, and the
    prefix is its canonical path with a slash appended if it has none (the
    result has to fit the 256-byte buffer [base]). *)
Inductive lists_under (fd : tar_fd) : option (list ascii) -> list ascii -> Prop :=
| lists_root_null : lists_under fd None []
| lists_root_empty (p : list ascii) :
    char_at p 0 = NUL -> lists_under fd (Some p) []
| lists_directory (p : list ascii) (hdr : tar_header_t) (off : Z) (resolved : list ascii) :
    char_at p 0 <> NUL ->
    fst (resolve_path fd p) = Some (hdr, off, resolved) ->
    hdr_typeflag hdr = DIRTYPE ->
    (length (dir_prefix resolved) <= 255)%nat ->
    lists_under fd (Some p) (dir_prefix resolved).

(** ** Archives to run the code on

    Test archives are built header by header: [mk_header] lays a ustar
    header out and stores its checksum, [mk_entry] appends the content
    padded to whole blocks. *)

Definition pad_to (n : nat) (s : list ascii) : list ascii :=
  firstn n (s ++ repeat NUL n).

(** [n] octal digits of [v], most significant first. *)
Fixpoint octal_digits (n : nat) (v : Z) : list ascii :=
  match n with
  | O => []
  | S n' => octal_digits n' (v / 8) ++ [ascii_of_N (Z.to_N (48 + v mod 8))]
  end.

Definition raw_header (name : list ascii) (size : Z) (typeflag : ascii)
    (linkname prefix magic version chksum : list ascii) : tar_header_t :=
  pad_to 100 name
  ++ pad_to 8 (lit "0000644") ++ pad_to 8 (lit "0001750") ++ pad_to 8 (lit "0001750")
  ++ pad_to 12 (octal_digits 11 size) ++ pad_to 12 (octal_digits 11 0)
  ++ pad_to 8 chksum ++ [typeflag] ++ pad_to 100 linkname
  ++ pad_to 6 magic ++ pad_to 2 version
  ++ pad_to 32 [] ++ pad_to 32 [] ++ pad_to 8 [] ++ pad_to 8 []
  ++ pad_to 155 prefix ++ pad_to 12 [].

(** The checksum field tar writes: six octal digits, a NUL and a space. *)
Definition chksum_field (sum : Z) : list ascii := octal_digits 6 sum ++ [NUL; SPACE].

Definition mk_header (name : list ascii) (size : Z) (typeflag : ascii)
    (linkname prefix : list ascii) : tar_header_t :=
  let blank := raw_header name size typeflag linkname prefix TMAGIC TVERSION (repeat SPACE 8) in
  raw_header name size typeflag linkname prefix TMAGIC TVERSION (chksum_field (byte_sum blank)).

Definition padding (data : list ascii) : list ascii :=
  repeat NUL ((512 - length data mod 512) mod 512).

Definition mk_entry (hdr : tar_header_t) (data : list ascii) : list ascii :=
  hdr ++ data ++ padding data.

Definition file_entry (name data : list ascii) : list ascii :=
  mk_entry (mk_header name (Z.of_nat (length data)) REGTYPE [] []) data.
Definition dir_entry (name : list ascii) : list ascii :=
  mk_entry (mk_header name 0 DIRTYPE [] []) [].
Definition symlink_entry (name target : list ascii) : list ascii :=
  mk_entry (mk_header name 0 SYMTYPE target []) [].

Definition end_marker : list ascii := repeat NUL 1024.

(** The directory of the documentation of [list], with two links into it. *)
Definition dir_archive : list ascii :=
  dir_entry (lit "dir/")
  ++ file_entry (lit "dir/a") (lit "hello")
  ++ file_entry (lit "dir/b") (lit "0123456789")
  ++ dir_entry (lit "dir/c/")
  ++ file_entry (lit "dir/c/d") (lit "deep")
  ++ dir_entry (lit "dir/e/")
  ++ symlink_entry (lit "to_dir") (lit "dir/")
  ++ symlink_entry (lit "to_b") (lit "dir/b")
  ++ end_marker.

(** The same directory content at the root of an archive. *)
Definition root_archive : list ascii :=
  file_entry (lit "a") (lit "hello")
  ++ file_entry (lit "b") (lit "0123456789")
  ++ dir_entry (lit "c/")
  ++ file_entry (lit "c/d") (lit "deep")
  ++ dir_entry (lit "e/")
  ++ end_marker.

Definition link_name (i : nat) : list ascii := lit "l" ++ octal_digits 2 (Z.of_nat i).

(** Links [l00 -> l01 -> ... ] (numbered in octal), [n] of them, the last
    one to [target]. *)
Fixpoint chain_entries (i n : nat) (target : list ascii) : list ascii :=
  match n with
  | O => []
  | S O => symlink_entry (link_name i) target
  | S n' => symlink_entry (link_name i) (link_name (S i)) ++ chain_entries (S i) n' target
  end.

(** A chain of [n] symbolic links that ends at the regular file [f]. *)
Definition chain_archive (n : nat) : list ascii :=
  chain_entries 0 n (lit "f") ++ file_entry (lit "f") (lit "payload") ++ end_marker.

(** The header of the file at the end of these chains. *)
Definition chain_file : tar_header_t := mk_header (lit "f") 7 REGTYPE [] [].

Definition self_link_archive : list ascii :=
  symlink_entry (lit "self") (lit "self") ++ end_marker.

(** The entries of [dir_archive]. *)
Definition dir_entries : list (tar_header_t * list ascii) :=
  [ (mk_header (lit "dir/") 0 DIRTYPE [] [], []);
    (mk_header (lit "dir/a") 5 REGTYPE [] [], lit "hello" ++ padding (lit "hello"));
    (mk_header (lit "dir/b") 10 REGTYPE [] [], lit "0123456789" ++ padding (lit "0123456789"));
    (mk_header (lit "dir/c/") 0 DIRTYPE [] [], []);
    (mk_header (lit "dir/c/d") 4 REGTYPE [] [], lit "deep" ++ padding (lit "deep"));
    (mk_header (lit "dir/e/") 0 DIRTYPE [] [], []);
    (mk_header (lit "to_dir") 0 SYMTYPE (lit "dir/") [], []);
    (mk_header (lit "to_b") 0 SYMTYPE (lit "dir/b") [], []) ].

(** Headers with one defect each, and one with a wrong magic and a wrong
    checksum. *)
Definition bad_magic_chksum_header : tar_header_t :=
  raw_header (lit "x") 0 REGTYPE [] [] (lit "ustax") TVERSION (lit "0000001").

Definition bad_version_header : tar_header_t :=
  let blank := raw_header (lit "x") 0 REGTYPE [] [] TMAGIC (lit "01") (repeat SPACE 8) in
  raw_header (lit "x") 0 REGTYPE [] [] TMAGIC (lit "01") (chksum_field (byte_sum blank)).

Definition bad_chksum_header : tar_header_t :=
  raw_header (lit "x") 0 REGTYPE [] [] TMAGIC TVERSION (lit "0000001").

(** A directory stored without a trailing slash, and a file in it. *)
Definition bare_dir_archive : list ascii :=
  dir_entry (lit "d")
  ++ file_entry (lit "d/f") (lit "hello")
  ++ end_marker.

(** An archive whose first entry is a directory with an empty name. *)
Definition noname_archive : list ascii :=
  dir_entry []
  ++ file_entry (lit "a") (lit "hello")
  ++ dir_entry (lit "c/")
  ++ file_entry (lit "c/d") (lit "deep")
  ++ end_marker.

(** An archive as GNU tar writes it in the ustar format: the directory
    [d/], the file [d/f] with the content "hello" and the link [l -> d/f],
    then two blocks of zeros. *)
Definition gnu_tar_archive : list ascii :=
  lit "d/"
  ++ repeat NUL 98
  ++ lit "0000644"
  ++ repeat NUL 1
  ++ lit "0000000"
  ++ repeat NUL 1
  ++ lit "0000000"
  ++ repeat NUL 1
  ++ lit "00000000000"
  ++ repeat NUL 1
  ++ lit "00000000000"
  ++ repeat NUL 1
  ++ lit "007425"
  ++ repeat NUL 1
  ++ lit " 5"
  ++ repeat NUL 100
  ++ lit "ustar"
  ++ repeat NUL 1
  ++ lit "00"
  ++ repeat NUL 64
  ++ lit "0000000"
  ++ repeat NUL 1
  ++ lit "0000000"
  ++ repeat NUL 168
  ++ lit "d/f"
  ++ repeat NUL 97
  ++ lit "0000644"
  ++ repeat NUL 1
  ++ lit "0000000"
  ++ repeat NUL 1
  ++ lit "0000000"
  ++ repeat NUL 1
  ++ lit "00000000005"
  ++ repeat NUL 1
  ++ lit "00000000000"
  ++ repeat NUL 1
  ++ lit "007573"
  ++ repeat NUL 1
  ++ lit " 0"
  ++ repeat NUL 100
  ++ lit "ustar"
  ++ repeat NUL 1
  ++ lit "00"
  ++ repeat NUL 64
  ++ lit "0000000"
  ++ repeat NUL 1
  ++ lit "0000000"
  ++ repeat NUL 168
  ++ lit "hello"
  ++ repeat NUL 507
  ++ lit "l"
  ++ repeat NUL 99
  ++ lit "0000644"
  ++ repeat NUL 1
  ++ lit "0000000"
  ++ repeat NUL 1
  ++ lit "0000000"
  ++ repeat NUL 1
  ++ lit "00000000000"
  ++ repeat NUL 1
  ++ lit "00000000000"
  ++ repeat NUL 1
  ++ lit "007744"
  ++ repeat NUL 1
  ++ lit " 2d/f"
  ++ repeat NUL 97
  ++ lit "ustar"
  ++ repeat NUL 1
  ++ lit "00"
  ++ repeat NUL 64
  ++ lit "0000000"
  ++ repeat NUL 1
  ++ lit "0000000"
  ++ repeat NUL 1192.

(** ** Further vocabulary *)

(** [read_file] once its path is resolved: the outcome as a function of
    the archive's bytes and of the entry [resolve_path] returned. *)
Definition read_resolved (content : list ascii)
    (resolved : option (tar_header_t * Z * list ascii))
    (offset : Z) (dest : list ascii) (len : Z) : Z * list ascii * Z :=
  match resolved with
  | None => (-1, dest, len)
  | Some (hdr, data_off, _) =>
      if negb (Ascii.eqb (hdr_typeflag hdr) REGTYPE
               || Ascii.eqb (hdr_typeflag hdr) AREGTYPE)
      then (-1, dest, len)
      else
        let size := to_size_t (TAR_INT (hdr_size hdr)) in
        if size <? offset then (-2, dest, len)
        else
          let to_read := to_size_t (size - offset) in
          let to_read := if len <? to_read then len else to_read in
          let target := to_off_t (data_off + offset) in
          if target <? 0 then (-1, dest, len)
          else
            let data := firstn (Z.to_nat to_read) (skipn (Z.to_nat target) content) in
            let r := Z.of_nat (length data) in
            let dest' := data ++ skipn (length data) dest in
            let len' := to_size_t r in
            if to_size_t (offset + to_size_t r) <? size
            then (to_off_t (to_size_t (to_size_t (size - offset) - to_size_t r)),
                  dest', len')
            else (0, dest', len')
  end.

(** [links_to content k path = Some target]: [path] names a symbolic link
    whose target names a symbolic link, and so on for [k] links, the last
    of which names [target]. *)
Fixpoint links_to (content : list ascii) (k : nat) (path : list ascii)
  : option (list ascii) :=
  match k with
  | O => Some path
  | S k' =>
      match lookup content path with
      | Some (hdr, _) =>
          if Ascii.eqb (hdr_typeflag hdr) SYMTYPE
          then links_to content k' (link_target hdr)
          else None
      | None => None
      end
  end.

(** What may follow the last entry: the end of the file (fewer bytes than
    a block) or a block of zeros and anything after it. *)
Definition archive_end (tail : list ascii) : Prop :=
  (length tail < sizeof_header)%nat \/ firstn sizeof_header tail = end_block.

(** Two regular files with the same path. *)
Definition twice_archive : list ascii :=
  file_entry (lit "a") (lit "first")
  ++ file_entry (lit "a") (lit "second")
  ++ end_marker.

(** Two links that point to each other, and a link to a missing entry. *)
Definition loop_archive : list ascii :=
  symlink_entry (lit "x") (lit "y")
  ++ symlink_entry (lit "y") (lit "x")
  ++ symlink_entry (lit "z") (lit "nowhere")
  ++ end_marker.

(** ** Arithmetic of the header fields *)

Lemma byte_val_range (c : ascii) : 0 <= byte_val c < 256.
Proof.
  unfold byte_val. pose proof (N_ascii_bounded c). lia.
Qed.

Lemma byte_val_inj (c1 c2 : ascii) : byte_val c1 = byte_val c2 -> c1 = c2.
Proof.
  unfold byte_val. intros H.
  rewrite <- (ascii_N_embedding c1), <- (ascii_N_embedding c2).
  f_equal. lia.
Qed.

Lemma byte_val_NUL (c : ascii) : byte_val c = 0 <-> c = NUL.
Proof.
  split; intros H.
  - apply byte_val_inj. rewrite H. reflexivity.
  - subst c. reflexivity.
Qed.

Lemma eqb_NUL_false (c : ascii) : Ascii.eqb c NUL = false <-> c <> NUL.
Proof. apply Ascii.eqb_neq. Qed.

Lemma octal_digit_range (c : ascii) (d : Z) :
  octal_digit c = Some d -> 0 <= d <= 7.
Proof.
  unfold octal_digit.
  destruct (48 <=? byte_val c) eqn:E1; destruct (byte_val c <=? 55) eqn:E2;
    cbn; intros H; inversion H; subst; lia.
Qed.

Lemma octal_acc_bounds (field : list ascii) :
  forall acc, 0 <= acc ->
    acc <= octal_acc field acc < (acc + 1) * 8 ^ Z.of_nat (length field).
Proof.
  induction field as [|c field IH]; intros acc Hacc.
  - cbn. lia.
  - cbn [octal_acc length]. rewrite Nat2Z.inj_succ, Z.pow_succ_r by lia.
    assert (Hp : 0 < 8 ^ Z.of_nat (length field)) by (apply Z.pow_pos_nonneg; lia).
    destruct (octal_digit c) as [d|] eqn:Ed.
    + apply octal_digit_range in Ed.
      specialize (IH (8 * acc + d) ltac:(lia)). nia.
    + nia.
Qed.

Lemma TAR_INT_bounds (field : list ascii) :
  0 <= TAR_INT field < 8 ^ Z.of_nat (length field).
Proof.
  unfold TAR_INT. pose proof (octal_acc_bounds field 0 ltac:(lia)). lia.
Qed.

Lemma entry_size_range (hdr : tar_header_t) : 0 <= entry_size hdr < 2 ^ 36.
Proof.
  unfold entry_size. pose proof (TAR_INT_bounds (hdr_size hdr)) as H.
  assert (Hl : (length (hdr_size hdr) <= 12)%nat).
  { unfold hdr_size. rewrite length_firstn. lia. }
  assert (8 ^ Z.of_nat (length (hdr_size hdr)) <= 8 ^ 12).
  { apply Z.pow_le_mono_r; lia. }
  change (2 ^ 36) with (8 ^ 12). lia.
Qed.

Lemma chksum_field_range (hdr : tar_header_t) : 0 <= TAR_INT (hdr_chksum hdr) < 2 ^ 24.
Proof.
  pose proof (TAR_INT_bounds (hdr_chksum hdr)) as H.
  assert (Hl : (length (hdr_chksum hdr) <= 8)%nat).
  { unfold hdr_chksum. rewrite length_firstn. lia. }
  assert (8 ^ Z.of_nat (length (hdr_chksum hdr)) <= 8 ^ 8).
  { apply Z.pow_le_mono_r; lia. }
  change (2 ^ 24) with (8 ^ 8). lia.
Qed.

Lemma entry_span_range (hdr : tar_header_t) :
  entry_size hdr <= entry_span hdr < entry_size hdr + 512.
Proof.
  unfold entry_span. pose proof (entry_size_range hdr).
  pose proof (Z.div_mod (entry_size hdr + 511) 512 ltac:(lia)).
  pose proof (Z.mod_pos_bound (entry_size hdr + 511) 512 ltac:(lia)).
  lia.
Qed.

(** The wrap-around in the computation of [jump] never takes effect. *)
Lemma entry_jump_span (hdr : tar_header_t) : entry_jump hdr = entry_span hdr.
Proof.
  pose proof (entry_size_range hdr) as Hs.
  pose proof (entry_span_range hdr) as Hj.
  unfold entry_jump, to_off_t, to_size_t.
  fold (entry_size hdr).
  assert (H64 : 2 ^ 36 + 512 < 2 ^ 63) by reflexivity.
  assert (H63 : 2 ^ 63 < 2 ^ 64) by reflexivity.
  rewrite (Z.mod_small (entry_size hdr)) by lia.
  rewrite (Z.mod_small (entry_size hdr + 511)) by lia.
  fold (entry_span hdr).
  rewrite !(Z.mod_small (entry_span hdr)) by lia.
  destruct (entry_span hdr <? 2 ^ 63) eqn:E; [reflexivity|].
  apply Z.ltb_ge in E. lia.
Qed.

Lemma entry_jump_nonneg (hdr : tar_header_t) : 0 <= entry_jump hdr.
Proof.
  rewrite entry_jump_span. pose proof (entry_span_range hdr).
  pose proof (entry_size_range hdr). lia.
Qed.

(** ** The descriptor *)

Lemma lseek_cur_0 (f : list ascii) (p : nat) :
  lseek (mk_fd f p) 0 SEEK_CUR = (Z.of_nat p, mk_fd f p).
Proof.
  unfold lseek. cbn [fd_pos fd_content]. rewrite Z.add_0_r.
  destruct (Z.of_nat p <? 0) eqn:E; [apply Z.ltb_lt in E; lia|].
  rewrite Nat2Z.id. reflexivity.
Qed.

Lemma lseek_set_nonneg (fd : tar_fd) (t : Z) :
  0 <= t -> lseek fd t SEEK_SET = (t, mk_fd (fd_content fd) (Z.to_nat t)).
Proof.
  intros Ht. unfold lseek.
  destruct (t <? 0) eqn:E; [apply Z.ltb_lt in E; lia|reflexivity].
Qed.

Lemma lseek_cur_nonneg (f : list ascii) (p : nat) (t : Z) :
  0 <= t ->
  lseek (mk_fd f p) t SEEK_CUR
  = (Z.of_nat p + t, mk_fd f (Z.to_nat (Z.of_nat p + t))).
Proof.
  intros Ht. unfold lseek. cbn [fd_pos fd_content].
  destruct (Z.of_nat p + t <? 0) eqn:E; [apply Z.ltb_lt in E; lia|reflexivity].
Qed.

Lemma lseek_set_0 (fd : tar_fd) :
  lseek fd 0 SEEK_SET = (0, mk_fd (fd_content fd) 0).
Proof. reflexivity. Qed.

Lemma read_block_full (f : list ascii) (p : nat) :
  length (firstn sizeof_header (skipn p f)) = sizeof_header ->
  (p + sizeof_header <= length f)%nat.
Proof.
  rewrite length_firstn, length_skipn. unfold sizeof_header. lia.
Qed.

(** ** Fuel *)

Ltac block_lia := unfold sizeof_header in *; lia.

(** Past the bound [length content - pos], more fuel changes nothing. *)
Lemma scan_fuel_irrel (f : list ascii) :
  forall n m p, (length f - p < n)%nat -> (length f - p < m)%nat ->
    scan n f p = scan m f p.
Proof.
  induction n as [|n IH]; intros m p Hn Hm; [lia|].
  destruct m as [|m]; [lia|].
  cbn [scan].
  destruct (negb (length (firstn sizeof_header (skipn p f)) =? sizeof_header)%nat) eqn:El;
    [reflexivity|].
  destruct (is_empty_block (firstn sizeof_header (skipn p f))); [reflexivity|].
  apply negb_false_iff, Nat.eqb_eq, read_block_full in El.
  pose proof (entry_jump_nonneg (firstn sizeof_header (skipn p f))) as Hj.
  f_equal. apply IH; block_lia.
Qed.

Lemma scan_headers (f : list ascii) : scan (S (length f)) f 0 = headers f.
Proof.
  unfold headers, scan_from. apply scan_fuel_irrel; lia.
Qed.

(** The equations of [scan_from]. *)
Lemma scan_from_stop (f : list ascii) (p : nat) :
  length (firstn sizeof_header (skipn p f)) <> sizeof_header
  \/ is_empty_block (firstn sizeof_header (skipn p f)) = true ->
  scan_from f p = [].
Proof.
  intros H. unfold scan_from. cbn [scan].
  destruct (negb (length (firstn sizeof_header (skipn p f)) =? sizeof_header)%nat) eqn:El;
    [reflexivity|].
  apply negb_false_iff, Nat.eqb_eq in El.
  destruct H as [H|H]; [contradiction|]. rewrite H. reflexivity.
Qed.

Lemma scan_from_step (f : list ascii) (p : nat) :
  length (firstn sizeof_header (skipn p f)) = sizeof_header ->
  is_empty_block (firstn sizeof_header (skipn p f)) = false ->
  scan_from f p
  = (firstn sizeof_header (skipn p f), Z.of_nat (p + sizeof_header))
    :: scan_from f (Z.to_nat (Z.of_nat (p + sizeof_header)
                              + entry_jump (firstn sizeof_header (skipn p f)))).
Proof.
  intros Hl He. unfold scan_from at 1. cbn [scan].
  rewrite Hl, Nat.eqb_refl, He. cbn [negb].
  f_equal. apply read_block_full in Hl.
  pose proof (entry_jump_nonneg (firstn sizeof_header (skipn p f))) as Hj.
  apply scan_fuel_irrel; block_lia.
Qed.

(** ** The loops as folds over the scanned headers

    Each loop, given fuel beyond the bound, returns: its result is a fold
    over the headers that [scan] lists. *)

Lemma find_header_loop_scan (path : list ascii) (f : list ascii) :
  forall fuel p, (length f - p < fuel)%nat ->
    exists fd', find_header_loop fuel (mk_fd f p) path
                = Some (find_entry path (scan fuel f p), fd')
                /\ fd_content fd' = f.
Proof.
  induction fuel as [|fuel IH]; intros p Hfuel; [lia|].
  cbn [find_header_loop scan]. unfold read. cbn [fd_pos fd_content].
  set (hdr := firstn sizeof_header (skipn p f)).
  destruct (negb (length hdr =? sizeof_header)%nat) eqn:El.
  { eexists; split; reflexivity. }
  destruct (is_empty_block hdr) eqn:Ee.
  { eexists; split; reflexivity. }
  apply negb_false_iff, Nat.eqb_eq in El. rewrite El.
  rewrite lseek_cur_0. unfold find_entry. cbn [List.find fst].
  destruct (entry_match hdr path) eqn:Em.
  { eexists; split; reflexivity. }
  pose proof (entry_jump_nonneg hdr) as Hj.
  rewrite lseek_set_nonneg by lia. cbn [fd_content].
  destruct (Z.of_nat (p + sizeof_header) + entry_jump hdr =? -1) eqn:E1;
    [apply Z.eqb_eq in E1; lia|].
  apply IH. apply read_block_full in El. block_lia.
Qed.

Lemma check_archive_loop_scan (f : list ascii) :
  forall fuel p count, (length f - p < fuel)%nat ->
    exists fd', check_archive_loop fuel (mk_fd f p) count
                = Some (check_headers (scan fuel f p) count, fd').
Proof.
  induction fuel as [|fuel IH]; intros p count Hfuel; [lia|].
  cbn [check_archive_loop scan]. unfold read. cbn [fd_pos fd_content].
  set (hdr := firstn sizeof_header (skipn p f)).
  destruct (negb (length hdr =? sizeof_header)%nat) eqn:El.
  { eexists; reflexivity. }
  destruct (is_empty_block hdr) eqn:Ee.
  { eexists; reflexivity. }
  apply negb_false_iff, Nat.eqb_eq in El. rewrite El.
  cbn [check_headers].
  destruct (bad_magic hdr); [eexists; reflexivity|].
  destruct (bad_version hdr); [eexists; reflexivity|].
  destruct (bad_chksum hdr); [eexists; reflexivity|].
  pose proof (entry_jump_nonneg hdr) as Hj.
  rewrite lseek_cur_nonneg by lia.
  destruct (Z.of_nat (p + sizeof_header) + entry_jump hdr =? -1) eqn:E1;
    [apply Z.eqb_eq in E1; lia|].
  apply IH. apply read_block_full in El. block_lia.
Qed.

Lemma list_loop_scan (base : list ascii) (capacity : nat) (f : list ascii) :
  forall fuel p entries count, (length f - p < fuel)%nat ->
    exists fd', list_loop fuel (mk_fd f p) base capacity entries count
                = Some (collect base capacity (scan fuel f p) entries count, fd').
Proof.
  induction fuel as [|fuel IH]; intros p entries count Hfuel; [lia|].
  cbn [list_loop scan]. unfold read. cbn [fd_pos fd_content].
  set (hdr := firstn sizeof_header (skipn p f)).
  destruct (negb (length hdr =? sizeof_header)%nat) eqn:El.
  { eexists; reflexivity. }
  destruct (is_empty_block hdr) eqn:Ee.
  { eexists; reflexivity. }
  apply negb_false_iff, Nat.eqb_eq in El. rewrite El.
  rewrite lseek_cur_0. cbn [collect].
  pose proof (entry_jump_nonneg hdr) as Hj.
  assert (Hm : (length f - Z.to_nat (Z.of_nat (p + sizeof_header) + entry_jump hdr)
                < fuel)%nat).
  { apply read_block_full in El. block_lia. }
  assert (E1 : (Z.of_nat (p + sizeof_header) + entry_jump hdr =? -1) = false).
  { apply Z.eqb_neq. lia. }
  destruct (is_child (header_path hdr) base);
    [destruct (count <? capacity)%nat|];
    rewrite lseek_set_nonneg by lia; cbn [fd_content]; rewrite E1; apply IH, Hm.
Qed.

(** With the fuel the entry points supply, no loop runs out of it. *)
Lemma loops_terminate (fd : tar_fd) (path base : list ascii)
    (capacity : nat) (entries : list (list ascii)) :
  let fd0 := mk_fd (fd_content fd) 0 in
  find_header_loop (scan_fuel fd0) fd0 path <> None
  /\ check_archive_loop (scan_fuel fd0) fd0 0 <> None
  /\ list_loop (scan_fuel fd0) fd0 base capacity entries 0 <> None.
Proof.
  intros fd0. unfold fd0, scan_fuel. cbn [fd_content].
  destruct (find_header_loop_scan path (fd_content fd) (S (length (fd_content fd))) 0)
    as [fd1 [H1 _]]; [lia|].
  destruct (check_archive_loop_scan (fd_content fd) (S (length (fd_content fd))) 0 0)
    as [fd2 H2]; [lia|].
  destruct (list_loop_scan base capacity (fd_content fd)
              (S (length (fd_content fd))) 0 entries 0) as [fd3 H3]; [lia|].
  rewrite H1, H2, H3. repeat split; discriminate.
Qed.

(** ** The operations on the scanned headers *)

Lemma find_header_run (fd : tar_fd) (path : list ascii) :
  exists fd', find_header fd path
              = (find_entry path (headers (fd_content fd)), fd')
              /\ fd_content fd' = fd_content fd.
Proof.
  unfold find_header. rewrite lseek_set_0. cbn [Z.eqb].
  unfold scan_fuel. cbn [fd_content].
  destruct (find_header_loop_scan path (fd_content fd) (S (length (fd_content fd))) 0)
    as [fd' [H Hc]]; [lia|].
  rewrite H, scan_headers. exists fd'. split; [reflexivity|exact Hc].
Qed.

Lemma find_header_fst (fd : tar_fd) (path : list ascii) :
  fst (find_header fd path) = find_entry path (headers (fd_content fd)).
Proof.
  destruct (find_header_run fd path) as [fd' [H _]]. rewrite H. reflexivity.
Qed.

Lemma resolve_path_loop_run (n : nat) :
  forall fd current,
    exists fd', resolve_path_loop n fd current
                = (resolve_entries n (headers (fd_content fd)) current, fd')
                /\ fd_content fd' = fd_content fd.
Proof.
  induction n as [|n IH]; intros fd current.
  - exists fd. split; reflexivity.
  - cbn [resolve_path_loop resolve_entries].
    destruct (find_header_run fd current) as [fd1 [H Hc]]. rewrite H.
    destruct (find_entry current (headers (fd_content fd))) as [[header off]|].
    + destruct (Ascii.eqb (hdr_typeflag header) SYMTYPE).
      * destruct (IH fd1 (strip_slash (strncpy255 (hdr_linkname header))))
          as [fd2 [H2 Hc2]].
        rewrite H2, Hc. exists fd2. split; [reflexivity|congruence].
      * exists fd1. split; [reflexivity|exact Hc].
    + exists fd1. split; [reflexivity|exact Hc].
Qed.

Lemma resolve_path_fst (fd : tar_fd) (path : list ascii) :
  fst (resolve_path fd path)
  = resolve_entries 16 (headers (fd_content fd)) (strip_slash (strncpy255 path)).
Proof.
  unfold resolve_path.
  destruct (resolve_path_loop_run 16 fd (strip_slash (strncpy255 path))) as [fd' [H _]].
  rewrite H. reflexivity.
Qed.

Lemma check_archive_fst (fd : tar_fd) :
  fst (check_archive fd) = check_headers (headers (fd_content fd)) 0.
Proof.
  unfold check_archive. rewrite lseek_set_0. cbn [Z.eqb].
  unfold scan_fuel. cbn [fd_content].
  destruct (check_archive_loop_scan (fd_content fd) (S (length (fd_content fd))) 0 0)
    as [fd' H]; [lia|].
  rewrite H, scan_headers. reflexivity.
Qed.

Lemma list_fst (fd : tar_fd) (path : option (list ascii))
    (entries : list (list ascii)) (capacity : nat) :
  fst (Tar.list fd path entries capacity)
  = match list_prefix (headers (fd_content fd)) path with
    | None => (0, entries, 0%nat)
    | Some base =>
        (1, fst (collect base capacity (headers (fd_content fd)) entries 0),
            snd (collect base capacity (headers (fd_content fd)) entries 0))
    end.
Proof.
  assert (Hscan : forall fd1 base, fd_content fd1 = fd_content fd ->
    fst (let '(r, fd2) := lseek fd1 0 SEEK_SET in
         if r =? -1 then ((0, entries, 0%nat), fd2)
         else match list_loop (scan_fuel fd2) fd2 base capacity entries 0 with
              | Some (entries', count, fd3) => ((1, entries', count), fd3)
              | None => ((0, entries, 0%nat), fd2)
              end)
    = (1, fst (collect base capacity (headers (fd_content fd)) entries 0),
          snd (collect base capacity (headers (fd_content fd)) entries 0))).
  { intros fd1 base Hc. rewrite lseek_set_0. cbn [Z.eqb].
    unfold scan_fuel. cbn [fd_content]. rewrite Hc.
    destruct (list_loop_scan base capacity (fd_content fd)
                (S (length (fd_content fd))) 0 entries 0) as [fd' H]; [lia|].
    rewrite H, scan_headers.
    destruct (collect base capacity (headers (fd_content fd)) entries 0).
    reflexivity. }
  unfold Tar.list, list_prefix.
  destruct path as [p|]; [|apply Hscan; reflexivity].
  destruct (negb (Ascii.eqb (char_at p 0) NUL)); [|apply Hscan; reflexivity].
  unfold resolve_path.
  destruct (resolve_path_loop_run 16 fd (strip_slash (strncpy255 p))) as [fd1 [H Hc]].
  rewrite H.
  destruct (resolve_entries 16 (headers (fd_content fd)) (strip_slash (strncpy255 p)))
    as [[[hdr off] base]|]; [|reflexivity].
  destruct (negb (Ascii.eqb (hdr_typeflag hdr) DIRTYPE)); [reflexivity|].
  apply Hscan, Hc.
Qed.

(** ** C strings *)

Lemma cstr_nul_free (p : list ascii) : nul_free (cstr p).
Proof.
  induction p as [|c p IH]; cbn; [constructor|].
  destruct (Ascii.eqb_spec c NUL); [constructor|].
  constructor; assumption.
Qed.

Lemma cstr_id (s : list ascii) : nul_free s -> cstr s = s.
Proof.
  induction 1 as [|c s Hc _ IH]; cbn; [reflexivity|].
  destruct (Ascii.eqb_spec c NUL); [contradiction|]. f_equal. exact IH.
Qed.

Lemma cstr_cstr (p : list ascii) : cstr (cstr p) = cstr p.
Proof. apply cstr_id, cstr_nul_free. Qed.

Lemma cstr_app_nul (s rest : list ascii) :
  nul_free s -> cstr (s ++ NUL :: rest) = s.
Proof.
  induction 1 as [|c s Hc _ IH]; cbn; [reflexivity|].
  destruct (Ascii.eqb_spec c NUL); [contradiction|]. f_equal. exact IH.
Qed.

Lemma nul_free_app (s t : list ascii) :
  nul_free (s ++ t) <-> nul_free s /\ nul_free t.
Proof. apply Forall_app. Qed.

Lemma nul_free_firstn (n : nat) (s : list ascii) : nul_free s -> nul_free (firstn n s).
Proof.
  intros H. rewrite <- (firstn_skipn n s) in H. apply nul_free_app in H. tauto.
Qed.

Lemma nul_free_skipn (n : nat) (s : list ascii) : nul_free s -> nul_free (skipn n s).
Proof.
  intros H. rewrite <- (firstn_skipn n s) in H. apply nul_free_app in H. tauto.
Qed.

Lemma strlen_nul_free (s : list ascii) : nul_free s -> strlen s = length s.
Proof. intros H. unfold strlen. rewrite cstr_id by exact H. reflexivity. Qed.

(** [p[strlen(p)]] is the terminator, and no byte before it is. *)
Lemma char_at_strlen (p : list ascii) : char_at p (strlen p) = NUL.
Proof.
  unfold char_at, strlen. induction p as [|c p IH]; cbn; [reflexivity|].
  destruct (Ascii.eqb_spec c NUL) as [->|Hc]; cbn; [reflexivity|exact IH].
Qed.

Lemma char_at_before_strlen (p : list ascii) (i : nat) :
  (i < strlen p)%nat -> char_at p i <> NUL /\ char_at p i = char_at (cstr p) i.
Proof.
  unfold char_at, strlen. revert i.
  induction p as [|c p IH]; intros i Hi; cbn in *; [lia|].
  destruct (Ascii.eqb_spec c NUL) as [->|Hc]; cbn in *; [lia|].
  destruct i as [|i]; [split; [exact Hc|reflexivity]|].
  apply IH. lia.
Qed.

Lemma strlen_char_at (p : list ascii) (k : nat) :
  (k <= strlen p)%nat -> char_at p k = NUL -> strlen p = k.
Proof.
  intros Hk Hc.
  destruct (Nat.eq_dec (strlen p) k) as [E|E]; [exact E|].
  destruct (char_at_before_strlen p k ltac:(lia)) as [H _]. contradiction.
Qed.

Lemma byte_val_diff (c1 c2 : ascii) : c1 <> c2 -> byte_val c1 - byte_val c2 <> 0.
Proof.
  intros Hne H. apply Hne, byte_val_inj. lia.
Qed.

Lemma strcmp_eq (s1 : list ascii) :
  forall s2, strcmp s1 s2 = 0 <-> cstr s1 = cstr s2.
Proof.
  induction s1 as [|c1 r1 IH]; intros [|c2 r2]; cbn.
  - tauto.
  - destruct (Ascii.eqb_spec c2 NUL) as [->|Hc].
    + split; reflexivity.
    + split; [|discriminate]. intros H.
      exfalso. apply Hc, byte_val_NUL. lia.
  - destruct (Ascii.eqb_spec c1 NUL) as [->|Hc].
    + split; reflexivity.
    + split; [|discriminate]. intros H.
      exfalso. apply Hc, byte_val_NUL. lia.
  - destruct (Ascii.eqb_spec c1 c2) as [<-|Hne].
    + destruct (Ascii.eqb_spec c1 NUL) as [->|Hc]; [split; reflexivity|].
      rewrite IH. split; [intros ->; reflexivity|intros H; inversion H; reflexivity].
    + split.
      * intros H. exfalso. revert H. apply byte_val_diff, Hne.
      * destruct (Ascii.eqb_spec c1 NUL) as [->|Hc1];
          destruct (Ascii.eqb_spec c2 NUL) as [->|Hc2]; intros H;
          try discriminate; try congruence.
Qed.

(** The string with its terminator. *)
Lemma strncmp_eq (n : nat) :
  forall s1 s2, strncmp s1 s2 n = 0
                <-> firstn n (cstr s1 ++ [NUL]) = firstn n (cstr s2 ++ [NUL]).
Proof.
  assert (Hhd : forall s, exists t, cstr s ++ [NUL] = hd NUL s :: t
                          /\ (hd NUL s <> NUL -> t = cstr (tl s) ++ [NUL])).
  { intros [|c s]; cbn.
    - exists []. split; [reflexivity|congruence].
    - destruct (Ascii.eqb_spec c NUL) as [->|Hc]; cbn.
      + exists []. split; [reflexivity|congruence].
      + eexists. split; reflexivity. }
  induction n as [|n IH]; intros s1 s2; cbn [strncmp]; [cbn; tauto|].
  destruct (Hhd s1) as [t1 [E1 T1]]. destruct (Hhd s2) as [t2 [E2 T2]].
  rewrite E1, E2. cbn [firstn].
  destruct (Ascii.eqb_spec (hd NUL s1) (hd NUL s2)) as [Heq|Hne].
  - destruct (Ascii.eqb_spec (hd NUL s1) NUL) as [Hz|Hnz].
    + rewrite <- Heq, Hz in *.
      assert (t1 = []) as ->.
      { destruct s1 as [|c s]; cbn in *; [congruence|].
        subst c. cbn in E1. congruence. }
      assert (t2 = []) as ->.
      { destruct s2 as [|c s]; cbn in *; [congruence|].
        subst c. cbn in E2. congruence. }
      rewrite !firstn_nil. tauto.
    + rewrite T1 by exact Hnz. rewrite T2 by congruence.
      rewrite IH, Heq. split; [intros ->; reflexivity|intros H; inversion H; reflexivity].
  - split.
    + intros H. exfalso. revert H. apply byte_val_diff, Hne.
    + intros H. inversion H. contradiction.
Qed.

(** A NUL-free string of length [n] is the first [n] bytes of [s] with its
    terminator exactly when it starts the string. *)
Lemma firstn_terminated (s d : list ascii) :
  nul_free d ->
  firstn (length d) (cstr s ++ [NUL]) = d <-> firstn (length d) (cstr s) = d.
Proof.
  intros Hd. pose proof (cstr_nul_free s) as Hs.
  revert d Hd. induction (cstr s) as [|c t IH]; intros d Hd.
  - destruct d as [|x d]; cbn; [tauto|].
    split; intros H; [|discriminate].
    inversion H as [[Hx Ht]]. inversion Hd; subst. congruence.
  - destruct d as [|x d]; cbn; [tauto|].
    inversion Hs; subst. inversion Hd; subst.
    specialize (IH ltac:(assumption) d ltac:(assumption)).
    split; intros H; injection H as Hx Ht; f_equal;
      try exact Hx; apply IH; exact Ht.
Qed.

(** ** Entry paths and the match of [find_header] *)

Lemma SLASH_not_NUL : SLASH <> NUL.
Proof. discriminate. Qed.

Lemma nul_free_slash (d : list ascii) : nul_free d -> nul_free (d ++ [SLASH]).
Proof.
  intros Hd. apply nul_free_app.
  split; [exact Hd|constructor; [exact SLASH_not_NUL|constructor]].
Qed.

Create HintDb cstr discriminated.
#[local] Hint Resolve cstr_nul_free nul_free_slash nul_free_firstn nul_free_skipn : cstr.

Lemma header_path_nul_free (hdr : tar_header_t) : nul_free (header_path hdr).
Proof.
  unfold header_path.
  destruct (negb (Ascii.eqb (char_at (hdr_prefix hdr) 0) NUL));
    apply nul_free_firstn; [|apply cstr_nul_free].
  apply nul_free_app. split; [apply cstr_nul_free|].
  constructor; [exact SLASH_not_NUL|apply cstr_nul_free].
Qed.

Lemma header_path_length (hdr : tar_header_t) : (length (header_path hdr) <= 255)%nat.
Proof.
  unfold header_path.
  destruct (negb (Ascii.eqb (char_at (hdr_prefix hdr) 0) NUL));
    rewrite length_firstn; lia.
Qed.

Lemma char_at_last (d : list ascii) (c : ascii) :
  char_at (d ++ [c]) (length (d ++ [c]) - 1) = c.
Proof.
  unfold char_at. rewrite length_app. cbn [length].
  replace (length d + 1 - 1)%nat with (length d) by lia.
  apply nth_middle.
Qed.

Lemma firstn_app_exact (d t : list ascii) : firstn (length d) (d ++ t) = d.
Proof.
  rewrite firstn_app, Nat.sub_diag, firstn_all. cbn. apply app_nil_r.
Qed.

(** The match of a directory entry: its path, or its path without the
    trailing slash. *)
Lemma entry_match_dir (hdr : tar_header_t) (path : list ascii) :
  hdr_typeflag hdr = DIRTYPE ->
  entry_match hdr path = true
  <-> cstr path = header_path hdr
      \/ exists d, header_path hdr = d ++ [SLASH] /\ cstr path = d.
Proof.
  intros Ht. unfold entry_match. rewrite Ht, Ascii.eqb_refl.
  pose proof (header_path_nul_free hdr) as Hn.
  set (name := header_path hdr) in *.
  rewrite (strlen_nul_free name Hn).
  destruct (strcmp name path =? 0) eqn:Ecmp.
  { apply Z.eqb_eq, strcmp_eq in Ecmp. rewrite (cstr_id name Hn) in Ecmp.
    split; [left; congruence|reflexivity]. }
  apply Z.eqb_neq in Ecmp. rewrite strcmp_eq, (cstr_id name Hn) in Ecmp.
  split.
  - intros H.
    destruct ((0 <? length name)%nat
              && Ascii.eqb (char_at name (length name - 1)) SLASH
              && (strncmp name path (length name - 1) =? 0)
              && Ascii.eqb (char_at path (length name - 1)) NUL) eqn:E;
      [clear H|discriminate].
    apply andb_true_iff in E as [E E4]. apply andb_true_iff in E as [E E3].
    apply andb_true_iff in E as [E1 E2].
    apply Nat.ltb_lt in E1. apply Ascii.eqb_eq in E2, E4. apply Z.eqb_eq in E3.
    destruct (exists_last (l := name)) as [d [c Hd]].
    { intros Hnil. rewrite Hnil in E1. cbn in E1. lia. }
    rewrite Hd in E2, E3, E4, Hn. rewrite char_at_last in E2. subst c.
    rewrite length_app in E3, E4. cbn [length] in E3, E4.
    replace (length d + 1 - 1)%nat with (length d) in E3, E4 by lia.
    apply nul_free_app in Hn as [Hnd _].
    apply strncmp_eq in E3.
    rewrite (cstr_id (d ++ [SLASH])) in E3
      by auto with cstr.
    rewrite <- app_assoc, firstn_app_exact in E3. symmetry in E3.
    apply firstn_terminated in E3; [|exact Hnd].
    assert (Hlen : (length d <= strlen path)%nat).
    { unfold strlen. rewrite <- E3 at 1. rewrite length_firstn. lia. }
    pose proof (strlen_char_at path (length d) Hlen E4) as Hs.
    right. exists d. split; [exact Hd|].
    rewrite <- E3. unfold strlen in Hs. rewrite <- Hs. symmetry. apply firstn_all.
  - intros [H|[d [Hd Hp]]]; [congruence|].
    assert (Hnd : nul_free d).
    { rewrite Hd in Hn. apply nul_free_app in Hn. tauto. }
    assert (E1 : (0 <? length name)%nat = true).
    { apply Nat.ltb_lt. rewrite Hd, length_app. cbn. lia. }
    assert (E2 : Ascii.eqb (char_at name (length name - 1)) SLASH = true).
    { apply Ascii.eqb_eq. rewrite Hd. apply char_at_last. }
    assert (El : (length name - 1)%nat = length d).
    { rewrite Hd, length_app. cbn. lia. }
    assert (E3 : (strncmp name path (length name - 1) =? 0) = true).
    { apply Z.eqb_eq, strncmp_eq. rewrite El, (cstr_id name Hn), Hp, Hd.
      rewrite <- app_assoc, !firstn_app_exact. reflexivity. }
    assert (E4 : Ascii.eqb (char_at path (length name - 1)) NUL = true).
    { apply Ascii.eqb_eq. rewrite El, <- Hp. apply char_at_strlen. }
    rewrite E1, E2, E3, E4. reflexivity.
Qed.

(** Any other entry matches by its exact path. *)
Lemma entry_match_other (hdr : tar_header_t) (path : list ascii) :
  hdr_typeflag hdr <> DIRTYPE ->
  entry_match hdr path = true <-> cstr path = header_path hdr.
Proof.
  intros Ht. unfold entry_match.
  destruct (Ascii.eqb_spec (hdr_typeflag hdr) DIRTYPE); [contradiction|].
  pose proof (header_path_nul_free hdr) as Hn.
  destruct (strcmp (header_path hdr) path =? 0) eqn:Ecmp.
  - apply Z.eqb_eq, strcmp_eq in Ecmp. rewrite (cstr_id _ Hn) in Ecmp.
    split; [congruence|reflexivity].
  - apply Z.eqb_neq in Ecmp. rewrite strcmp_eq, (cstr_id _ Hn) in Ecmp.
    split; [discriminate|congruence].
Qed.

(** ** The query of [resolve_path] *)

Lemma strip_slash_app (d : list ascii) :
  nul_free d -> strip_slash (d ++ [SLASH]) = d.
Proof.
  intros Hd. unfold strip_slash.
  assert (Hn : nul_free (d ++ [SLASH])).
  { auto with cstr. }
  rewrite (strlen_nul_free _ Hn), char_at_last, Ascii.eqb_refl.
  rewrite length_app. cbn [length].
  replace (length d + 1 - 1)%nat with (length d) by lia.
  destruct (0 <? length d + 1)%nat eqn:E; [|apply Nat.ltb_ge in E; lia].
  cbn [andb]. apply firstn_app_exact.
Qed.

Lemma strip_slash_id (s : list ascii) :
  nul_free s -> (forall d, s <> d ++ [SLASH]) -> strip_slash s = s.
Proof.
  intros Hs Hno. unfold strip_slash. rewrite (strlen_nul_free _ Hs).
  destruct (0 <? length s)%nat eqn:E; [|reflexivity].
  destruct (Ascii.eqb_spec (char_at s (length s - 1)) SLASH) as [Hc|Hc]; [|reflexivity].
  exfalso. apply Nat.ltb_lt in E.
  destruct (exists_last (l := s)) as [d [c Hd]].
  { intros Hnil. rewrite Hnil in E. cbn in E. lia. }
  rewrite Hd, char_at_last in Hc. subst c. exact (Hno d Hd).
Qed.

(** A query and the same query with a slash appended are the same to
    [resolve_path]. *)
Lemma query_trailing_slash (dir : list ascii) :
  (forall d, cstr dir <> d ++ [SLASH]) ->
  strip_slash (strncpy255 (cstr dir ++ [SLASH])) = strip_slash (strncpy255 dir).
Proof.
  intros Hno. unfold strncpy255.
  pose proof (cstr_nul_free dir) as Hn.
  rewrite (cstr_id (cstr dir ++ [SLASH]))
    by auto with cstr.
  destruct (Nat.le_gt_cases 255 (length (cstr dir))) as [Hlen|Hlen].
  - rewrite firstn_app.
    replace (255 - length (cstr dir))%nat with 0%nat by lia.
    cbn [firstn]. rewrite app_nil_r. reflexivity.
  - rewrite (firstn_all2 (cstr dir ++ [SLASH]))
      by (rewrite length_app; cbn [length]; lia).
    rewrite (firstn_all2 (cstr dir)) by lia.
    rewrite strip_slash_app by exact Hn.
    symmetry. apply strip_slash_id; assumption.
Qed.

Lemma find_first (A : Type) (f : A -> bool) (pre post : list A) (x : A) :
  (forall e, In e pre -> f e = false) -> f x = true ->
  List.find f (pre ++ x :: post) = Some x.
Proof.
  intros Hpre Hx. induction pre as [|e pre IH]; cbn.
  - rewrite Hx. reflexivity.
  - rewrite (Hpre e) by (left; reflexivity). apply IH.
    intros e' He'. apply Hpre. right. exact He'.
Qed.

Lemma lookup_find_entry (content path : list ascii) :
  lookup content path = find_entry path (headers content).
Proof. unfold lookup. rewrite find_header_fst. reflexivity. Qed.

(** ** Symbolic links *)

Lemma resolve_entries_chain (content : list ascii) (hdr : tar_header_t) (off : Z) :
  forall m n current,
    link_chain content n current = Some (hdr, off) ->
    resolve_entries m (headers content) current
    = if (n <? m)%nat then Some (hdr, off, header_path hdr) else None.
Proof.
  induction m as [|m IH]; intros n current Hchain.
  - destruct n; reflexivity.
  - cbn [resolve_entries]. rewrite <- lookup_find_entry.
    destruct n as [|n]; cbn [link_chain] in Hchain;
      destruct (lookup content current) as [[h o]|]; try discriminate;
      destruct (Ascii.eqb (hdr_typeflag h) SYMTYPE); try discriminate.
    + injection Hchain as -> ->. reflexivity.
    + exact (IH n _ Hchain).
Qed.

Lemma resolve_entries_self (content : list ascii) (lnk : tar_header_t) (off : Z)
    (current : list ascii) :
  lookup content current = Some (lnk, off) ->
  hdr_typeflag lnk = SYMTYPE ->
  link_target lnk = current ->
  forall m, resolve_entries m (headers content) current = None.
Proof.
  intros Hl Ht Hself. induction m as [|m IH]; [reflexivity|].
  cbn [resolve_entries]. rewrite <- lookup_find_entry, Hl, Ht, Ascii.eqb_refl.
  unfold link_target, path_query in Hself. rewrite Hself. exact IH.
Qed.

(** C1 (as amended): [resolve_path] looks a path up at most 16 times, so
    it follows at most 15 symbolic links.  A path that leads through [n]
    links to an entry that is not a link resolves to that entry, with its
    data offset and its path, when [n <= 15] -- a chain of 15 links to a
    file resolves -- and is not found when [n >= 16] -- chains of 16 and of
    17 links fail.  A link that names itself is not found. *)
Theorem resolve_path_link_bound :
  (forall (fd : tar_fd) (path : list ascii) (n : nat) (hdr : tar_header_t) (off : Z),
      link_chain (fd_content fd) n (path_query path) = Some (hdr, off) ->
      (n <= 15)%nat ->
      fst (resolve_path fd path) = Some (hdr, off, header_path hdr))
  /\ (forall (fd : tar_fd) (path : list ascii) (n : nat) (hdr : tar_header_t) (off : Z),
      link_chain (fd_content fd) n (path_query path) = Some (hdr, off) ->
      (16 <= n)%nat ->
      fst (resolve_path fd path) = None)
  /\ (forall (fd : tar_fd) (path : list ascii) (lnk : tar_header_t) (off : Z),
      lookup (fd_content fd) (path_query path) = Some (lnk, off) ->
      hdr_typeflag lnk = SYMTYPE ->
      link_target lnk = path_query path ->
      fst (resolve_path fd path) = None).
Proof.
  split; [|split].
  - intros fd path n hdr off Hchain Hn. rewrite resolve_path_fst.
    fold (path_query path).
    rewrite (resolve_entries_chain _ _ _ 16 n _ Hchain).
    destruct (n <? 16)%nat eqn:E; [reflexivity|apply Nat.ltb_ge in E; lia].
  - intros fd path n hdr off Hchain Hn. rewrite resolve_path_fst.
    fold (path_query path).
    rewrite (resolve_entries_chain _ _ _ 16 n _ Hchain).
    destruct (n <? 16)%nat eqn:E; [apply Nat.ltb_lt in E; lia|reflexivity].
  - intros fd path lnk off Hl Ht Hself. rewrite resolve_path_fst.
    exact (resolve_entries_self _ _ _ _ Hl Ht Hself 16).
Qed.

(** C1, witness: chains of 15, 16 and 17 links to the file [f], and the
    link [self -> self]. *)
Lemma resolve_path_link_bound_witness :
  fst (resolve_path (open_archive (chain_archive 15)) (lit "l00"))
  = Some (chain_file, 8192, lit "f")
  /\ fst (resolve_path (open_archive (chain_archive 16)) (lit "l00")) = None
  /\ fst (resolve_path (open_archive (chain_archive 17)) (lit "l00")) = None
  /\ fst (resolve_path (open_archive self_link_archive) (lit "self")) = None.
Proof.
  destruct resolve_path_link_bound as [Hshort [Hlong Hself]].
  split; [|split; [|split]].
  - apply (Hshort (open_archive (chain_archive 15)) (lit "l00") 15%nat chain_file 8192).
    + vm_compute. reflexivity.
    + lia.
  - apply (Hlong (open_archive (chain_archive 16)) (lit "l00") 16%nat chain_file 8704).
    + vm_compute. reflexivity.
    + lia.
  - apply (Hlong (open_archive (chain_archive 17)) (lit "l00") 17%nat chain_file 9216).
    + vm_compute. reflexivity.
    + lia.
  - apply (Hself (open_archive self_link_archive) (lit "self")
             (mk_header (lit "self") 0 SYMTYPE (lit "self") []) 512).
    + vm_compute. reflexivity.
    + vm_compute. reflexivity.
    + vm_compute. reflexivity.
Defined.

(** C1, counterexample to the claim as stated: sixteen symbolic links
    [l00 -> l01 -> ... -> l17 -> f] (numbered in octal) lead to the regular
    file [f] in an archive that [check_archive] accepts, and [resolve_path]
    does not find it. *)
Lemma resolve_path_depth_16_fails :
  link_chain (chain_archive 16) 16 (lit "l00") = Some (chain_file, 8704)
  /\ hdr_typeflag chain_file = REGTYPE
  /\ fst (check_archive (open_archive (chain_archive 16))) = 17
  /\ fst (resolve_path (open_archive (chain_archive 16)) (lit "l00")) = None.
Proof.
  vm_compute. repeat split; reflexivity.
Qed.

(** ** Directory queries *)

Lemma without_slash_app (d : list ascii) : without_slash (d ++ [SLASH]) = d.
Proof.
  unfold without_slash. rewrite List.last_last, Ascii.eqb_refl. apply List.removelast_last.
Qed.

Lemma without_slash_cases (s : list ascii) :
  (exists d, s = d ++ [SLASH] /\ without_slash s = d)
  \/ ((forall d, s <> d ++ [SLASH]) /\ without_slash s = s).
Proof.
  unfold without_slash.
  destruct (Ascii.eqb_spec (List.last s NUL) SLASH) as [Hl|Hl].
  - left. exists (removelast s). split; [|reflexivity].
    rewrite <- Hl. apply List.app_removelast_last.
    intros ->. cbn in Hl. discriminate.
  - right. split; [|reflexivity].
    intros d ->. rewrite List.last_last in Hl. contradiction.
Qed.

(** C2 (as amended): a directory entry matches the query that equals its
    path and the query that equals its path without the trailing slash,
    and no other.  So [find_header] returns a directory stored as [d/] for
    the query [d] and for the query [d/], when no earlier entry matches
    them; a directory stored as [d], without the slash, it returns for the
    query [d] only: the query [d/] does not match it.  [resolve_path]
    removes one trailing slash from its query, so it gives the same result
    for [dir] and for [dir/], and for a directory stored either way that
    result is the directory, with its data offset and its path. *)
Theorem find_header_trailing_slash :
  (forall (hdr : tar_header_t) (path : list ascii),
      hdr_typeflag hdr = DIRTYPE ->
      entry_match hdr path = true
      <-> cstr path = header_path hdr
          \/ cstr path = without_slash (header_path hdr))
  /\ (forall (fd : tar_fd) (hdr : tar_header_t) (off : Z) (d : list ascii)
             (pre post : list (tar_header_t * Z)),
      headers (fd_content fd) = pre ++ (hdr, off) :: post ->
      hdr_typeflag hdr = DIRTYPE ->
      header_path hdr = d ++ [SLASH] ->
      (forall e, In e pre ->
                 entry_match (fst e) d = false
                 /\ entry_match (fst e) (d ++ [SLASH]) = false) ->
      fst (find_header fd d) = Some (hdr, off)
      /\ fst (find_header fd (d ++ [SLASH])) = Some (hdr, off))
  /\ (forall (fd : tar_fd) (hdr : tar_header_t) (off : Z) (d : list ascii)
             (pre post : list (tar_header_t * Z)),
      headers (fd_content fd) = pre ++ (hdr, off) :: post ->
      hdr_typeflag hdr = DIRTYPE ->
      header_path hdr = d ->
      (forall d', d <> d' ++ [SLASH]) ->
      (forall e, In e pre -> entry_match (fst e) d = false) ->
      fst (find_header fd d) = Some (hdr, off)
      /\ entry_match hdr (d ++ [SLASH]) = false
      /\ fst (find_header fd (d ++ [SLASH])) <> Some (hdr, off))
  /\ (forall (fd : tar_fd) (dir : list ascii),
      (forall d, cstr dir <> d ++ [SLASH]) ->
      resolve_path fd (cstr dir ++ [SLASH]) = resolve_path fd dir)
  /\ (forall (fd : tar_fd) (hdr : tar_header_t) (off : Z) (d : list ascii)
             (pre post : list (tar_header_t * Z)),
      headers (fd_content fd) = pre ++ (hdr, off) :: post ->
      hdr_typeflag hdr = DIRTYPE ->
      header_path hdr = d \/ header_path hdr = d ++ [SLASH] ->
      (forall d', d <> d' ++ [SLASH]) ->
      (forall e, In e pre -> entry_match (fst e) d = false) ->
      fst (resolve_path fd d) = Some (hdr, off, header_path hdr)
      /\ fst (resolve_path fd (d ++ [SLASH])) = Some (hdr, off, header_path hdr)).
Proof.
  assert (Hrule : forall hdr path,
    hdr_typeflag hdr = DIRTYPE ->
    entry_match hdr path = true
    <-> cstr path = header_path hdr \/ cstr path = without_slash (header_path hdr)).
  { intros hdr path Ht. rewrite (entry_match_dir hdr path Ht).
    split.
    - intros [H|[d [Hd H]]]; [left; exact H|].
      right. rewrite Hd, without_slash_app. exact H.
    - intros [H|H]; [left; exact H|].
      destruct (without_slash_cases (header_path hdr)) as [[d [Hd Hw]]|[_ Hw]].
      + right. exists d. split; [exact Hd|congruence].
      + left. congruence. }
  assert (Hresolve : forall fd dir,
    (forall d, cstr dir <> d ++ [SLASH]) ->
    resolve_path fd (cstr dir ++ [SLASH]) = resolve_path fd dir).
  { intros fd dir Hno. unfold resolve_path.
    rewrite (query_trailing_slash dir Hno). reflexivity. }
  split; [exact Hrule|split; [|split; [|split; [exact Hresolve|]]]].
  - intros fd hdr off d pre post Hh Ht Hd Hpre.
    assert (Hn : nul_free (d ++ [SLASH])) by (rewrite <- Hd; apply header_path_nul_free).
    assert (Hnd : nul_free d) by (apply nul_free_app in Hn; tauto).
    rewrite !find_header_fst, Hh. unfold find_entry. split.
    + apply find_first.
      * intros e He. apply (Hpre e He).
      * cbn [fst]. apply (Hrule hdr d Ht). right.
        rewrite Hd, without_slash_app. apply cstr_id, Hnd.
    + apply find_first.
      * intros e He. apply (Hpre e He).
      * cbn [fst]. apply (Hrule hdr (d ++ [SLASH]) Ht). left.
        rewrite Hd. apply cstr_id, Hn.
  - intros fd hdr off d pre post Hh Ht Hd Hno Hpre.
    assert (Hnd : nul_free d) by (rewrite <- Hd; apply header_path_nul_free).
    assert (Hmiss : entry_match hdr (d ++ [SLASH]) = false).
    { destruct (entry_match hdr (d ++ [SLASH])) eqn:Em; [|reflexivity].
      exfalso. apply (Hrule hdr _ Ht) in Em.
      rewrite cstr_id in Em by auto with cstr. rewrite Hd in Em.
      destruct Em as [Em|Em].
      - exact (Hno d (eq_sym Em)).
      - destruct (without_slash_cases d) as [[d' [Hd' _]]|[_ Hw]].
        + exact (Hno d' Hd').
        + rewrite Hw in Em. exact (Hno d (eq_sym Em)). }
    split; [|split; [exact Hmiss|]].
    + rewrite find_header_fst, Hh. unfold find_entry. apply find_first.
      * exact Hpre.
      * cbn [fst]. apply (Hrule hdr d Ht). left. rewrite Hd. apply cstr_id, Hnd.
    + rewrite find_header_fst. unfold find_entry. intros Hf.
      apply find_some in Hf as [_ Hf]. cbn [fst] in Hf. congruence.
  - intros fd hdr off d pre post Hh Ht Hd Hno Hpre.
    assert (Hnd : nul_free d).
    { pose proof (header_path_nul_free hdr) as Hn.
      destruct Hd as [Hd|Hd]; rewrite Hd in Hn; [exact Hn|].
      apply nul_free_app in Hn. tauto. }
    assert (Hlen : (length d <= 255)%nat).
    { pose proof (header_path_length hdr) as Hl.
      destruct Hd as [Hd|Hd]; rewrite Hd in Hl; [exact Hl|].
      rewrite length_app in Hl. lia. }
    assert (Hfirst : fst (resolve_path fd d) = Some (hdr, off, header_path hdr)).
    { rewrite resolve_path_fst. unfold strncpy255.
      rewrite (cstr_id d Hnd), (firstn_all2 d) by exact Hlen.
      rewrite (strip_slash_id d Hnd Hno).
      rewrite (resolve_entries_chain (fd_content fd) hdr off 16 0 d); [reflexivity|].
      cbn [link_chain]. rewrite lookup_find_entry, Hh. unfold find_entry.
      rewrite (find_first _ _ pre post (hdr, off)).
      - rewrite Ht. reflexivity.
      - exact Hpre.
      - cbn [fst]. apply (Hrule hdr d Ht). rewrite (cstr_id d Hnd).
        destruct Hd as [Hd|Hd]; [left; congruence|].
        right. rewrite Hd, without_slash_app. reflexivity. }
    split; [exact Hfirst|].
    rewrite <- (cstr_id d Hnd) at 1. rewrite Hresolve; [exact Hfirst|].
    rewrite (cstr_id d Hnd). exact Hno.
Qed.

(** C2, witness: the directory [dir/] of [dir_archive], queried as [dir]
    and as [dir/], and the directory [d] of [bare_dir_archive], stored
    without the slash. *)
Lemma find_header_trailing_slash_witness :
  (entry_match (mk_header (lit "dir/") 0 DIRTYPE [] []) (lit "dir") = true
   <-> cstr (lit "dir") = header_path (mk_header (lit "dir/") 0 DIRTYPE [] [])
       \/ cstr (lit "dir")
          = without_slash (header_path (mk_header (lit "dir/") 0 DIRTYPE [] [])))
  /\ (fst (find_header (open_archive dir_archive) (lit "dir"))
      = Some (mk_header (lit "dir/") 0 DIRTYPE [] [], 512)
      /\ fst (find_header (open_archive dir_archive) (lit "dir" ++ [SLASH]))
         = Some (mk_header (lit "dir/") 0 DIRTYPE [] [], 512))
  /\ (fst (find_header (open_archive bare_dir_archive) (lit "d"))
      = Some (mk_header (lit "d") 0 DIRTYPE [] [], 512)
      /\ entry_match (mk_header (lit "d") 0 DIRTYPE [] []) (lit "d" ++ [SLASH]) = false
      /\ fst (find_header (open_archive bare_dir_archive) (lit "d" ++ [SLASH]))
         <> Some (mk_header (lit "d") 0 DIRTYPE [] [], 512))
  /\ resolve_path (open_archive dir_archive) (cstr (lit "dir") ++ [SLASH])
     = resolve_path (open_archive dir_archive) (lit "dir")
  /\ (fst (resolve_path (open_archive dir_archive) (lit "dir"))
      = Some (mk_header (lit "dir/") 0 DIRTYPE [] [], 512, lit "dir/")
      /\ fst (resolve_path (open_archive dir_archive) (lit "dir" ++ [SLASH]))
         = Some (mk_header (lit "dir/") 0 DIRTYPE [] [], 512, lit "dir/"))
  /\ (fst (resolve_path (open_archive bare_dir_archive) (lit "d"))
      = Some (mk_header (lit "d") 0 DIRTYPE [] [], 512, lit "d")
      /\ fst (resolve_path (open_archive bare_dir_archive) (lit "d" ++ [SLASH]))
         = Some (mk_header (lit "d") 0 DIRTYPE [] [], 512, lit "d")).
Proof.
  destruct find_header_trailing_slash as [Hrule [Hfind [Hbare [Hresolve Hdir]]]].
  assert (Hno : forall (s : list ascii) (c : ascii),
             c <> SLASH -> forall d', s ++ [c] <> d' ++ [SLASH]).
  { intros s c Hc d' H. apply (f_equal (fun l => List.last l NUL)) in H.
    rewrite !List.last_last in H. exact (Hc H). }
  split; [|split; [|split; [|split; [|split]]]].
  - apply (Hrule (mk_header (lit "dir/") 0 DIRTYPE [] []) (lit "dir")).
    vm_compute. reflexivity.
  - apply (Hfind (open_archive dir_archive) (mk_header (lit "dir/") 0 DIRTYPE [] [])
             512 (lit "dir") [] (skipn 1 (headers dir_archive))).
    + vm_compute. reflexivity.
    + vm_compute. reflexivity.
    + vm_compute. reflexivity.
    + intros e He. destruct He.
  - apply (Hbare (open_archive bare_dir_archive) (mk_header (lit "d") 0 DIRTYPE [] [])
             512 (lit "d") [] (skipn 1 (headers bare_dir_archive))).
    + vm_compute. reflexivity.
    + vm_compute. reflexivity.
    + vm_compute. reflexivity.
    + apply (Hno [] "d"%char). discriminate.
    + intros e He. destruct He.
  - apply (Hresolve (open_archive dir_archive) (lit "dir")).
    apply (Hno (lit "di") "r"%char). discriminate.
  - replace (lit "dir/") with (header_path (mk_header (lit "dir/") 0 DIRTYPE [] []))
      by (vm_compute; reflexivity).
    apply (Hdir (open_archive dir_archive) (mk_header (lit "dir/") 0 DIRTYPE [] [])
             512 (lit "dir") [] (skipn 1 (headers dir_archive))).
    + vm_compute. reflexivity.
    + vm_compute. reflexivity.
    + right. vm_compute. reflexivity.
    + apply (Hno (lit "di") "r"%char). discriminate.
    + intros e He. destruct He.
  - replace (lit "d") with (header_path (mk_header (lit "d") 0 DIRTYPE [] [])) at 3 6
      by (vm_compute; reflexivity).
    apply (Hdir (open_archive bare_dir_archive) (mk_header (lit "d") 0 DIRTYPE [] [])
             512 (lit "d") [] (skipn 1 (headers bare_dir_archive))).
    + vm_compute. reflexivity.
    + vm_compute. reflexivity.
    + left. vm_compute. reflexivity.
    + apply (Hno [] "d"%char). discriminate.
    + intros e He. destruct He.
Defined.

(** C2, counterexample to the claim as stated: in [bare_dir_archive],
    which [check_archive] accepts, the directory entry is stored as [d].
    The query [d/] without its trailing slash equals the path of the entry
    without a trailing slash, and [find_header] does not match it: the
    lookup finds nothing and [is_dir] returns 0, while the query [d] finds
    the directory. *)
Lemma find_header_extra_slash_fails :
  fst (check_archive (open_archive bare_dir_archive)) = 2
  /\ fst (find_header (open_archive bare_dir_archive) (lit "d"))
     = Some (mk_header (lit "d") 0 DIRTYPE [] [], 512)
  /\ hdr_typeflag (mk_header (lit "d") 0 DIRTYPE [] []) = DIRTYPE
  /\ without_slash (lit "d/")
     = without_slash (header_path (mk_header (lit "d") 0 DIRTYPE [] []))
  /\ entry_match (mk_header (lit "d") 0 DIRTYPE [] []) (lit "d/") = false
  /\ fst (find_header (open_archive bare_dir_archive) (lit "d/")) = None
  /\ fst (is_dir (open_archive bare_dir_archive) (lit "d")) = 1
  /\ fst (is_dir (open_archive bare_dir_archive) (lit "d/")) = 0.
Proof.
  vm_compute. repeat split; reflexivity.
Qed.

(** ** Type predicates *)

(** C10: [exists], [is_dir], [is_file] and [is_symlink] look the path up
    once with [find_header] and test the type of the entry it locates; so
    when that entry is a symbolic link, [is_dir] and [is_file] return 0 and
    [is_symlink] returns 1, whatever the link points to. *)
Theorem predicates_do_not_follow_links :
  (forall (fd : tar_fd) (path : list ascii),
      let located := fst (find_header fd path) in
      let test := fun (is_type : ascii -> bool) =>
        match located with
        | Some (hdr, _) => if is_type (hdr_typeflag hdr) then 1 else 0
        | None => 0
        end in
      fst (exists_ fd path) = test (fun _ => true)
      /\ fst (is_dir fd path) = test (fun t => Ascii.eqb t DIRTYPE)
      /\ fst (is_file fd path)
         = test (fun t => Ascii.eqb t REGTYPE || Ascii.eqb t AREGTYPE)
      /\ fst (is_symlink fd path) = test (fun t => Ascii.eqb t SYMTYPE))
  /\ (forall (fd : tar_fd) (path : list ascii) (lnk : tar_header_t) (off : Z),
      fst (find_header fd path) = Some (lnk, off) ->
      hdr_typeflag lnk = SYMTYPE ->
      fst (is_dir fd path) = 0
      /\ fst (is_file fd path) = 0
      /\ fst (is_symlink fd path) = 1
      /\ fst (exists_ fd path) = 1).
Proof.
  split.
  - intros fd path located test. unfold test, located, exists_, is_dir, is_file, is_symlink.
    destruct (find_header fd path) as [[[h o]|] fd1]; cbn [fst]; repeat split; reflexivity.
  - intros fd path lnk off Hf Ht. unfold is_dir, is_file, is_symlink, exists_.
    destruct (find_header fd path) as [[[h o]|] fd1]; cbn [fst] in *; [|discriminate].
    injection Hf as -> ->. rewrite Ht. repeat split; reflexivity.
Qed.

(** C10, witness: in [dir_archive] the link [to_dir] leads to the
    directory [dir/] and the link [to_b] to the file [dir/b]. *)
Lemma predicates_do_not_follow_links_witness :
  (fst (resolve_path (open_archive dir_archive) (lit "to_dir"))
   = Some (mk_header (lit "dir/") 0 DIRTYPE [] [], 512, lit "dir/")
   /\ fst (is_dir (open_archive dir_archive) (lit "to_dir")) = 0
   /\ fst (is_file (open_archive dir_archive) (lit "to_dir")) = 0
   /\ fst (is_symlink (open_archive dir_archive) (lit "to_dir")) = 1
   /\ fst (exists_ (open_archive dir_archive) (lit "to_dir")) = 1)
  /\ (fst (resolve_path (open_archive dir_archive) (lit "to_b"))
      = Some (mk_header (lit "dir/b") 10 REGTYPE [] [], 2048, lit "dir/b")
      /\ fst (is_dir (open_archive dir_archive) (lit "to_b")) = 0
      /\ fst (is_file (open_archive dir_archive) (lit "to_b")) = 0
      /\ fst (is_symlink (open_archive dir_archive) (lit "to_b")) = 1
      /\ fst (exists_ (open_archive dir_archive) (lit "to_b")) = 1).
Proof.
  destruct predicates_do_not_follow_links as [_ Hlink].
  split; (split; [vm_compute; reflexivity|]).
  - apply (Hlink (open_archive dir_archive) (lit "to_dir")
             (mk_header (lit "to_dir") 0 SYMTYPE (lit "dir/") []) 5120).
    + vm_compute. reflexivity.
    + vm_compute. reflexivity.
  - apply (Hlink (open_archive dir_archive) (lit "to_b")
             (mk_header (lit "to_b") 0 SYMTYPE (lit "dir/b") []) 5632).
    + vm_compute. reflexivity.
    + vm_compute. reflexivity.
Defined.

(** ** The checks of [check_archive] *)

Lemma firstn_cstr_terminated (s : list ascii) :
  nul_free s ->
  forall m, (length s < length m)%nat ->
    firstn (S (length s)) (cstr m ++ [NUL]) = s ++ [NUL]
    <-> firstn (S (length s)) m = s ++ [NUL].
Proof.
  induction 1 as [|x s Hx _ IH]; intros [|c m] Hlen; cbn [length] in Hlen; try lia.
  - cbn [cstr]. destruct (Ascii.eqb_spec c NUL) as [->|Hc]; cbn.
    + tauto.
    + split; intros H; injection H as H; contradiction.
  - cbn [cstr]. destruct (Ascii.eqb_spec c NUL) as [->|Hc].
    + split; intros H; cbn in H; injection H as H _; congruence.
    + specialize (IH m ltac:(lia)). cbn [length firstn app] in *.
      split; intros H; injection H as H1 H2; f_equal;
        try exact H1; apply IH; exact H2.
Qed.

Lemma firstn_cstr (s : list ascii) :
  nul_free s ->
  forall m, firstn (length s) (cstr m) = s <-> firstn (length s) m = s.
Proof.
  induction 1 as [|x s Hx _ IH]; intros m; [cbn; tauto|].
  destruct m as [|c m]; [cbn; tauto|].
  cbn [cstr]. destruct (Ascii.eqb_spec c NUL) as [->|Hc].
  - split; intros H; cbn in H; [discriminate|]. injection H as H _. congruence.
  - cbn [length firstn]. specialize (IH m).
    split; intros H; injection H as H1 H2; f_equal; try exact H1; apply IH; exact H2.
Qed.

Lemma bad_magic_iff (hdr : tar_header_t) :
  length hdr = sizeof_header -> bad_magic hdr = false <-> has_magic hdr.
Proof.
  intros Hlen. unfold bad_magic, has_magic. fold (hdr_magic hdr).
  assert (Hm : (5 < length (hdr_magic hdr))%nat).
  { unfold hdr_magic. rewrite length_skipn, Hlen. unfold sizeof_header, off_magic. lia. }
  assert (Hs : nul_free (lit "ustar")) by (repeat constructor; discriminate).
  pose proof (firstn_cstr_terminated (lit "ustar") Hs (hdr_magic hdr) Hm) as Hiff.
  change (S (length (lit "ustar"))) with 6%nat in Hiff.
  rewrite orb_false_iff, !negb_false_iff, Z.eqb_eq, Ascii.eqb_eq.
  rewrite strncmp_eq.
  change (firstn TMAGLEN (cstr TMAGIC ++ [NUL])) with (lit "ustar" ++ [NUL]).
  change TMAGLEN with 6%nat. rewrite Hiff. split; [tauto|].
  intros H. split; [exact H|].
  unfold char_at. rewrite <- (firstn_skipn 6 (hdr_magic hdr)), H. reflexivity.
Qed.

Lemma bad_version_iff (hdr : tar_header_t) :
  bad_version hdr = false <-> has_version hdr.
Proof.
  unfold bad_version, has_version. fold (hdr_version hdr).
  assert (Hs : nul_free (lit "00")) by (repeat constructor; discriminate).
  rewrite negb_false_iff, Z.eqb_eq, strncmp_eq.
  change (firstn TVERSLEN (cstr TVERSION ++ [NUL])) with (lit "00").
  change TVERSLEN with (length (lit "00")).
  rewrite (firstn_terminated (hdr_version hdr) (lit "00") Hs).
  apply firstn_cstr, Hs.
Qed.

Lemma byte_sum_acc (bytes : list ascii) :
  forall acc, 0 <= acc -> acc + 255 * Z.of_nat (length bytes) < 2 ^ 32 ->
    fold_left (fun sum b => to_uint (sum + byte_val b)) bytes acc
    = acc + plain_sum bytes.
Proof.
  induction bytes as [|b bytes IH]; intros acc Hacc Hbound; cbn [fold_left plain_sum fold_right].
  - lia.
  - pose proof (byte_val_range b) as Hb.
    cbn [length] in Hbound. rewrite Nat2Z.inj_succ in Hbound.
    unfold to_uint at 2. rewrite Z.mod_small by lia.
    rewrite IH by lia. fold (plain_sum bytes). lia.
Qed.

Lemma blank_chksum_length (hdr : tar_header_t) :
  length hdr = sizeof_header -> length (blank_chksum hdr) = sizeof_header.
Proof.
  intros Hlen. unfold blank_chksum.
  rewrite !length_app, length_firstn, repeat_length, length_skipn, Hlen.
  unfold sizeof_header, off_chksum. lia.
Qed.

Lemma bad_chksum_iff (hdr : tar_header_t) :
  length hdr = sizeof_header -> bad_chksum hdr = false <-> has_checksum hdr.
Proof.
  intros Hlen. unfold bad_chksum, has_checksum, byte_sum.
  rewrite byte_sum_acc;
    [|lia|rewrite (blank_chksum_length hdr Hlen); unfold sizeof_header; cbn; lia].
  pose proof (chksum_field_range hdr) as Hr.
  unfold to_uint. rewrite Z.mod_small by (change (2 ^ 32) with 4294967296;
                                          change (2 ^ 24) with 16777216 in Hr; lia).
  rewrite negb_false_iff, Z.eqb_eq. cbn. split; intros H; lia.
Qed.

Lemma is_empty_block_nth (hdr : tar_header_t) (i : nat) :
  is_empty_block hdr = true -> nth i hdr NUL = NUL.
Proof.
  unfold is_empty_block. rewrite forallb_forall. intros H.
  destruct (Nat.lt_ge_cases i (length hdr)) as [Hi|Hi].
  - apply Ascii.eqb_eq, H, nth_In, Hi.
  - apply nth_overflow, Hi.
Qed.

Lemma has_magic_not_empty (hdr : tar_header_t) :
  has_magic hdr -> is_empty_block hdr = false.
Proof.
  intros Hm. destruct (is_empty_block hdr) eqn:E; [|reflexivity].
  exfalso. pose proof (is_empty_block_nth hdr off_magic E) as Hn.
  unfold has_magic in Hm.
  assert (Hu : nth 0 (firstn 6 (skipn off_magic hdr)) NUL = "u"%char)
    by (rewrite Hm; reflexivity).
  rewrite nth_firstn in Hu. cbn [Nat.ltb Nat.leb] in Hu.
  rewrite nth_skipn, Nat.add_0_r, Hn in Hu. discriminate.
Qed.

(** ** The headers of a laid-out archive *)

Lemma block_at (pre hdr rest : list ascii) :
  length hdr = sizeof_header ->
  firstn sizeof_header (skipn (length pre) (pre ++ hdr ++ rest)) = hdr.
Proof.
  intros Hlen. rewrite skipn_app, skipn_all, Nat.sub_diag. cbn [skipn app].
  rewrite <- Hlen. apply firstn_app_exact.
Qed.

Lemma well_formed_entry_jump (e : tar_header_t * list ascii) :
  well_formed_entry e -> entry_jump (fst e) = Z.of_nat (length (snd e)).
Proof.
  intros [_ Hspan]. rewrite entry_jump_span. symmetry. exact Hspan.
Qed.

Lemma scan_from_image (es : list (tar_header_t * list ascii)) :
  Forall well_formed_entry es ->
  forall f pre rest, f = pre ++ entries_image es ++ rest ->
    scan_from f (length pre)
    = image_headers es (length pre)
      ++ scan_from f (length pre + length (entries_image es)).
Proof.
  induction 1 as [|[hdr body] es Hwf _ IH]; intros f pre rest Hf.
  - cbn. rewrite Nat.add_0_r. reflexivity.
  - pose proof (well_formed_entry_jump _ Hwf) as Hjump.
    destruct Hwf as [[Hlen [Hmagic _]] _]. cbn [fst snd] in *.
    assert (Hblock : firstn sizeof_header (skipn (length pre) f) = hdr).
    { subst f. cbn [entries_image flat_map fst snd].
      rewrite <- !app_assoc. apply block_at, Hlen. }
    rewrite scan_from_step;
      rewrite Hblock; [|exact Hlen|apply has_magic_not_empty, Hmagic].
    cbn [image_headers]. rewrite <- app_comm_cons. f_equal.
    rewrite Hjump.
    replace (Z.to_nat (Z.of_nat (length pre + sizeof_header) + Z.of_nat (length body)))
      with (length (pre ++ hdr ++ body))
      by (rewrite !length_app, Hlen; lia).
    rewrite (IH f (pre ++ hdr ++ body) rest).
    + f_equal.
      * f_equal. rewrite !length_app, Hlen. lia.
      * f_equal. cbn [entries_image flat_map fst snd].
        fold (entries_image es). rewrite !length_app. lia.
    + subst f. cbn [entries_image flat_map fst snd]. fold (entries_image es).
      rewrite <- !app_assoc. reflexivity.
Qed.

Lemma check_headers_well_formed (es : list (tar_header_t * list ascii)) :
  Forall well_formed_entry es ->
  forall pos rest count,
    check_headers (image_headers es pos ++ rest) count
    = check_headers rest (count + Z.of_nat (length es)).
Proof.
  induction 1 as [|[hdr body] es Hwf _ IH]; intros pos rest count.
  - cbn. f_equal. lia.
  - destruct Hwf as [[Hlen [Hmagic [Hversion Hsum]]] _]. cbn [fst] in *.
    cbn [image_headers app check_headers].
    apply (bad_magic_iff hdr Hlen) in Hmagic. apply bad_version_iff in Hversion.
    apply (bad_chksum_iff hdr Hlen) in Hsum.
    rewrite Hmagic, Hversion, Hsum.
    rewrite IH. f_equal. cbn [length]. lia.
Qed.

Lemma end_block_empty : is_empty_block end_block = true.
Proof. vm_compute. reflexivity. Qed.

Lemma end_block_length : length end_block = sizeof_header.
Proof. apply repeat_length. Qed.

(** The scanned headers of a laid-out archive are its entries, up to the
    block of zeros. *)
Lemma headers_image (es : list (tar_header_t * list ascii)) (tail : list ascii) :
  Forall well_formed_entry es ->
  headers (entries_image es ++ end_block ++ tail) = image_headers es 0.
Proof.
  intros Hwf. unfold headers.
  pose proof (scan_from_image es Hwf (entries_image es ++ end_block ++ tail)
                [] (end_block ++ tail) eq_refl) as Hscan.
  cbn [length Nat.add] in Hscan. rewrite Hscan, scan_from_stop.
  - apply app_nil_r.
  - right. rewrite block_at by apply end_block_length. apply end_block_empty.
Qed.

(** ** Validation *)

(** The layout and the decoding of the fields agree with what tar writes:
    its archive passes [check_archive], and its entries are found, listed
    and read. *)
Lemma gnu_tar_archive_accepted :
  fst (check_archive (open_archive gnu_tar_archive)) = 3
  /\ map (fun e => (header_path (fst e), hdr_typeflag (fst e), entry_size (fst e), snd e))
         (headers gnu_tar_archive)
     = [(lit "d/", DIRTYPE, 0, 512); (lit "d/f", REGTYPE, 5, 1024);
        (lit "l", SYMTYPE, 0, 2048)]
  /\ fst (Tar.list (open_archive gnu_tar_archive) (Some (lit "d")) (repeat [] 2) 2)
     = (1, [lit "d/f"; []], 1%nat)
  /\ fst (read_file (open_archive gnu_tar_archive) (lit "l") 0 (repeat SPACE 8) 8)
     = (0, lit "hello   ", 5).
Proof. vm_compute. repeat split; reflexivity. Qed.

(** Well-formedness of the entries of a concrete list, by evaluation. *)
Ltac check_entry :=
  split; [split; [|split; [|split]]|]; vm_compute; reflexivity.
Ltac check_entries :=
  repeat (apply List.Forall_cons; [check_entry|]); apply List.Forall_nil.

(** C4: an archive made of well-formed entries -- each header with the
    magic "ustar" and a NUL, the version "00" and the byte-sum of the block
    (checksum field taken as eight spaces) in its checksum field, followed
    by its data padded to whole blocks -- then a block of zeros, then
    anything: [check_archive] returns the number of entries before the
    block of zeros. *)
Theorem check_archive_counts_headers
    (fd : tar_fd) (es : list (tar_header_t * list ascii)) (tail : list ascii) :
  fd_content fd = entries_image es ++ end_block ++ tail ->
  Forall well_formed_entry es ->
  fst (check_archive fd) = Z.of_nat (length es).
Proof.
  intros Hf Hwf. rewrite check_archive_fst, Hf, (headers_image es tail Hwf).
  rewrite <- (app_nil_r (image_headers es 0)).
  rewrite (check_headers_well_formed es Hwf). reflexivity.
Qed.

(** C4, witness: the eight entries of [dir_archive]. *)
Lemma check_archive_counts_headers_witness :
  fst (check_archive (open_archive dir_archive)) = 8.
Proof.
  apply (check_archive_counts_headers (open_archive dir_archive) dir_entries end_block).
  - vm_compute. reflexivity.
  - unfold dir_entries. check_entries.
Defined.

(** C3: after well-formed entries, a header (a block that is not all
    zeros) with a wrong magic makes [check_archive] return -1, whatever its
    version and checksum; one with the right magic and a wrong version, -2;
    one wrong in its checksum only, -3.  So a header with a bad magic and a
    bad checksum is reported as -1, not -3. *)
Theorem check_archive_order
    (fd : tar_fd) (es : list (tar_header_t * list ascii))
    (hdr : tar_header_t) (tail : list ascii) :
  fd_content fd = entries_image es ++ hdr ++ tail ->
  Forall well_formed_entry es ->
  length hdr = sizeof_header ->
  is_empty_block hdr = false ->
  (~ has_magic hdr ->
     fst (check_archive fd) = -1 /\ fst (check_archive fd) <> -3)
  /\ (has_magic hdr -> ~ has_version hdr -> fst (check_archive fd) = -2)
  /\ (has_magic hdr -> has_version hdr -> ~ has_checksum hdr ->
      fst (check_archive fd) = -3).
Proof.
  intros Hf Hwf Hlen Hne. rewrite check_archive_fst. unfold headers.
  pose proof (scan_from_image es Hwf (fd_content fd) [] (hdr ++ tail) Hf) as Hscan.
  cbn [length Nat.add] in Hscan. rewrite Hscan.
  assert (Hblock : firstn sizeof_header
                     (skipn (length (entries_image es)) (fd_content fd)) = hdr).
  { rewrite Hf. apply block_at, Hlen. }
  rewrite scan_from_step; rewrite Hblock; [|exact Hlen|exact Hne].
  rewrite (check_headers_well_formed es Hwf). cbn [check_headers].
  pose proof (bad_magic_iff hdr Hlen) as Hm.
  pose proof (bad_version_iff hdr) as Hv.
  pose proof (bad_chksum_iff hdr Hlen) as Hc.
  destruct (bad_magic hdr); destruct (bad_version hdr); destruct (bad_chksum hdr);
    repeat split; intros; try lia; try tauto;
    exfalso; intuition congruence.
Qed.

(** C3, witness: after the entries of [dir_archive], a header with a wrong
    magic and a wrong checksum, one with a wrong version, one with a wrong
    checksum. *)
Lemma check_archive_order_witness :
  (~ has_magic bad_magic_chksum_header /\ ~ has_checksum bad_magic_chksum_header)
  /\ fst (check_archive
            (open_archive (entries_image dir_entries ++ bad_magic_chksum_header ++ end_marker)))
     = -1
  /\ fst (check_archive
            (open_archive (entries_image dir_entries ++ bad_version_header ++ end_marker)))
     = -2
  /\ fst (check_archive
            (open_archive (entries_image dir_entries ++ bad_chksum_header ++ end_marker)))
     = -3.
Proof.
  assert (Hwf : Forall well_formed_entry dir_entries)
    by (unfold dir_entries; check_entries).
  split; [split; intros H; vm_compute in H; discriminate|].
  split; [|split].
  - apply (check_archive_order
             (open_archive (entries_image dir_entries ++ bad_magic_chksum_header ++ end_marker))
             dir_entries bad_magic_chksum_header end_marker
             eq_refl Hwf); [vm_compute; reflexivity|vm_compute; reflexivity|].
    intros H. vm_compute in H. discriminate.
  - apply (check_archive_order
             (open_archive (entries_image dir_entries ++ bad_version_header ++ end_marker))
             dir_entries bad_version_header end_marker
             eq_refl Hwf);
      [vm_compute; reflexivity|vm_compute; reflexivity|vm_compute; reflexivity|].
    intros H. vm_compute in H. discriminate.
  - apply (check_archive_order
             (open_archive (entries_image dir_entries ++ bad_chksum_header ++ end_marker))
             dir_entries bad_chksum_header end_marker
             eq_refl Hwf);
      [vm_compute; reflexivity|vm_compute; reflexivity|vm_compute; reflexivity
      |vm_compute; reflexivity|].
    intros H. vm_compute in H. discriminate.
Defined.

(** ** Reading file content *)

Lemma scan_offsets (f : list ascii) :
  forall fuel p hdr off, In (hdr, off) (scan fuel f p) -> 0 <= off.
Proof.
  induction fuel as [|fuel IH]; intros p hdr off Hin; cbn [scan] in Hin; [contradiction|].
  destruct (negb (length (firstn sizeof_header (skipn p f)) =? sizeof_header)%nat);
    [contradiction|].
  destruct (is_empty_block (firstn sizeof_header (skipn p f))); [contradiction|].
  destruct Hin as [Heq|Hin].
  - injection Heq as _ <-. lia.
  - exact (IH _ _ _ Hin).
Qed.

Lemma find_entry_in (path : list ascii) (hs : list (tar_header_t * Z))
    (hdr : tar_header_t) (off : Z) :
  find_entry path hs = Some (hdr, off) -> In (hdr, off) hs.
Proof.
  unfold find_entry. intros H. apply find_some in H. tauto.
Qed.

Lemma resolve_entries_in (hs : list (tar_header_t * Z)) :
  forall n current hdr off resolved,
    resolve_entries n hs current = Some (hdr, off, resolved) ->
    In (hdr, off) hs /\ resolved = header_path hdr.
Proof.
  induction n as [|n IH]; intros current hdr off resolved H; cbn [resolve_entries] in H;
    [discriminate|].
  destruct (find_entry current hs) as [[h o]|] eqn:Ef; [|discriminate].
  destruct (Ascii.eqb (hdr_typeflag h) SYMTYPE).
  - exact (IH _ _ _ _ H).
  - injection H as <- <- <-. split; [exact (find_entry_in _ _ _ _ Ef)|reflexivity].
Qed.

Lemma resolve_path_run (fd : tar_fd) (path : list ascii) :
  exists fd', resolve_path fd path = (fst (resolve_path fd path), fd')
              /\ fd_content fd' = fd_content fd.
Proof.
  unfold resolve_path.
  destruct (resolve_path_loop_run 16 fd (strip_slash (strncpy255 path))) as [fd' [H Hc]].
  rewrite H. exists fd'. split; [reflexivity|exact Hc].
Qed.

Lemma resolve_path_offset (fd : tar_fd) (path : list ascii)
    (hdr : tar_header_t) (off : Z) (resolved : list ascii) :
  fst (resolve_path fd path) = Some (hdr, off, resolved) -> 0 <= off.
Proof.
  rewrite resolve_path_fst. intros H.
  apply resolve_entries_in in H as [Hin _].
  unfold headers, scan_from in Hin. exact (scan_offsets _ _ _ _ _ Hin).
Qed.

Lemma to_size_t_small (z : Z) : 0 <= z < 2 ^ 63 -> to_size_t z = z.
Proof.
  intros H. unfold to_size_t. apply Z.mod_small.
  assert (2 ^ 63 < 2 ^ 64) by reflexivity. lia.
Qed.

Lemma to_off_t_small (z : Z) : 0 <= z < 2 ^ 63 -> to_off_t z = z.
Proof.
  intros H. unfold to_off_t.
  assert (2 ^ 63 < 2 ^ 64) by reflexivity.
  rewrite Z.mod_small by lia.
  destruct (z <? 2 ^ 63) eqn:E; [reflexivity|apply Z.ltb_ge in E; lia].
Qed.

(** What [read_file] does on a regular file, for an offset within it. *)
Lemma read_file_regular (fd : tar_fd) (path : list ascii) (offset : Z)
    (dest : list ascii) (len : Z)
    (hdr : tar_header_t) (data_off : Z) (resolved : list ascii) :
  fst (resolve_path fd path) = Some (hdr, data_off, resolved) ->
  hdr_typeflag hdr = REGTYPE \/ hdr_typeflag hdr = AREGTYPE ->
  0 <= offset <= entry_size hdr ->
  data_off + entry_size hdr < 2 ^ 63 ->
  let to_read := if len <? entry_size hdr - offset then len else entry_size hdr - offset in
  let data := firstn (Z.to_nat to_read)
                (skipn (Z.to_nat (data_off + offset)) (fd_content fd)) in
  let r := Z.of_nat (length data) in
  fst (read_file fd path offset dest len)
  = (if offset + r <? entry_size hdr then entry_size hdr - offset - r else 0,
     data ++ skipn (length data) dest, r).
Proof.
  intros Hres Hreg Hoff H63 to_read data r.
  pose proof (resolve_path_offset _ _ _ _ _ Hres) as Hdata.
  pose proof (entry_size_range hdr) as Hsize.
  assert (H36 : 2 ^ 36 < 2 ^ 63) by reflexivity.
  destruct (resolve_path_run fd path) as [fd1 [Hrun Hc]].
  unfold read_file. rewrite Hrun, Hres.
  assert (Hflag : negb (Ascii.eqb (hdr_typeflag hdr) REGTYPE
                        || Ascii.eqb (hdr_typeflag hdr) AREGTYPE) = false).
  { destruct Hreg as [-> | ->]; reflexivity. }
  rewrite Hflag. fold (entry_size hdr).
  rewrite (to_size_t_small (entry_size hdr)) by lia.
  destruct (entry_size hdr <? offset) eqn:E; [apply Z.ltb_lt in E; lia|].
  rewrite (to_size_t_small (entry_size hdr - offset)) by lia.
  fold to_read.
  rewrite (to_off_t_small (data_off + offset)) by lia.
  rewrite lseek_set_nonneg by lia.
  destruct (data_off + offset =? -1) eqn:E1; [apply Z.eqb_eq in E1; lia|].
  unfold read. cbn [fd_content fd_pos]. rewrite Hc. fold data. fold r.
  assert (Hr : 0 <= r <= entry_size hdr - offset).
  { unfold r, data. rewrite length_firstn. unfold to_read.
    destruct (len <? entry_size hdr - offset) eqn:El; [apply Z.ltb_lt in El|]; lia. }
  destruct (r <? 0) eqn:E2; [apply Z.ltb_lt in E2; lia|].
  rewrite (to_size_t_small r) by lia.
  rewrite (to_size_t_small (offset + r)) by lia.
  rewrite (to_size_t_small (entry_size hdr - offset - r)) by lia.
  rewrite (to_off_t_small (entry_size hdr - offset - r)) by lia.
  destruct (offset + r <? entry_size hdr); reflexivity.
Qed.

(** C5: for a path that resolves to a regular file whose data lies within
    the archive (so that the read is complete), an offset up to the
    declared size and a capacity [len], [read_file] stores the
    [n = min (size - offset) len] bytes of the file from [offset] on at the
    start of [dest], sets [*len] to [n], and returns 0 when
    [offset + n = size] and the positive number [size - offset - n]
    otherwise.  For a file of size 10 read with capacity 4 at offsets 0, 4
    and 8: 4, 4 and 2 bytes, and the return values 6, 2 and 0. *)
Theorem read_file_chunks :
  (forall (fd : tar_fd) (path : list ascii) (offset : Z) (dest : list ascii) (len : Z)
          (hdr : tar_header_t) (data_off : Z) (resolved : list ascii),
      fst (resolve_path fd path) = Some (hdr, data_off, resolved) ->
      hdr_typeflag hdr = REGTYPE \/ hdr_typeflag hdr = AREGTYPE ->
      0 <= offset <= entry_size hdr ->
      0 <= len ->
      data_off + entry_size hdr <= Z.of_nat (length (fd_content fd)) ->
      Z.of_nat (length (fd_content fd)) < 2 ^ 63 ->
      let n := Z.min (entry_size hdr - offset) len in
      let chunk := firstn (Z.to_nat n)
                     (skipn (Z.to_nat (data_off + offset)) (fd_content fd)) in
      Z.of_nat (length chunk) = n
      /\ fst (read_file fd path offset dest len)
         = (if offset + n =? entry_size hdr then 0 else entry_size hdr - offset - n,
            chunk ++ skipn (Z.to_nat n) dest, n)
      /\ (offset + n <> entry_size hdr -> 0 < entry_size hdr - offset - n))
  /\ (forall (fd : tar_fd) (path : list ascii) (dest : list ascii)
             (hdr : tar_header_t) (data_off : Z) (resolved : list ascii),
      fst (resolve_path fd path) = Some (hdr, data_off, resolved) ->
      hdr_typeflag hdr = REGTYPE \/ hdr_typeflag hdr = AREGTYPE ->
      entry_size hdr = 10 ->
      data_off + entry_size hdr <= Z.of_nat (length (fd_content fd)) ->
      Z.of_nat (length (fd_content fd)) < 2 ^ 63 ->
      let bytes := fun (from : Z) (n : nat) =>
        firstn n (skipn (Z.to_nat (data_off + from)) (fd_content fd)) in
      (length (bytes 0 4%nat) = 4%nat
       /\ fst (read_file fd path 0 dest 4) = (6, bytes 0 4%nat ++ skipn 4 dest, 4))
      /\ (length (bytes 4 4%nat) = 4%nat
          /\ fst (read_file fd path 4 dest 4) = (2, bytes 4 4%nat ++ skipn 4 dest, 4))
      /\ (length (bytes 8 2%nat) = 2%nat
          /\ fst (read_file fd path 8 dest 4) = (0, bytes 8 2%nat ++ skipn 2 dest, 2))).
Proof.
  assert (Hgen : forall fd path offset dest len hdr data_off resolved,
    fst (resolve_path fd path) = Some (hdr, data_off, resolved) ->
    hdr_typeflag hdr = REGTYPE \/ hdr_typeflag hdr = AREGTYPE ->
    0 <= offset <= entry_size hdr ->
    0 <= len ->
    data_off + entry_size hdr <= Z.of_nat (length (fd_content fd)) ->
    Z.of_nat (length (fd_content fd)) < 2 ^ 63 ->
    let n := Z.min (entry_size hdr - offset) len in
    let chunk := firstn (Z.to_nat n)
                   (skipn (Z.to_nat (data_off + offset)) (fd_content fd)) in
    Z.of_nat (length chunk) = n
    /\ fst (read_file fd path offset dest len)
       = (if offset + n =? entry_size hdr then 0 else entry_size hdr - offset - n,
          chunk ++ skipn (Z.to_nat n) dest, n)
    /\ (offset + n <> entry_size hdr -> 0 < entry_size hdr - offset - n)).
  { intros fd path offset dest len hdr data_off resolved Hres Hreg Hoff Hlen Hin H63 n chunk.
    pose proof (resolve_path_offset _ _ _ _ _ Hres) as Hdata.
    assert (Hn : 0 <= n <= entry_size hdr - offset) by (unfold n; lia).
    assert (Hchunk : Z.of_nat (length chunk) = n).
    { unfold chunk. rewrite length_firstn, length_skipn. lia. }
    split; [exact Hchunk|]. split; [|lia].
    rewrite (read_file_regular fd path offset dest len hdr data_off resolved
               Hres Hreg Hoff ltac:(lia)).
    replace (if len <? entry_size hdr - offset then len else entry_size hdr - offset)
      with n by (unfold n; destruct (len <? entry_size hdr - offset) eqn:E;
                 [apply Z.ltb_lt in E|apply Z.ltb_ge in E]; lia).
    fold chunk. rewrite Hchunk.
    replace (length chunk) with (Z.to_nat n) by lia.
    destruct (offset + n <? entry_size hdr) eqn:E1;
      destruct (offset + n =? entry_size hdr) eqn:E2;
      try reflexivity;
      [apply Z.ltb_lt in E1|apply Z.ltb_ge in E1];
      [apply Z.eqb_eq in E2|apply Z.eqb_neq in E2]; lia. }
  split; [exact Hgen|].
  intros fd path dest hdr data_off resolved Hres Hreg Hsize Hin H63 bytes.
  pose proof (Hgen fd path 0 dest 4 hdr data_off resolved Hres Hreg
                ltac:(lia) ltac:(lia) Hin H63) as H0.
  pose proof (Hgen fd path 4 dest 4 hdr data_off resolved Hres Hreg
                ltac:(lia) ltac:(lia) Hin H63) as H4.
  pose proof (Hgen fd path 8 dest 4 hdr data_off resolved Hres Hreg
                ltac:(lia) ltac:(lia) Hin H63) as H8.
  rewrite Hsize in H0, H4, H8. cbv zeta in H0, H4, H8.
  change (Z.min (10 - 0) 4) with 4 in H0. change (Z.min (10 - 4) 4) with 4 in H4.
  change (Z.min (10 - 8) 4) with 2 in H8.
  change (Z.to_nat 4) with 4%nat in H0, H4. change (Z.to_nat 2) with 2%nat in H8.
  destruct H0 as [L0 [R0 _]]. destruct H4 as [L4 [R4 _]]. destruct H8 as [L8 [R8 _]].
  unfold bytes. repeat split; try assumption; lia.
Qed.

(** C5, witness: the ten bytes of [dir/b] in [dir_archive], read four at a
    time, and seven bytes from offset 3 into a larger buffer. *)
Lemma read_file_chunks_witness :
  (fst (read_file (open_archive dir_archive) (lit "dir/b") 0 (repeat SPACE 4) 4)
     = (6, lit "0123", 4)
   /\ fst (read_file (open_archive dir_archive) (lit "dir/b") 4 (repeat SPACE 4) 4)
      = (2, lit "4567", 4)
   /\ fst (read_file (open_archive dir_archive) (lit "dir/b") 8 (repeat SPACE 4) 4)
      = (0, lit "89  ", 2))
  /\ fst (read_file (open_archive dir_archive) (lit "dir/b") 3 (repeat SPACE 8) 8)
     = (0, lit "3456789 ", 7).
Proof.
  destruct read_file_chunks as [Hgen Hten].
  assert (Hres : fst (resolve_path (open_archive dir_archive) (lit "dir/b"))
                 = Some (mk_header (lit "dir/b") 10 REGTYPE [] [], 2048, lit "dir/b"))
    by (vm_compute; reflexivity).
  split.
  - pose proof (Hten (open_archive dir_archive) (lit "dir/b") (repeat SPACE 4)
                  _ _ _ Hres (or_introl eq_refl) eq_refl
                  ltac:(vm_compute; discriminate) ltac:(vm_compute; reflexivity)) as H.
    cbv zeta in H. destruct H as [[_ H0] [[_ H4] [_ H8]]].
    split; [exact H0|split; [exact H4|exact H8]].
  - pose proof (Hgen (open_archive dir_archive) (lit "dir/b") 3 (repeat SPACE 8) 8
                  _ _ _ Hres (or_introl eq_refl)
                  ltac:(vm_compute; split; discriminate) ltac:(lia)
                  ltac:(vm_compute; discriminate) ltac:(vm_compute; reflexivity)) as H.
    cbv zeta in H. destruct H as [_ [H _]]. exact H.
Defined.

(** C6: for a path that resolves to a regular file, an offset beyond the
    declared size makes [read_file] return -2 and leave [dest] and [*len]
    as they are; the offset equal to the size is accepted: nothing is
    stored, [*len] becomes 0 and the result is 0. *)
Theorem read_file_offset_range
    (fd : tar_fd) (path : list ascii) (dest : list ascii) (len : Z)
    (hdr : tar_header_t) (data_off : Z) (resolved : list ascii) :
  fst (resolve_path fd path) = Some (hdr, data_off, resolved) ->
  hdr_typeflag hdr = REGTYPE \/ hdr_typeflag hdr = AREGTYPE ->
  (forall offset, entry_size hdr < offset ->
                  fst (read_file fd path offset dest len) = (-2, dest, len))
  /\ (data_off + entry_size hdr < 2 ^ 63 ->
      fst (read_file fd path (entry_size hdr) dest len) = (0, dest, 0)).
Proof.
  intros Hres Hreg.
  pose proof (entry_size_range hdr) as Hsize.
  assert (H36 : 2 ^ 36 < 2 ^ 63) by reflexivity.
  split.
  - intros offset Hoff.
    destruct (resolve_path_run fd path) as [fd1 [Hrun Hc]].
    unfold read_file. rewrite Hrun, Hres.
    assert (Hflag : negb (Ascii.eqb (hdr_typeflag hdr) REGTYPE
                          || Ascii.eqb (hdr_typeflag hdr) AREGTYPE) = false).
    { destruct Hreg as [-> | ->]; reflexivity. }
    rewrite Hflag. fold (entry_size hdr).
    rewrite (to_size_t_small (entry_size hdr)) by lia.
    destruct (entry_size hdr <? offset) eqn:E; [reflexivity|apply Z.ltb_ge in E; lia].
  - intros H63.
    rewrite (read_file_regular fd path (entry_size hdr) dest len hdr data_off resolved
               Hres Hreg ltac:(lia) H63).
    rewrite Z.sub_diag.
    assert (Hdata : firstn (Z.to_nat (if len <? 0 then len else 0))
                      (skipn (Z.to_nat (data_off + entry_size hdr)) (fd_content fd)) = []).
    { destruct (len <? 0) eqn:E; [apply Z.ltb_lt in E|];
        [replace (Z.to_nat len) with 0%nat by lia|]; reflexivity. }
    rewrite Hdata. cbn [length Z.of_nat app skipn]. rewrite Z.add_0_r, Z.ltb_irrefl.
    reflexivity.
Qed.

(** C6, witness: [dir/b] has ten bytes; offsets 11 and 10. *)
Lemma read_file_offset_range_witness :
  fst (read_file (open_archive dir_archive) (lit "dir/b") 11 (repeat SPACE 4) 4)
  = (-2, repeat SPACE 4, 4)
  /\ fst (read_file (open_archive dir_archive) (lit "dir/b") 10 (repeat SPACE 4) 4)
     = (0, repeat SPACE 4, 0).
Proof.
  destruct (read_file_offset_range (open_archive dir_archive) (lit "dir/b")
              (repeat SPACE 4) 4
              (mk_header (lit "dir/b") 10 REGTYPE [] []) 2048 (lit "dir/b"))
    as [Hbeyond Hend].
  - vm_compute. reflexivity.
  - left. vm_compute. reflexivity.
  - split.
    + apply (Hbeyond 11). vm_compute. reflexivity.
    + apply Hend. vm_compute. reflexivity.
Defined.

(** ** The selection of [list] *)

Lemma strncmp_prefix (name base : list ascii) :
  nul_free name -> nul_free base ->
  strncmp name base (strlen base) = 0 <-> exists rest, name = base ++ rest.
Proof.
  intros Hn Hb. rewrite (strlen_nul_free base Hb), strncmp_eq.
  rewrite (cstr_id base Hb), firstn_app_exact.
  rewrite (firstn_terminated name base Hb), (cstr_id name Hn).
  split.
  - intros H. exists (skipn (length base) name).
    rewrite <- H at 1. symmetry. apply firstn_skipn.
  - intros [rest ->]. apply firstn_app_exact.
Qed.

Lemma strchr_slash (rest : list ascii) :
  nul_free rest ->
  match strchr rest SLASH with
  | None => true
  | Some slash => Ascii.eqb (char_at slash 1) NUL
  end = true
  <-> ~ In SLASH (removelast rest).
Proof.
  induction 1 as [|x r Hx Hr IH]; [cbn; tauto|].
  cbn [strchr]. destruct (Ascii.eqb_spec x SLASH) as [->|Hne].
  - destruct r as [|y r]; [cbn; tauto|].
    inversion Hr; subst. unfold char_at. cbn [nth removelast].
    rewrite Ascii.eqb_eq. split; [contradiction|].
    intros H. exfalso. apply H. left. reflexivity.
  - destruct (Ascii.eqb_spec x NUL); [contradiction|].
    rewrite IH. destruct r as [|y r]; [cbn; tauto|].
    cbn [removelast In]. split; [intros H [E|E]; [congruence|exact (H E)]|tauto].
Qed.

(** The test of [list] is the direct-child relation. *)
Lemma is_child_iff (name base : list ascii) :
  nul_free name -> nul_free base ->
  is_child name base = true <-> direct_child base name.
Proof.
  intros Hn Hb. unfold is_child, direct_child.
  destruct (strncmp name base (strlen base) =? 0) eqn:Epre.
  - apply Z.eqb_eq, (strncmp_prefix name base Hn Hb) in Epre as [rest ->].
    rewrite (strlen_nul_free base Hb), skipn_app, skipn_all, Nat.sub_diag.
    cbn [app skipn andb].
    apply nul_free_app in Hn as [_ Hrest].
    destruct (strcmp (base ++ rest) base =? 0) eqn:Ecmp; cbn [negb].
    + apply Z.eqb_eq, strcmp_eq in Ecmp.
      rewrite (cstr_id base Hb) in Ecmp.
      rewrite cstr_id in Ecmp by (apply nul_free_app; tauto).
      assert (rest = []) as ->.
      { apply (app_inv_head base). rewrite app_nil_r. exact Ecmp. }
      split; [discriminate|].
      intros [rest' [H [Hne _]]]. apply app_inv_head in H. congruence.
    + apply Z.eqb_neq in Ecmp. rewrite (strchr_slash rest Hrest). split.
      * intros H. exists rest. split; [reflexivity|split; [|exact H]].
        intros ->. apply Ecmp. rewrite app_nil_r. apply strcmp_eq. reflexivity.
      * intros [rest' [H [_ Hs]]]. apply app_inv_head in H. subst rest'. exact Hs.
  - cbn [andb]. split; [discriminate|].
    intros [rest [-> _]]. apply Z.eqb_neq in Epre. exfalso. apply Epre.
    apply (strncmp_prefix (base ++ rest) base Hn Hb). exists rest. reflexivity.
Qed.

Lemma children_in (base : list ascii) (hs : list (tar_header_t * Z)) (name : list ascii) :
  nul_free base ->
  In name (children base hs)
  <-> (exists hdr off, In (hdr, off) hs /\ header_path hdr = name)
      /\ direct_child base name.
Proof.
  intros Hb. unfold children. rewrite filter_In, in_map_iff. split.
  - intros [[[hdr off] [Hp Hin]] Hc]. cbn [fst] in Hp. subst name.
    split; [exists hdr, off; split; [exact Hin|reflexivity]|].
    apply is_child_iff; [apply header_path_nul_free|exact Hb|exact Hc].
  - intros [[hdr [off [Hin Hp]]] Hc]. subst name.
    split; [exists (hdr, off); split; [reflexivity|exact Hin]|].
    apply is_child_iff; [apply header_path_nul_free|exact Hb|exact Hc].
Qed.

Lemma dir_prefix_nul_free (base : list ascii) : nul_free base -> nul_free (dir_prefix base).
Proof.
  intros Hb. unfold dir_prefix.
  destruct ((0 <? strlen base)%nat
            && negb (Ascii.eqb (char_at base (strlen base - 1)) SLASH)); [|exact Hb].
  auto with cstr.
Qed.

(** The prefix is empty for an empty path and ends with a slash
    otherwise. *)
Lemma dir_prefix_shape (base : list ascii) :
  nul_free base ->
  (base = [] /\ dir_prefix base = [])
  \/ (exists d, dir_prefix base = d ++ [SLASH] /\ (base = d \/ base = d ++ [SLASH])).
Proof.
  intros Hb. unfold dir_prefix. rewrite (strlen_nul_free base Hb).
  destruct base as [|c base]; [left; split; reflexivity|].
  right. destruct (exists_last (l := c :: base)) as [d [x Hd]]; [discriminate|].
  rewrite Hd, char_at_last.
  assert (E : (0 <? length (d ++ [x]))%nat = true).
  { apply Nat.ltb_lt. rewrite length_app. cbn. lia. }
  rewrite E. cbn [andb].
  destruct (Ascii.eqb_spec x SLASH) as [->|Hx]; cbn [negb].
  - exists d. split; [reflexivity|right; reflexivity].
  - exists (d ++ [x]). split; [reflexivity|left; reflexivity].
Qed.

(** ** The array that [list] fills *)

Lemma write_entries_length (names : list (list ascii)) :
  forall entries count,
    length (write_entries entries count names) = length entries.
Proof.
  induction names as [|name names IH]; intros entries count; cbn [write_entries];
    [reflexivity|].
  rewrite IH. apply length_insert.
Qed.

Lemma write_entries_before (names : list (list ascii)) :
  forall entries count i, (i < count)%nat ->
    write_entries entries count names !! i = entries !! i.
Proof.
  induction names as [|name names IH]; intros entries count i Hi; cbn [write_entries];
    [reflexivity|].
  rewrite IH by lia. apply list_lookup_insert_ne. lia.
Qed.

Lemma write_entries_after (names : list (list ascii)) :
  forall entries count i, (count + length names <= i)%nat ->
    write_entries entries count names !! i = entries !! i.
Proof.
  induction names as [|name names IH]; intros entries count i Hi; cbn [write_entries];
    [reflexivity|].
  cbn [length] in Hi. rewrite IH by lia. apply list_lookup_insert_ne. lia.
Qed.

Lemma write_entries_at (names : list (list ascii)) :
  forall entries count i,
    (count <= i < count + length names)%nat -> (i < length entries)%nat ->
    write_entries entries count names !! i = names !! (i - count)%nat.
Proof.
  induction names as [|name names IH]; intros entries count i Hi Hlen;
    cbn [length] in Hi; [lia|].
  cbn [write_entries].
  destruct (Nat.eq_dec i count) as [->|Hne].
  - rewrite write_entries_before by lia.
    rewrite Nat.sub_diag. cbn. apply list_lookup_insert_eq, Hlen.
  - rewrite IH by (rewrite ?length_insert; lia).
    replace (i - count)%nat with (S (i - S count)) by lia. reflexivity.
Qed.

Lemma collect_children (base : list ascii) (capacity : nat)
    (hs : list (tar_header_t * Z)) :
  forall entries count, (count <= capacity)%nat ->
    collect base capacity hs entries count
    = (write_entries entries count (firstn (capacity - count) (children base hs)),
       (count + Nat.min (capacity - count) (length (children base hs)))%nat).
Proof.
  unfold children.
  induction hs as [|[hdr off] hs IH]; intros entries count Hc; cbn [collect map List.filter fst].
  - rewrite firstn_nil. cbn. f_equal. lia.
  - destruct (is_child (header_path hdr) base).
    + destruct (count <? capacity)%nat eqn:E.
      * apply Nat.ltb_lt in E. rewrite IH by lia.
        replace (capacity - count)%nat with (S (capacity - S count)) by lia.
        cbn [firstn write_entries length]. f_equal. lia.
      * apply Nat.ltb_ge in E. rewrite IH by lia.
        replace (capacity - count)%nat with 0%nat by lia. reflexivity.
    + apply IH, Hc.
Qed.

Lemma lists_under_prefix (fd : tar_fd) (path : option (list ascii)) (base : list ascii) :
  lists_under fd path base ->
  list_prefix (headers (fd_content fd)) path = Some base /\ nul_free base.
Proof.
  intros [|p Hp|p hdr off resolved Hp Hres Ht _]; unfold list_prefix.
  - split; [reflexivity|constructor].
  - rewrite Hp. split; [reflexivity|constructor].
  - apply Ascii.eqb_neq in Hp. rewrite Hp. cbn [negb].
    pose proof Hres as Hres'. rewrite resolve_path_fst in Hres'. rewrite Hres'.
    rewrite Ht, Ascii.eqb_refl. cbn [negb]. split; [reflexivity|].
    apply resolve_entries_in in Hres' as [_ ->].
    apply dir_prefix_nul_free, header_path_nul_free.
Qed.

(** The result of [list] for a prefix [base]. *)
Lemma list_under (fd : tar_fd) (path : option (list ascii)) (base : list ascii)
    (entries : list (list ascii)) (capacity : nat) :
  lists_under fd path base ->
  fst (Tar.list fd path entries capacity)
  = (1, write_entries entries 0 (firstn capacity (children base (headers (fd_content fd)))),
     Nat.min capacity (length (children base (headers (fd_content fd))))).
Proof.
  intros Hu. apply lists_under_prefix in Hu as [Hp _].
  rewrite list_fst, Hp, collect_children by lia.
  cbn [fst snd]. rewrite Nat.sub_0_r. reflexivity.
Qed.

Lemma write_entries_firstn (names : list (list ascii)) :
  forall entries count, (count + length names <= length entries)%nat ->
    firstn (count + length names) (write_entries entries count names)
    = firstn count entries ++ names.
Proof.
  induction names as [|name names IH]; intros entries count Hlen; cbn [write_entries length] in *.
  - rewrite Nat.add_0_r, app_nil_r. reflexivity.
  - replace (count + S (length names))%nat with (S count + length names)%nat by lia.
    rewrite IH by (rewrite length_insert; lia).
    rewrite (take_S_r _ count name) by (apply list_lookup_insert_eq; lia).
    rewrite take_insert_ge by lia. rewrite <- app_assoc. reflexivity.
Qed.

(** ** Listing *)

(** C7: when [list] filters by the prefix [base], the entry paths it
    selects are those of the scanned headers that start with [base], are
    longer than [base] and whose remainder has no slash other than a last
    one; they are stored in archive order, as many as the capacity allows.
    For the directory of the documentation -- [a], [b], [c/] with [c/d],
    and [e/], under [dir/] or at the root -- the listing is [a], [b],
    [c/], [e/], without [c/d]. *)
Theorem list_direct_children :
  (forall (fd : tar_fd) (path : option (list ascii)) (base : list ascii)
          (entries : list (list ascii)) (capacity : nat),
      lists_under fd path base ->
      let selected := children base (headers (fd_content fd)) in
      (forall name,
          In name selected
          <-> (exists hdr off, In (hdr, off) (headers (fd_content fd))
                               /\ header_path hdr = name)
              /\ direct_child base name)
      /\ fst (Tar.list fd path entries capacity)
         = (1, write_entries entries 0 (firstn capacity selected),
            Nat.min capacity (length selected))
      /\ ((length selected <= capacity)%nat ->
          (length selected <= length entries)%nat ->
          firstn (length selected) (snd (fst (fst (Tar.list fd path entries capacity))))
          = selected))
  /\ fst (Tar.list (open_archive dir_archive) (Some (lit "dir/")) (repeat [] 4) 4)
     = (1, [lit "dir/a"; lit "dir/b"; lit "dir/c/"; lit "dir/e/"], 4%nat)
  /\ fst (Tar.list (open_archive root_archive) None (repeat [] 6) 6)
     = (1, [lit "a"; lit "b"; lit "c/"; lit "e/"; []; []], 4%nat).
Proof.
  split; [|split; vm_compute; reflexivity].
  intros fd path base entries capacity Hu selected.
  pose proof (list_under fd path base entries capacity Hu) as Hlist.
  destruct (lists_under_prefix fd path base Hu) as [_ Hb].
  fold selected in Hlist.
  split; [|split].
  - intros name. apply children_in, Hb.
  - exact Hlist.
  - intros Hcap Hlen. rewrite Hlist. cbn [fst snd].
    rewrite (firstn_all2 selected) by exact Hcap.
    exact (write_entries_firstn selected entries 0 Hlen).
Qed.

(** C7, witness: the directory [dir/] of [dir_archive], and the root of
    [root_archive]. *)
Lemma list_direct_children_witness :
  (fst (Tar.list (open_archive dir_archive) (Some (lit "dir/")) (repeat [] 5) 5)
   = (1, write_entries (repeat [] 5) 0
           (firstn 5 (children (lit "dir/") (headers dir_archive))),
      Nat.min 5 (length (children (lit "dir/") (headers dir_archive))))
   /\ children (lit "dir/") (headers dir_archive)
      = [lit "dir/a"; lit "dir/b"; lit "dir/c/"; lit "dir/e/"])
  /\ (fst (Tar.list (open_archive root_archive) None (repeat [] 5) 5)
      = (1, write_entries (repeat [] 5) 0
              (firstn 5 (children [] (headers root_archive))),
         Nat.min 5 (length (children [] (headers root_archive))))
      /\ children [] (headers root_archive) = [lit "a"; lit "b"; lit "c/"; lit "e/"]).
Proof.
  destruct list_direct_children as [Hgen _].
  split; (split; [|vm_compute; reflexivity]).
  - assert (Hu : lists_under (open_archive dir_archive) (Some (lit "dir/"))
                   (dir_prefix (lit "dir/"))).
    { apply (lists_directory _ (lit "dir/") (mk_header (lit "dir/") 0 DIRTYPE [] []) 512).
      - vm_compute. discriminate.
      - vm_compute. reflexivity.
      - vm_compute. reflexivity.
      - vm_compute. lia. }
    destruct (Hgen _ _ _ (repeat [] 5) 5%nat Hu) as [_ [H _]]. exact H.
  - destruct (Hgen _ _ _ (repeat [] 5) 5%nat (lists_root_null (open_archive root_archive)))
      as [_ [H _]].
    exact H.
Defined.

(** C8: when [list] filters by the prefix [base], the count it reports is
    the smaller of the number of qualifying entries and the capacity; the
    array keeps its length, holds the first [count] qualifying paths at
    its start and is unchanged from index [count] on, so nothing is stored
    at or beyond index [capacity].  When [list] returns 0, the array is
    unchanged and the count is 0. *)
Theorem list_respects_capacity :
  (forall (fd : tar_fd) (path : option (list ascii)) (base : list ascii)
          (entries : list (list ascii)) (capacity : nat),
      lists_under fd path base ->
      let qualifying := children base (headers (fd_content fd)) in
      let result := fst (Tar.list fd path entries capacity) in
      let written := snd (fst result) in
      let count := snd result in
      fst (fst result) = 1
      /\ count = Nat.min (length qualifying) capacity
      /\ (count <= capacity)%nat
      /\ length written = length entries
      /\ (forall i, (count <= i)%nat -> written !! i = entries !! i)
      /\ (forall i, (i < count)%nat -> (i < length entries)%nat ->
                    written !! i = qualifying !! i))
  /\ (forall (fd : tar_fd) (path : option (list ascii))
             (entries : list (list ascii)) (capacity : nat),
      fst (fst (fst (Tar.list fd path entries capacity))) = 0 ->
      fst (Tar.list fd path entries capacity) = (0, entries, 0%nat)).
Proof.
  split.
  - intros fd path base entries capacity Hu qualifying result written count.
    pose proof (list_under fd path base entries capacity Hu) as Hlist.
    fold qualifying in Hlist.
    unfold count, written, result. rewrite Hlist. cbn [fst snd].
    assert (Hfirst : length (firstn capacity qualifying)
                     = Nat.min capacity (length qualifying)) by apply length_firstn.
    split; [reflexivity|]. split; [lia|]. split; [lia|].
    split; [apply write_entries_length|]. split.
    + intros i Hi. apply write_entries_after. lia.
    + intros i Hi Hlen. rewrite write_entries_at by lia.
      rewrite Nat.sub_0_r, lookup_take.
      destruct (decide (i < capacity)%nat); [reflexivity|lia].
  - intros fd path entries capacity. rewrite list_fst.
    destruct (list_prefix (headers (fd_content fd)) path); cbn [fst];
      [discriminate|reflexivity].
Qed.

(** C8, witness: the four children of [dir/] in [dir_archive] listed into
    an array of six buffers announced as three; and a path that is not in
    the archive. *)
Lemma list_respects_capacity_witness :
  fst (Tar.list (open_archive dir_archive) (Some (lit "dir/"))
         (repeat (lit "unused") 6) 3)
  = (1, [lit "dir/a"; lit "dir/b"; lit "dir/c/";
         lit "unused"; lit "unused"; lit "unused"], 3%nat)
  /\ fst (Tar.list (open_archive dir_archive) (Some (lit "missing"))
             (repeat (lit "unused") 6) 3)
     = (0, repeat (lit "unused") 6, 0%nat)
  /\ snd (fst (Tar.list (open_archive dir_archive) (Some (lit "dir/"))
                 (repeat (lit "unused") 6) 3))
     = Nat.min (length (children (lit "dir/") (headers dir_archive))) 3.
Proof.
  destruct list_respects_capacity as [Hfull Hnone].
  split; [vm_compute; reflexivity|].
  split; [apply Hnone; vm_compute; reflexivity|].
  assert (Hu : lists_under (open_archive dir_archive) (Some (lit "dir/"))
                 (dir_prefix (lit "dir/"))).
  { apply (lists_directory _ (lit "dir/") (mk_header (lit "dir/") 0 DIRTYPE [] []) 512).
    - vm_compute. discriminate.
    - vm_compute. reflexivity.
    - vm_compute. reflexivity.
    - vm_compute. lia. }
  destruct (Hfull _ _ _ (repeat (lit "unused") 6) 3%nat Hu) as [_ [H _]].
  exact H.
Defined.

(** C9 (as amended): for a non-empty path, [list] resolves the path with
    [resolve_path] -- two paths that resolve alike, such as a link to a
    directory and the directory, are listed alike -- and returns 0, with
    nothing stored and a count of 0, when the resolution fails or its
    entry is not a directory.  For a directory it filters the archive by
    the canonical path, to which a slash is appended when it is not empty
    and has none; an empty canonical path stays the empty prefix.  (The
    canonical path with its slash is taken to fit the buffer [base].) *)
Theorem list_resolves_directory
    (fd : tar_fd) (p : list ascii) (entries : list (list ascii)) (capacity : nat) :
  char_at p 0 <> NUL ->
  (fst (resolve_path fd p) = None ->
     fst (Tar.list fd (Some p) entries capacity) = (0, entries, 0%nat))
  /\ (forall hdr off resolved,
        fst (resolve_path fd p) = Some (hdr, off, resolved) ->
        hdr_typeflag hdr <> DIRTYPE ->
        fst (Tar.list fd (Some p) entries capacity) = (0, entries, 0%nat))
  /\ (forall hdr off resolved,
        fst (resolve_path fd p) = Some (hdr, off, resolved) ->
        hdr_typeflag hdr = DIRTYPE ->
        (length (dir_prefix resolved) <= 255)%nat ->
        let prefix := dir_prefix resolved in
        let selected := children prefix (headers (fd_content fd)) in
        fst (Tar.list fd (Some p) entries capacity)
        = (1, write_entries entries 0 (firstn capacity selected),
           Nat.min capacity (length selected))
        /\ (resolved <> [] ->
            exists d, prefix = d ++ [SLASH] /\ (resolved = d \/ resolved = d ++ [SLASH]))
        /\ (resolved = [] -> prefix = []))
  /\ (forall q,
        char_at q 0 <> NUL ->
        fst (resolve_path fd q) = fst (resolve_path fd p) ->
        fst (Tar.list fd (Some q) entries capacity)
        = fst (Tar.list fd (Some p) entries capacity)).
Proof.
  intros Hp. pose proof Hp as Hp'. apply Ascii.eqb_neq in Hp'.
  split; [|split; [|split]].
  - intros Hres. rewrite list_fst. unfold list_prefix.
    rewrite Hp'. cbn [negb]. rewrite <- resolve_path_fst, Hres. reflexivity.
  - intros hdr off resolved Hres Ht. rewrite list_fst. unfold list_prefix.
    rewrite Hp'. cbn [negb]. rewrite <- resolve_path_fst, Hres.
    apply Ascii.eqb_neq in Ht. rewrite Ht. reflexivity.
  - intros hdr off resolved Hres Ht Hfit prefix selected.
    split.
    + apply list_under. exact (lists_directory fd p hdr off resolved Hp Hres Ht Hfit).
    + assert (Hn : nul_free resolved).
      { rewrite resolve_path_fst in Hres.
        apply resolve_entries_in in Hres as [_ ->]. apply header_path_nul_free. }
      destruct (dir_prefix_shape resolved Hn) as [[Hr Hd]|[d [Hd Hr]]].
      * split; [congruence|intros _; exact Hd].
      * split; [intros _; exists d; split; [exact Hd|exact Hr]|].
        intros Hnil. subst resolved.
        destruct Hr as [Hr|Hr]; [subst d; reflexivity|].
        destruct d; discriminate.
  - intros q Hq Heq. apply Ascii.eqb_neq in Hq.
    rewrite !list_fst. unfold list_prefix. rewrite Hp', Hq. cbn [negb].
    rewrite <- !resolve_path_fst, Heq. reflexivity.
Qed.

(** C9, witness: in [dir_archive], a missing path, the file [dir/b], the
    directory [dir] and the link [to_dir] that points to it. *)
Lemma list_resolves_directory_witness :
  fst (Tar.list (open_archive dir_archive) (Some (lit "missing")) (repeat [] 4) 4)
  = (0, repeat [] 4, 0%nat)
  /\ fst (Tar.list (open_archive dir_archive) (Some (lit "dir/b")) (repeat [] 4) 4)
     = (0, repeat [] 4, 0%nat)
  /\ fst (Tar.list (open_archive dir_archive) (Some (lit "dir")) (repeat [] 4) 4)
     = (1, write_entries (repeat [] 4) 0
             (firstn 4 (children (dir_prefix (lit "dir/")) (headers dir_archive))),
        Nat.min 4 (length (children (dir_prefix (lit "dir/")) (headers dir_archive))))
  /\ fst (Tar.list (open_archive dir_archive) (Some (lit "to_dir")) (repeat [] 4) 4)
     = fst (Tar.list (open_archive dir_archive) (Some (lit "dir")) (repeat [] 4) 4)
  /\ fst (Tar.list (open_archive dir_archive) (Some (lit "to_dir")) (repeat [] 4) 4)
     = (1, [lit "dir/a"; lit "dir/b"; lit "dir/c/"; lit "dir/e/"], 4%nat).
Proof.
  split; [|split; [|split; [|split]]].
  - destruct (list_resolves_directory (open_archive dir_archive) (lit "missing")
                (repeat [] 4) 4) as [H _].
    + vm_compute. discriminate.
    + apply H. vm_compute. reflexivity.
  - destruct (list_resolves_directory (open_archive dir_archive) (lit "dir/b")
                (repeat [] 4) 4) as [_ [H _]].
    + vm_compute. discriminate.
    + apply (H (mk_header (lit "dir/b") 10 REGTYPE [] []) 2048 (lit "dir/b")).
      * vm_compute. reflexivity.
      * vm_compute. discriminate.
  - destruct (list_resolves_directory (open_archive dir_archive) (lit "dir")
                (repeat [] 4) 4) as [_ [_ [H _]]].
    + vm_compute. discriminate.
    + destruct (H (mk_header (lit "dir/") 0 DIRTYPE [] []) 512 (lit "dir/")) as [H' _].
      * vm_compute. reflexivity.
      * vm_compute. reflexivity.
      * vm_compute. lia.
      * exact H'.
  - destruct (list_resolves_directory (open_archive dir_archive) (lit "dir")
                (repeat [] 4) 4) as [_ [_ [_ H]]].
    + vm_compute. discriminate.
    + apply (H (lit "to_dir")).
      * vm_compute. discriminate.
      * vm_compute. reflexivity.
  - vm_compute. reflexivity.
Defined.

(** C9, counterexample to the claim as stated: in [noname_archive] the
    path [/] resolves to a directory whose canonical path is empty; [list]
    then filters by the empty prefix, which does not end with a slash, and
    lists the top-level entry [a], which no prefix that ends with a slash
    starts. *)
Lemma list_empty_canonical_path :
  fst (resolve_path (open_archive noname_archive) (lit "/"))
  = Some (mk_header [] 0 DIRTYPE [] [], 512, [])
  /\ hdr_typeflag (mk_header [] 0 DIRTYPE [] []) = DIRTYPE
  /\ fst (check_archive (open_archive noname_archive)) = 4
  /\ dir_prefix [] = []
  /\ fst (Tar.list (open_archive noname_archive) (Some (lit "/")) (repeat [] 4) 4)
     = (1, [lit "a"; lit "c/"; []; []], 2%nat)
  /\ ~ (exists d rest, lit "a" = (d ++ [SLASH]) ++ rest).
Proof.
  split; [vm_compute; reflexivity|].
  split; [vm_compute; reflexivity|].
  split; [vm_compute; reflexivity|].
  split; [reflexivity|].
  split; [vm_compute; reflexivity|].
  intros [d [rest H]].
  destruct d as [|c d]; cbn in H; [discriminate|].
  injection H as _ H. destruct d; discriminate.
Qed.

(** * Further properties of the code *)

(** ** The traversal *)

Lemma entry_span_mod (hdr : tar_header_t) : entry_span hdr mod 512 = 0.
Proof. unfold entry_span. apply Z.mod_mul. lia. Qed.

(** Every scanned header is a whole block that is not all zeros, read at a
    multiple of 512; its data offset is the end of that block. *)
Lemma scan_blocks (f : list ascii) :
  forall fuel p hdr off,
    Z.of_nat p mod 512 = 0 ->
    In (hdr, off) (scan fuel f p) ->
    length hdr = sizeof_header
    /\ is_empty_block hdr = false
    /\ firstn sizeof_header (skipn (Z.to_nat (off - 512)) f) = hdr
    /\ Z.of_nat p + 512 <= off <= Z.of_nat (length f)
    /\ off mod 512 = 0.
Proof.
  induction fuel as [|fuel IH]; intros p hdr off Hp Hin; cbn [scan] in Hin; [contradiction|].
  set (blk := firstn sizeof_header (skipn p f)) in *.
  destruct (negb (length blk =? sizeof_header)%nat) eqn:El; [contradiction|].
  destruct (is_empty_block blk) eqn:Ee; [contradiction|].
  apply negb_false_iff, Nat.eqb_eq in El.
  pose proof (read_block_full f p El) as Hfull.
  pose proof (entry_jump_nonneg blk) as Hj.
  destruct Hin as [Heq|Hin].
  - injection Heq as <- <-.
    replace (Z.to_nat (Z.of_nat (p + sizeof_header) - 512)) with p by block_lia.
    repeat split; try assumption; try reflexivity; try block_lia.
    rewrite Nat2Z.inj_add. change (Z.of_nat sizeof_header) with (1 * 512).
    rewrite Z.mod_add by lia. exact Hp.
  - apply IH in Hin.
    + destruct Hin as [H1 [H2 [H3 [H4 H5]]]]. repeat split; try assumption; block_lia.
    + rewrite Z2Nat.id by block_lia.
      rewrite entry_jump_span. unfold entry_span.
      rewrite Nat2Z.inj_add. change (Z.of_nat sizeof_header) with (1 * 512).
      rewrite !Z.mod_add by lia. exact Hp.
Qed.

Lemma headers_blocks (f : list ascii) (hdr : tar_header_t) (off : Z) :
  In (hdr, off) (headers f) ->
  length hdr = sizeof_header
  /\ is_empty_block hdr = false
  /\ firstn sizeof_header (skipn (Z.to_nat (off - 512)) f) = hdr
  /\ 512 <= off <= Z.of_nat (length f)
  /\ off mod 512 = 0.
Proof.
  intros Hin. unfold headers, scan_from in Hin.
  apply scan_blocks in Hin; [|reflexivity].
  cbn [Z.of_nat Z.add] in Hin. exact Hin.
Qed.

(** A scan cannot visit more headers than the file has blocks. *)
Lemma scan_count (f : list ascii) :
  forall fuel p, (512 * length (scan fuel f p) <= length f - p)%nat.
Proof.
  induction fuel as [|fuel IH]; intros p; cbn [scan]; [cbn; lia|].
  set (blk := firstn sizeof_header (skipn p f)).
  destruct (negb (length blk =? sizeof_header)%nat) eqn:El; [cbn; lia|].
  destruct (is_empty_block blk); [cbn; lia|].
  apply negb_false_iff, Nat.eqb_eq in El.
  pose proof (read_block_full f p El) as Hfull.
  pose proof (entry_jump_nonneg blk) as Hj.
  specialize (IH (Z.to_nat (Z.of_nat (p + sizeof_header) + entry_jump blk))).
  cbn [length]. block_lia.
Qed.

Lemma find_split (A : Type) (f : A -> bool) (l : list A) (x : A) :
  List.find f l = Some x ->
  exists pre post, l = pre ++ x :: post
                   /\ f x = true
                   /\ forall e, In e pre -> f e = false.
Proof.
  induction l as [|a l IH]; cbn; [discriminate|].
  destruct (f a) eqn:Ea.
  - intros H. injection H as <-. exists [], l. repeat split; [exact Ea|intros e []].
  - intros H. destruct (IH H) as [pre [post [-> [Hx Hpre]]]].
    exists (a :: pre), post. repeat split; [exact Hx|].
    intros e [<-|He]; [exact Ea|exact (Hpre e He)].
Qed.

(** X1: [find_header] returns the first header, in the order of the scan,
    that matches the query -- of two entries with the same path the earlier
    one is found -- and nothing when no scanned header matches.  The header
    it returns is a whole block that is not all zeros, and the data offset
    is the end of that block: a multiple of 512 within the file. *)
Theorem find_header_first_match (fd : tar_fd) (path : list ascii) :
  match fst (find_header fd path) with
  | Some (hdr, off) =>
      (exists pre post,
          headers (fd_content fd) = pre ++ (hdr, off) :: post
          /\ forall e, In e pre -> entry_match (fst e) path = false)
      /\ entry_match hdr path = true
      /\ length hdr = sizeof_header
      /\ is_empty_block hdr = false
      /\ firstn sizeof_header (skipn (Z.to_nat (off - 512)) (fd_content fd)) = hdr
      /\ 512 <= off <= Z.of_nat (length (fd_content fd))
      /\ off mod 512 = 0
  | None =>
      forall e, In e (headers (fd_content fd)) -> entry_match (fst e) path = false
  end.
Proof.
  rewrite find_header_fst. unfold find_entry.
  destruct (List.find (fun e => entry_match (fst e) path) (headers (fd_content fd)))
    as [[hdr off]|] eqn:Ef.
  - destruct (find_split _ _ _ _ Ef) as [pre [post [Hh [Hm Hpre]]]].
    assert (Hin : In (hdr, off) (headers (fd_content fd))).
    { rewrite Hh. apply in_or_app. right. left. reflexivity. }
    destruct (headers_blocks _ _ _ Hin) as [H1 [H2 [H3 [H4 H5]]]].
    split; [exists pre, post; split; assumption|].
    repeat split; try assumption; lia.
  - intros e He. exact (find_none _ _ Ef e He).
Qed.

(** Of two files named [a], the first one is found and read. *)
Example twice_archive_first :
  fst (find_header (open_archive twice_archive) (lit "a"))
  = Some (mk_header (lit "a") 5 REGTYPE [] [], 512)
  /\ fst (read_file (open_archive twice_archive) (lit "a") 0 (repeat SPACE 6) 6)
     = (0, lit "first ", 5).
Proof. split; vm_compute; reflexivity. Qed.

Lemma scan_head (f : list ascii) (fuel p : nat)
    (h : tar_header_t) (o : Z) (rest : list (tar_header_t * Z)) :
  scan fuel f p = (h, o) :: rest ->
  o = Z.of_nat (p + sizeof_header)
  /\ h = firstn sizeof_header (skipn p f)
  /\ exists fuel', rest = scan fuel' f (Z.to_nat (o + entry_jump h)).
Proof.
  destruct fuel as [|fuel]; cbn [scan]; [discriminate|].
  destruct (negb (length (firstn sizeof_header (skipn p f)) =? sizeof_header)%nat);
    [discriminate|].
  destruct (is_empty_block (firstn sizeof_header (skipn p f))); [discriminate|].
  intros H. injection H as <- <- <-.
  repeat split. exists fuel. reflexivity.
Qed.

(** The header after an entry is read where the entry's data, in whole
    blocks, ends. *)
Lemma scan_consecutive (f : list ascii) :
  forall pre fuel p h1 o1 h2 o2 post,
    scan fuel f p = pre ++ (h1, o1) :: (h2, o2) :: post ->
    o2 = o1 + entry_jump h1 + 512.
Proof.
  induction pre as [|[h0 o0] pre IH]; intros fuel p h1 o1 h2 o2 post H; cbn [app] in H.
  - apply scan_head in H as [Ho [_ [fuel' Hrest]]].
    symmetry in Hrest. apply scan_head in Hrest as [Ho2 _].
    pose proof (entry_jump_nonneg h1) as Hj.
    subst o1 o2. block_lia.
  - apply scan_head in H as [_ [_ [fuel' Hrest]]].
    symmetry in Hrest. exact (IH _ _ _ _ _ _ _ Hrest).
Qed.

Lemma scan_from_nil (f : list ascii) (p : nat) :
  scan_from f p = [] ->
  length (firstn sizeof_header (skipn p f)) <> sizeof_header
  \/ is_empty_block (firstn sizeof_header (skipn p f)) = true.
Proof.
  intros H.
  destruct (Nat.eq_dec (length (firstn sizeof_header (skipn p f))) sizeof_header)
    as [Hl|Hl]; [|left; exact Hl].
  destruct (is_empty_block (firstn sizeof_header (skipn p f))) eqn:He;
    [right; reflexivity|].
  rewrite (scan_from_step f p Hl He) in H. discriminate.
Qed.

(** The scan ends where a block is short or all zeros, and nowhere else. *)
Lemma scan_from_last (f : list ascii) :
  forall pre p h o,
    scan_from f p = pre ++ [(h, o)] ->
    let next := Z.to_nat (o + entry_jump h) in
    length (firstn sizeof_header (skipn next f)) <> sizeof_header
    \/ is_empty_block (firstn sizeof_header (skipn next f)) = true.
Proof.
  induction pre as [|[h0 o0] pre IH]; intros p h o H next; subst next.
  - destruct (Nat.eq_dec (length (firstn sizeof_header (skipn p f))) sizeof_header)
      as [Hl|Hl]; [|rewrite scan_from_stop in H by (left; exact Hl); discriminate].
    destruct (is_empty_block (firstn sizeof_header (skipn p f))) eqn:He;
      [rewrite scan_from_stop in H by (right; exact He); discriminate|].
    rewrite (scan_from_step f p Hl He) in H. cbn [app] in H.
    injection H as <- <- Hrest. apply scan_from_nil, Hrest.
  - destruct (Nat.eq_dec (length (firstn sizeof_header (skipn p f))) sizeof_header)
      as [Hl|Hl]; [|rewrite scan_from_stop in H by (left; exact Hl); discriminate].
    destruct (is_empty_block (firstn sizeof_header (skipn p f))) eqn:He;
      [rewrite scan_from_stop in H by (right; exact He); discriminate|].
    rewrite (scan_from_step f p Hl He) in H. cbn [app] in H.
    injection H as _ _ Hrest. exact (IH _ _ _ Hrest).
Qed.

(** X2: [find_header], [check_archive] and [list] walk the archive in the
    same way, and each is a fold over the headers [hs] that walk visits:
    the first match, the validation, the collection of children.  The walk
    starts at offset 0; every header it visits is a whole block of the
    file, not all zeros; the next header is read where the data of the
    entry ends, its size rounded up to whole blocks; the walk ends at the
    first block that is short or all zeros, and nowhere else; it visits no
    more headers than the file has blocks. *)
Theorem operations_scan_headers (fd : tar_fd) :
  let f := fd_content fd in
  let hs := headers f in
  let block := fun (pos : Z) => firstn sizeof_header (skipn (Z.to_nat pos) f) in
  let stop := fun (pos : Z) =>
    length (block pos) <> sizeof_header \/ is_empty_block (block pos) = true in
  ((forall path, fst (find_header fd path) = find_entry path hs)
   /\ fst (check_archive fd) = check_headers hs 0
   /\ (forall path entries capacity,
          fst (Tar.list fd path entries capacity)
          = match list_prefix hs path with
            | None => (0, entries, 0%nat)
            | Some base =>
                (1, fst (collect base capacity hs entries 0),
                    snd (collect base capacity hs entries 0))
            end))
  /\ (forall h o rest, hs = (h, o) :: rest -> o = 512)
  /\ (forall pre h1 o1 h2 o2 post,
         hs = pre ++ (h1, o1) :: (h2, o2) :: post ->
         o2 = o1 + entry_jump h1 + 512)
  /\ (forall h o,
         In (h, o) hs ->
         h = block (o - 512)
         /\ length h = sizeof_header
         /\ is_empty_block h = false
         /\ o <= Z.of_nat (length f))
  /\ (hs = [] -> stop 0)
  /\ (forall pre h o, hs = pre ++ [(h, o)] -> stop (o + entry_jump h))
  /\ (512 * length hs <= length f)%nat.
Proof.
  intros f hs block stop. subst f hs block stop. cbv beta.
  split; [split; [|split]|split; [|split; [|split; [|split; [|split]]]]].
  - intros path. apply find_header_fst.
  - apply check_archive_fst.
  - intros path entries capacity. apply list_fst.
  - intros h o rest H. unfold headers, scan_from in H.
    apply scan_head in H as [-> _]. reflexivity.
  - intros pre h1 o1 h2 o2 post H. unfold headers, scan_from in H.
    exact (scan_consecutive _ _ _ _ _ _ _ _ _ H).
  - intros h o Hin.
    destruct (headers_blocks _ _ _ Hin) as [H1 [H2 [H3 [H4 H5]]]].
    repeat split; try assumption; [symmetry; exact H3|lia].
  - intros H. apply scan_from_nil in H. exact H.
  - intros pre h o H. exact (scan_from_last _ _ _ _ _ H).
  - pose proof (scan_count (fd_content fd) (S (length (fd_content fd) - 0)) 0) as H.
    unfold headers, scan_from. lia.
Qed.

(** X15: the distance [find_header], [check_archive] and [list] skip
    after a header is the size of the entry rounded up to a multiple of
    512: it is never negative, never short of the size and less than a
    block beyond it, and the size field cannot make it wrap around. *)
Theorem entry_jump_rounds (hdr : tar_header_t) :
  let size := TAR_INT (hdr_size hdr) in
  0 <= size < 2 ^ 36
  /\ entry_jump hdr mod 512 = 0
  /\ size <= entry_jump hdr < size + 512
  /\ (size mod 512 = 0 -> entry_jump hdr = size).
Proof.
  intros size. subst size. fold (entry_size hdr).
  pose proof (entry_size_range hdr) as Hs.
  rewrite entry_jump_span.
  pose proof (entry_span_mod hdr) as Hm.
  unfold entry_span in *.
  pose proof (Z.div_mod (entry_size hdr + 511) 512 ltac:(lia)) as Hd.
  pose proof (Z.mod_pos_bound (entry_size hdr + 511) 512 ltac:(lia)) as Hb.
  repeat split; try lia.
  intros H0.
  pose proof (Z.div_mod (entry_size hdr) 512 ltac:(lia)) as Hd0.
  rewrite H0 in Hd0.
  replace (entry_size hdr + 511) with (511 + entry_size hdr / 512 * 512) by lia.
  rewrite Z.div_add by lia. change (511 / 512) with 0. lia.
Qed.

(** ** Validation of any archive *)

Lemma check_headers_verdict (hs : list (tar_header_t * Z)) :
  (forall h o, In (h, o) hs -> length h = sizeof_header) ->
  forall count,
    (Forall (fun e => well_formed_header (fst e)) hs
     /\ check_headers hs count = count + Z.of_nat (length hs))
    \/ (exists pre h o post,
           hs = pre ++ (h, o) :: post
           /\ Forall (fun e => well_formed_header (fst e)) pre
           /\ ((~ has_magic h /\ check_headers hs count = -1)
               \/ (has_magic h /\ ~ has_version h /\ check_headers hs count = -2)
               \/ (has_magic h /\ has_version h /\ ~ has_checksum h
                   /\ check_headers hs count = -3))).
Proof.
  induction hs as [|[h o] hs IH]; intros Hlen count.
  - left. split; [constructor|cbn; lia].
  - assert (Hl : length h = sizeof_header) by (apply (Hlen h o); left; reflexivity).
    assert (Hlen' : forall h' o', In (h', o') hs -> length h' = sizeof_header).
    { intros h' o' Hin. apply (Hlen h' o'). right. exact Hin. }
    cbn [check_headers].
    destruct (bad_magic h) eqn:Em.
    { right. exists [], h, o, hs.
      split; [reflexivity|split; [constructor|left; split; [|reflexivity]]].
      intros Hm. apply (bad_magic_iff h Hl) in Hm. congruence. }
    apply (bad_magic_iff h Hl) in Em.
    destruct (bad_version h) eqn:Ev.
    { right. exists [], h, o, hs.
      split; [reflexivity|split; [constructor|right; left]].
      split; [exact Em|split; [|reflexivity]].
      intros Hv. apply bad_version_iff in Hv. congruence. }
    apply bad_version_iff in Ev.
    destruct (bad_chksum h) eqn:Ec.
    { right. exists [], h, o, hs.
      split; [reflexivity|split; [constructor|right; right]].
      split; [exact Em|split; [exact Ev|split; [|reflexivity]]].
      intros Hc. apply (bad_chksum_iff h Hl) in Hc. congruence. }
    apply (bad_chksum_iff h Hl) in Ec.
    assert (Hwf : well_formed_header h) by (unfold well_formed_header; tauto).
    destruct (IH Hlen' (count + 1)) as [[Hf Hc]|[pre [h' [o' [post [Hhs [Hpre Hcase]]]]]]].
    + left. split; [constructor; [exact Hwf|exact Hf]|].
      rewrite Hc. cbn [length]. lia.
    + right. exists ((h, o) :: pre), h', o', post.
      split; [rewrite Hhs; reflexivity|].
      split; [constructor; [exact Hwf|exact Hpre]|exact Hcase].
Qed.

(** X3: the verdict of [check_archive] on any archive.  Either every
    header the walk visits has the magic, the version and the checksum:
    the result is their number, and that many blocks fit in the file.  Or
    the result is the code of the first header that fails, by its first
    failing test: -1 for the magic, -2 for the version, -3 for the
    checksum; headers after it are not looked at. *)
Theorem check_archive_verdict (fd : tar_fd) :
  let r := fst (check_archive fd) in
  let hs := headers (fd_content fd) in
  (Forall (fun e => well_formed_header (fst e)) hs
   /\ r = Z.of_nat (length hs)
   /\ 512 * r <= Z.of_nat (length (fd_content fd)))
  \/ (exists pre h o post,
         hs = pre ++ (h, o) :: post
         /\ Forall (fun e => well_formed_header (fst e)) pre
         /\ ((~ has_magic h /\ r = -1)
             \/ (has_magic h /\ ~ has_version h /\ r = -2)
             \/ (has_magic h /\ has_version h /\ ~ has_checksum h /\ r = -3))).
Proof.
  intros r hs. subst r hs. rewrite check_archive_fst.
  destruct (check_headers_verdict (headers (fd_content fd))) with (count := 0)
    as [[Hf Hc]|Hbad].
  - intros h o Hin. apply (headers_blocks _ _ _ Hin).
  - left. split; [exact Hf|]. split; [rewrite Hc; lia|].
    rewrite Hc.
    pose proof (scan_count (fd_content fd) (S (length (fd_content fd) - 0)) 0) as H.
    unfold headers, scan_from. lia.
  - right. exact Hbad.
Qed.


(** ** The predicates *)

(** X4: a path is at most one of directory, regular file and symbolic
    link, and what is any of them exists: each predicate returns 0 or 1,
    and [is_dir + is_file + is_symlink <= exists]. *)
Theorem predicates_exclusive (fd : tar_fd) (path : list ascii) :
  let e := fst (exists_ fd path) in
  let d := fst (is_dir fd path) in
  let f := fst (is_file fd path) in
  let s := fst (is_symlink fd path) in
  (e = 0 \/ e = 1) /\ 0 <= d /\ 0 <= f /\ 0 <= s /\ d + f + s <= e.
Proof.
  intros e d f s. subst e d f s.
  unfold exists_, is_dir, is_file, is_symlink.
  destruct (find_header fd path) as [[[hdr off]|] fd1]; cbn [fst]; [|lia].
  destruct (Ascii.eqb_spec (hdr_typeflag hdr) DIRTYPE) as [->|Hd];
    [cbn; lia|].
  destruct (Ascii.eqb_spec (hdr_typeflag hdr) SYMTYPE) as [->|Hs];
    [cbn; lia|].
  destruct (Ascii.eqb (hdr_typeflag hdr) REGTYPE || Ascii.eqb (hdr_typeflag hdr) AREGTYPE);
    lia.
Qed.

(** ** What [find_header] finds *)

Lemma entry_match_self (hdr : tar_header_t) :
  entry_match hdr (header_path hdr) = true.
Proof.
  pose proof (cstr_id _ (header_path_nul_free hdr)) as Hc.
  destruct (Ascii.eqb_spec (hdr_typeflag hdr) DIRTYPE) as [Ht|Ht].
  - apply (entry_match_dir hdr _ Ht). left. exact Hc.
  - apply (entry_match_other hdr _ Ht). exact Hc.
Qed.

Lemma scan_offsets_ge (f : list ascii) :
  forall fuel p h o, In (h, o) (scan fuel f p) -> Z.of_nat p + 512 <= o.
Proof.
  induction fuel as [|fuel IH]; intros p h o Hin; cbn [scan] in Hin; [contradiction|].
  destruct (negb (length (firstn sizeof_header (skipn p f)) =? sizeof_header)%nat);
    [contradiction|].
  destruct (is_empty_block (firstn sizeof_header (skipn p f))); [contradiction|].
  pose proof (entry_jump_nonneg (firstn sizeof_header (skipn p f))) as Hj.
  destruct Hin as [Heq|Hin].
  - injection Heq as _ <-. block_lia.
  - apply IH in Hin. block_lia.
Qed.

(** Data offsets grow along the scan. *)
Lemma scan_increasing (f : list ascii) :
  forall pre fuel p h1 o1 post,
    scan fuel f p = pre ++ (h1, o1) :: post ->
    forall h2 o2, In (h2, o2) post -> o1 < o2.
Proof.
  induction pre as [|[h0 o0] pre IH]; intros fuel p h1 o1 post H h2 o2 Hin; cbn [app] in H.
  - apply scan_head in H as [Ho [_ [fuel' Hrest]]].
    rewrite Hrest in Hin. apply scan_offsets_ge in Hin.
    pose proof (entry_jump_nonneg h1) as Hj. block_lia.
  - apply scan_head in H as [_ [_ [fuel' Hrest]]].
    symmetry in Hrest. exact (IH _ _ _ _ _ Hrest _ _ Hin).
Qed.

(** X5: the entry [find_header] returns for a query has the query (read
    up to its NUL) as its path; only for a directory entry may the path be
    the query with a slash appended.  Conversely, an entry of the archive
    is found by its own path, unless an earlier entry matches it.  A query
    of more than 255 bytes finds nothing, since no entry path is longer. *)
Theorem find_header_located_path (fd : tar_fd) :
  (forall path hdr off,
      fst (find_header fd path) = Some (hdr, off) ->
      header_path hdr = cstr path
      \/ (hdr_typeflag hdr = DIRTYPE /\ header_path hdr = cstr path ++ [SLASH]))
  /\ (forall hdr off,
         In (hdr, off) (headers (fd_content fd)) ->
         exists hdr' off',
           fst (find_header fd (header_path hdr)) = Some (hdr', off')
           /\ off' <= off
           /\ entry_match hdr' (header_path hdr) = true)
  /\ (forall path, (255 < strlen path)%nat -> fst (find_header fd path) = None).
Proof.
  assert (Hpath : forall path hdr off,
             fst (find_header fd path) = Some (hdr, off) ->
             header_path hdr = cstr path
             \/ (hdr_typeflag hdr = DIRTYPE /\ header_path hdr = cstr path ++ [SLASH])).
  { intros path hdr off H. rewrite find_header_fst in H.
    unfold find_entry in H. apply find_some in H as [_ Hm]. cbn [fst] in Hm.
    destruct (Ascii.eqb_spec (hdr_typeflag hdr) DIRTYPE) as [Ht|Ht].
    + apply (entry_match_dir hdr _ Ht) in Hm as [Hm|[d [Hp Hd]]].
      * left. symmetry. exact Hm.
      * right. split; [exact Ht|]. rewrite Hp, Hd. reflexivity.
    + apply (entry_match_other hdr _ Ht) in Hm. left. symmetry. exact Hm. }
  split; [exact Hpath|split].
  - intros hdr off Hin. rewrite find_header_fst. unfold find_entry.
    destruct (List.find (fun e => entry_match (fst e) (header_path hdr))
                (headers (fd_content fd))) as [[hdr' off']|] eqn:Ef.
    + exists hdr', off'. split; [reflexivity|].
      destruct (find_split _ _ _ _ Ef) as [pre [post [Hh [Hm Hpre]]]].
      split; [|exact Hm].
      rewrite Hh in Hin. apply in_app_or in Hin as [Hin|[Heq|Hin]].
      * apply Hpre in Hin. cbn [fst] in Hin. rewrite entry_match_self in Hin.
        discriminate.
      * injection Heq as _ <-. lia.
      * unfold headers, scan_from in Hh.
        pose proof (scan_increasing _ _ _ _ _ _ _ Hh _ _ Hin). lia.
    + pose proof (find_none _ _ Ef _ Hin) as Hm. cbn [fst] in Hm.
      rewrite entry_match_self in Hm. discriminate.
  - intros path Hlong.
    destruct (fst (find_header fd path)) as [[hdr off]|] eqn:Hf; [|reflexivity].
    pose proof (header_path_length hdr) as Hl. unfold strlen in Hlong.
    destruct (Hpath _ _ _ Hf) as [Hp|[_ Hp]]; rewrite Hp in Hl;
      rewrite ?length_app in Hl; cbn [length] in Hl; lia.
Qed.


(** ** Resolution *)

Lemma resolve_entries_chain_inv (content : list ascii) :
  forall m current hdr off resolved,
    resolve_entries m (headers content) current = Some (hdr, off, resolved) ->
    resolved = header_path hdr
    /\ exists n, (n < m)%nat /\ link_chain content n current = Some (hdr, off).
Proof.
  induction m as [|m IH]; intros current hdr off resolved H; cbn [resolve_entries] in H;
    [discriminate|].
  rewrite <- lookup_find_entry in H.
  destruct (lookup content current) as [[h o]|] eqn:El; [|discriminate].
  destruct (Ascii.eqb (hdr_typeflag h) SYMTYPE) eqn:Et.
  - apply IH in H as [Hr [n [Hn Hchain]]].
    split; [exact Hr|]. exists (S n). split; [lia|].
    cbn [link_chain]. rewrite El, Et. exact Hchain.
  - injection H as <- <- <-. split; [reflexivity|].
    exists 0%nat. split; [lia|]. cbn [link_chain]. rewrite El, Et. reflexivity.
Qed.

Lemma link_chain_not_link (content : list ascii) :
  forall n current hdr off,
    link_chain content n current = Some (hdr, off) ->
    hdr_typeflag hdr <> SYMTYPE.
Proof.
  induction n as [|n IH]; intros current hdr off H; cbn [link_chain] in H;
    destruct (lookup content current) as [[h o]|]; try discriminate;
    destruct (Ascii.eqb_spec (hdr_typeflag h) SYMTYPE) as [Ht|Ht]; try discriminate.
  - injection H as <- <-. exact Ht.
  - exact (IH _ _ _ H).
Qed.

(** X6: [resolve_path] returns an entry exactly when the path, cut to 255
    bytes and without one trailing slash, leads to it through at most 15
    symbolic links, each target cut and stripped in the same way.  The
    entry it returns is never a symbolic link, and the canonical path is
    the path of that entry, not the path that was asked for. *)
Theorem resolve_path_iff_chain (fd : tar_fd) (path : list ascii)
    (hdr : tar_header_t) (off : Z) (resolved : list ascii) :
  (fst (resolve_path fd path) = Some (hdr, off, resolved)
   <-> resolved = header_path hdr
       /\ exists n, (n <= 15)%nat
                    /\ link_chain (fd_content fd) n (path_query path) = Some (hdr, off))
  /\ (fst (resolve_path fd path) = Some (hdr, off, resolved) ->
      hdr_typeflag hdr <> SYMTYPE
      /\ In (hdr, off) (headers (fd_content fd))).
Proof.
  rewrite resolve_path_fst. fold (path_query path).
  split; [split|].
  - intros H. apply resolve_entries_chain_inv in H as [Hr [n [Hn Hchain]]].
    split; [exact Hr|]. exists n. split; [lia|exact Hchain].
  - intros [-> [n [Hn Hchain]]].
    rewrite (resolve_entries_chain _ _ _ 16 n _ Hchain).
    destruct (n <? 16)%nat eqn:E; [reflexivity|apply Nat.ltb_ge in E; lia].
  - intros H. split.
    + apply resolve_entries_chain_inv in H as [_ [n [_ Hchain]]].
      exact (link_chain_not_link _ _ _ _ _ Hchain).
    + apply resolve_entries_in in H as [Hin _]. exact Hin.
Qed.

(** X6, on [dir_archive]: [to_dir] resolves, through one link, to the
    directory [dir/], whose path is returned. *)
Lemma resolve_path_iff_chain_witness :
  fst (resolve_path (open_archive dir_archive) (lit "to_dir"))
  = Some (mk_header (lit "dir/") 0 DIRTYPE [] [], 512, lit "dir/").
Proof.
  apply (resolve_path_iff_chain (open_archive dir_archive) (lit "to_dir")).
  split; [vm_compute; reflexivity|].
  exists 1%nat. split; [lia|vm_compute; reflexivity].
Defined.

Lemma resolve_entries_links (content : list ascii) :
  forall k m current target,
    links_to content k current = Some target ->
    resolve_entries m (headers content) current
    = if (k <? m)%nat then resolve_entries (m - k) (headers content) target else None.
Proof.
  induction k as [|k IH]; intros m current target H; cbn [links_to] in H.
  - injection H as <-. destruct m; [reflexivity|].
    cbn [Nat.ltb Nat.leb]. rewrite Nat.sub_0_r. reflexivity.
  - destruct (lookup content current) as [[h o]|] eqn:El; [|discriminate].
    destruct (Ascii.eqb (hdr_typeflag h) SYMTYPE) eqn:Et; [|discriminate].
    destruct m as [|m]; [reflexivity|].
    cbn [resolve_entries]. rewrite <- lookup_find_entry, El, Et.
    fold (path_query (hdr_linkname h)). fold (link_target h).
    rewrite (IH m _ _ H). reflexivity.
Qed.

Lemma resolve_entries_cycle (content : list ascii) (j : nat) (target : list ascii) :
  links_to content (S j) target = Some target ->
  forall m, resolve_entries m (headers content) target = None.
Proof.
  intros Hcycle m. induction m as [m IH] using (well_founded_induction lt_wf).
  rewrite (resolve_entries_links _ _ m _ _ Hcycle).
  destruct (S j <? m)%nat eqn:E; [|reflexivity].
  apply Nat.ltb_lt in E. apply IH. lia.
Qed.

(** X7: [resolve_path] finds nothing for a path whose links lead, after
    any number of them, to a name that no entry matches (for no link at
    all: the path itself is missing), and nothing for a path whose links
    lead into a cycle of any length: links that point to each other do not
    make it loop. *)
Theorem resolve_path_dead_ends (fd : tar_fd) (path : list ascii) :
  (forall k target,
      links_to (fd_content fd) k (path_query path) = Some target ->
      lookup (fd_content fd) target = None ->
      fst (resolve_path fd path) = None)
  /\ (forall k j target,
         links_to (fd_content fd) k (path_query path) = Some target ->
         links_to (fd_content fd) (S j) target = Some target ->
         fst (resolve_path fd path) = None).
Proof.
  rewrite resolve_path_fst. fold (path_query path). split.
  - intros k target Hk Hmiss.
    rewrite (resolve_entries_links _ _ 16 _ _ Hk).
    destruct (k <? 16)%nat eqn:E; [|reflexivity].
    apply Nat.ltb_lt in E.
    destruct (16 - k)%nat as [|m] eqn:Em; [lia|].
    cbn [resolve_entries]. rewrite <- lookup_find_entry, Hmiss. reflexivity.
  - intros k j target Hk Hcycle.
    rewrite (resolve_entries_links _ _ 16 _ _ Hk).
    destruct (k <? 16)%nat; [|reflexivity].
    exact (resolve_entries_cycle _ _ _ Hcycle _).
Qed.

(** X7, on [loop_archive]: [x] and [y] point to each other, [z] points to
    a name that is not there. *)
Lemma resolve_path_dead_ends_witness :
  fst (resolve_path (open_archive loop_archive) (lit "x")) = None
  /\ fst (resolve_path (open_archive loop_archive) (lit "z")) = None.
Proof.
  split.
  - apply (proj2 (resolve_path_dead_ends (open_archive loop_archive) (lit "x"))
             0%nat 1%nat (lit "x")); vm_compute; reflexivity.
  - apply (proj1 (resolve_path_dead_ends (open_archive loop_archive) (lit "z"))
             1%nat (lit "nowhere")); vm_compute; reflexivity.
Defined.

(** ** Reading, on any archive *)

(** [read_file] is [read_resolved] on what [resolve_path] returns. *)
Lemma read_file_run (fd : tar_fd) (path : list ascii) (offset : Z)
    (dest : list ascii) (len : Z) :
  exists fd',
    read_file fd path offset dest len
    = (read_resolved (fd_content fd) (fst (resolve_path fd path)) offset dest len, fd')
    /\ fd_content fd' = fd_content fd.
Proof.
  destruct (resolve_path_run fd path) as [fd1 [Hrun Hc]].
  unfold read_file, read_resolved. rewrite Hrun. cbn [fst].
  destruct (fst (resolve_path fd path)) as [[[hdr data_off] resolved]|];
    [|exists fd1; split; [reflexivity|exact Hc]].
  destruct (negb (Ascii.eqb (hdr_typeflag hdr) REGTYPE
                  || Ascii.eqb (hdr_typeflag hdr) AREGTYPE));
    [exists fd1; split; [reflexivity|exact Hc]|].
  cbv zeta.
  destruct (to_size_t (TAR_INT (hdr_size hdr)) <? offset);
    [exists fd1; split; [reflexivity|exact Hc]|].
  unfold lseek.
  destruct (to_off_t (data_off + offset) <? 0) eqn:Et.
  { exists fd1. split; [reflexivity|exact Hc]. }
  apply Z.ltb_ge in Et.
  destruct (to_off_t (data_off + offset) =? -1) eqn:E1; [apply Z.eqb_eq in E1; lia|].
  unfold read. cbn [fd_pos fd_content]. rewrite Hc.
  match goal with
  | |- context [Z.of_nat (length ?d) <? 0] =>
      destruct (Z.of_nat (length d) <? 0) eqn:Er; [apply Z.ltb_lt in Er; lia|]
  end.
  match goal with
  | |- context [if ?b then _ else _] => destruct b
  end; eexists; (split; [reflexivity|reflexivity]).
Qed.

Lemma read_file_fst (fd : tar_fd) (path : list ascii) (offset : Z)
    (dest : list ascii) (len : Z) :
  fst (read_file fd path offset dest len)
  = read_resolved (fd_content fd) (fst (resolve_path fd path)) offset dest len.
Proof.
  destruct (read_file_run fd path offset dest len) as [fd' [H _]].
  rewrite H. reflexivity.
Qed.

Lemma length_firstn_skipn_Z (f : list ascii) (n p : nat) :
  Z.of_nat (length (firstn n (skipn p f)))
  = Z.min (Z.of_nat n) (Z.max 0 (Z.of_nat (length f) - Z.of_nat p)).
Proof. rewrite length_firstn, length_skipn. lia. Qed.

(** The outcome of [read_file] on a resolved entry, in closed form. *)
Lemma read_resolved_closed (f : list ascii) (hdr : tar_header_t) (data_off : Z)
    (resolved : list ascii) (offset : Z) (dest : list ascii) (len : Z) :
  0 <= data_off <= Z.of_nat (length f) ->
  Z.of_nat (length f) < 2 ^ 62 ->
  0 <= offset -> 0 <= len ->
  read_resolved f (Some (hdr, data_off, resolved)) offset dest len
  = if Ascii.eqb (hdr_typeflag hdr) REGTYPE || Ascii.eqb (hdr_typeflag hdr) AREGTYPE
    then
      if entry_size hdr <? offset then (-2, dest, len)
      else
        let n := Z.min (Z.min len (entry_size hdr - offset))
                   (Z.max 0 (Z.of_nat (length f) - (data_off + offset))) in
        (entry_size hdr - offset - n,
         firstn (Z.to_nat n) (skipn (Z.to_nat (data_off + offset)) f)
         ++ skipn (Z.to_nat n) dest,
         n)
    else (-1, dest, len).
Proof.
  intros Hdata Hlen Hoff Hl.
  pose proof (entry_size_range hdr) as Hsize.
  assert (H36 : 2 ^ 36 < 2 ^ 62) by reflexivity.
  assert (H62 : 2 * 2 ^ 62 = 2 ^ 63) by reflexivity.
  unfold read_resolved.
  destruct (Ascii.eqb (hdr_typeflag hdr) REGTYPE || Ascii.eqb (hdr_typeflag hdr) AREGTYPE);
    cbn [negb]; [|reflexivity].
  fold (entry_size hdr). cbv zeta.
  rewrite (to_size_t_small (entry_size hdr)) by lia.
  destruct (entry_size hdr <? offset) eqn:E; [reflexivity|].
  apply Z.ltb_ge in E.
  rewrite (to_size_t_small (entry_size hdr - offset)) by lia.
  rewrite (to_off_t_small (data_off + offset)) by lia.
  destruct (data_off + offset <? 0) eqn:Et; [apply Z.ltb_lt in Et; lia|].
  set (to_read := if len <? entry_size hdr - offset then len else entry_size hdr - offset).
  assert (Hto : to_read = Z.min len (entry_size hdr - offset)).
  { unfold to_read. destruct (len <? entry_size hdr - offset) eqn:E2;
      [apply Z.ltb_lt in E2|apply Z.ltb_ge in E2]; lia. }
  set (data := firstn (Z.to_nat to_read) (skipn (Z.to_nat (data_off + offset)) f)).
  set (n := Z.min (Z.min len (entry_size hdr - offset))
              (Z.max 0 (Z.of_nat (length f) - (data_off + offset)))).
  assert (Hr : Z.of_nat (length data) = n).
  { unfold data, n. rewrite length_firstn_skipn_Z, !Z2Nat.id by lia.
    rewrite Hto. reflexivity. }
  assert (Hdata' : data = firstn (Z.to_nat n) (skipn (Z.to_nat (data_off + offset)) f)).
  { transitivity (firstn (Z.to_nat n) data).
    - symmetry. apply firstn_all2. lia.
    - unfold data. rewrite firstn_firstn. f_equal. lia. }
  assert (Hlen' : length data = Z.to_nat n) by lia.
  rewrite Hr, Hlen', <- Hdata'.
  rewrite (to_size_t_small n) by lia.
  rewrite (to_size_t_small (offset + n)) by lia.
  rewrite (to_size_t_small (entry_size hdr - offset - n)) by lia.
  rewrite (to_off_t_small (entry_size hdr - offset - n)) by lia.
  destruct (offset + n <? entry_size hdr) eqn:En; [reflexivity|].
  apply Z.ltb_ge in En. repeat f_equal. lia.
Qed.

(** X9: the outcome of [read_file] in closed form, for any archive.  -1,
    with [dest] and [*len] untouched, when the path does not resolve or
    resolves to something that is not a regular file; -2, with both
    untouched, when the offset is beyond the size of the file.  Otherwise
    the bytes copied are those of the archive from the data offset plus
    [offset] on, their number [n] is the smallest of [*len], the bytes
    left in the file and the bytes the archive still has -- a truncated
    archive gives a short read, not an error -- [*len] becomes [n], the
    rest of [dest] is kept, and the return value is the size minus the
    offset minus [n], never negative. *)
Theorem read_file_outcome (fd : tar_fd) (path : list ascii) (offset : Z)
    (dest : list ascii) (len : Z) :
  0 <= offset -> 0 <= len ->
  Z.of_nat (length (fd_content fd)) < 2 ^ 62 ->
  fst (read_file fd path offset dest len)
  = match fst (resolve_path fd path) with
    | None => (-1, dest, len)
    | Some (hdr, data_off, _) =>
        if Ascii.eqb (hdr_typeflag hdr) REGTYPE || Ascii.eqb (hdr_typeflag hdr) AREGTYPE
        then
          if entry_size hdr <? offset then (-2, dest, len)
          else
            let n := Z.min (Z.min len (entry_size hdr - offset))
                       (Z.max 0 (Z.of_nat (length (fd_content fd))
                                 - (data_off + offset))) in
            (entry_size hdr - offset - n,
             firstn (Z.to_nat n) (skipn (Z.to_nat (data_off + offset)) (fd_content fd))
             ++ skipn (Z.to_nat n) dest,
             n)
        else (-1, dest, len)
    end.
Proof.
  intros Hoff Hl Hlen. rewrite read_file_fst.
  destruct (fst (resolve_path fd path)) as [[[hdr data_off] resolved]|] eqn:Hres;
    [|reflexivity].
  apply read_resolved_closed; try assumption.
  rewrite resolve_path_fst in Hres. apply resolve_entries_in in Hres as [Hin _].
  apply headers_blocks in Hin. lia.
Qed.

(** X9, on [dir_archive]: a missing path, a directory, the ten bytes of
    [dir/b] from offset 11 and from offset 8; and on the same archive cut
    in the middle of the data of [dir/b], a short read. *)
Lemma read_file_outcome_witness :
  fst (read_file (open_archive dir_archive) (lit "nothing") 0 (repeat SPACE 4) 4)
  = (-1, repeat SPACE 4, 4)
  /\ fst (read_file (open_archive dir_archive) (lit "dir") 0 (repeat SPACE 4) 4)
     = (-1, repeat SPACE 4, 4)
  /\ fst (read_file (open_archive dir_archive) (lit "dir/b") 11 (repeat SPACE 4) 4)
     = (-2, repeat SPACE 4, 4)
  /\ fst (read_file (open_archive dir_archive) (lit "to_b") 8 (repeat SPACE 4) 4)
     = (0, lit "89  ", 2)
  /\ fst (read_file (open_archive (firstn 2051 dir_archive)) (lit "dir/b") 0
            (repeat SPACE 4) 4)
     = (7, lit "012 ", 3).
Proof.
  split; [|split; [|split; [|split]]].
  - rewrite read_file_outcome; [vm_compute; reflexivity|lia|lia|vm_compute; reflexivity].
  - rewrite read_file_outcome; [vm_compute; reflexivity|lia|lia|vm_compute; reflexivity].
  - rewrite read_file_outcome; [vm_compute; reflexivity|lia|lia|vm_compute; reflexivity].
  - rewrite read_file_outcome; [vm_compute; reflexivity|lia|lia|vm_compute; reflexivity].
  - rewrite read_file_outcome; [vm_compute; reflexivity|lia|lia|vm_compute; reflexivity].
Defined.

Lemma firstn_add_skipn (A : Type) (a b : nat) (l : list A) :
  firstn (a + b) l = firstn a l ++ firstn b (skipn a l).
Proof.
  revert l. induction a as [|a IH]; intros l; [reflexivity|].
  destruct l as [|x l]; cbn [Nat.add firstn skipn app].
  - rewrite firstn_nil. reflexivity.
  - f_equal. apply IH.
Qed.

(** X10: reads compose.  When a read of [a] bytes at [offset] succeeds and
    delivers all [a] bytes, reading [b] bytes at [offset + a] continues
    where it stopped: the bytes of the two reads, one after the other, are
    the bytes of one read of [a + b] bytes at [offset], and the number of
    bytes left after the second read is the number left after the single
    one. *)
Theorem read_file_consecutive (fd : tar_fd) (path : list ascii) (offset a b : Z)
    (d1 d2 d12 : list ascii) :
  0 <= offset -> 0 <= a -> 0 <= b ->
  Z.of_nat (length (fd_content fd)) < 2 ^ 62 ->
  let r1 := fst (read_file fd path offset d1 a) in
  let r2 := fst (read_file fd path (offset + a) d2 b) in
  let r12 := fst (read_file fd path offset d12 (a + b)) in
  let bytes := fun (r : Z * list ascii * Z) => firstn (Z.to_nat (snd r)) (snd (fst r)) in
  0 <= fst (fst r1) -> snd r1 = a ->
  0 <= fst (fst r2)
  /\ fst (fst r12) = fst (fst r2)
  /\ snd r12 = a + snd r2
  /\ bytes r12 = bytes r1 ++ bytes r2.
Proof.
  intros Hoff Ha Hb Hlen r1 r2 r12 bytes. subst r1 r2 r12 bytes. cbv beta.
  rewrite !read_file_fst.
  destruct (fst (resolve_path fd path)) as [[[hdr data_off] resolved]|] eqn:Hres;
    [|cbn [read_resolved fst snd]; lia].
  pose proof Hres as Hin. rewrite resolve_path_fst in Hin.
  apply resolve_entries_in in Hin as [Hin _]. apply headers_blocks in Hin.
  destruct Hin as [_ [_ [_ [Hdata _]]]].
  pose proof (entry_size_range hdr) as Hsize.
  rewrite !read_resolved_closed by lia.
  destruct (Ascii.eqb (hdr_typeflag hdr) REGTYPE || Ascii.eqb (hdr_typeflag hdr) AREGTYPE);
    [|cbn [fst snd]; lia].
  destruct (entry_size hdr <? offset) eqn:E1; [cbn [fst snd]; lia|].
  apply Z.ltb_ge in E1. cbv zeta. cbn [fst snd].
  intros _ Hfull.
  destruct (entry_size hdr <? offset + a) eqn:E2; [apply Z.ltb_lt in E2; lia|].
  cbv zeta. cbn [fst snd].
  set (L := Z.of_nat (length (fd_content fd))) in *.
  set (n2 := Z.min (Z.min b (entry_size hdr - (offset + a)))
               (Z.max 0 (L - (data_off + (offset + a))))).
  set (n12 := Z.min (Z.min (a + b) (entry_size hdr - offset))
                (Z.max 0 (L - (data_off + offset)))).
  assert (Hn : n12 = a + n2) by lia.
  split; [lia|]. split; [lia|]. split; [exact Hn|].
  assert (Hexact : forall (n : Z) (p : nat) (rest : list ascii),
             0 <= n -> n <= Z.max 0 (L - Z.of_nat p) ->
             firstn (Z.to_nat n) (firstn (Z.to_nat n) (skipn p (fd_content fd)) ++ rest)
             = firstn (Z.to_nat n) (skipn p (fd_content fd))).
  { intros n p rest Hn0 Hn1.
    rewrite firstn_app, firstn_firstn, Nat.min_id.
    replace (Z.to_nat n - length (firstn (Z.to_nat n) (skipn p (fd_content fd))))%nat
      with 0%nat.
    - cbn [firstn]. apply app_nil_r.
    - rewrite length_firstn, length_skipn. unfold L in Hn1. lia. }
  rewrite Hfull.
  rewrite (Hexact n12), (Hexact a), (Hexact n2) by lia.
  rewrite Hn, Z2Nat.inj_add, firstn_add_skipn by lia.
  f_equal. rewrite skipn_skipn. do 2 f_equal. lia.
Qed.

(** X10, on [dir_archive]: three bytes of [dir/b] from offset 2, then
    four more, against seven bytes at once. *)
Lemma read_file_consecutive_witness :
  let fd := open_archive dir_archive in
  let r1 := fst (read_file fd (lit "dir/b") 2 (repeat SPACE 3) 3) in
  let r2 := fst (read_file fd (lit "dir/b") 5 (repeat SPACE 4) 4) in
  let r12 := fst (read_file fd (lit "dir/b") 2 (repeat SPACE 7) 7) in
  (r1 = (5, lit "234", 3) /\ r2 = (1, lit "5678", 4))
  /\ 0 <= fst (fst r2)
  /\ fst (fst r12) = fst (fst r2)
  /\ snd r12 = 3 + snd r2
  /\ firstn (Z.to_nat (snd r12)) (snd (fst r12))
     = firstn (Z.to_nat (snd r1)) (snd (fst r1))
       ++ firstn (Z.to_nat (snd r2)) (snd (fst r2)).
Proof.
  intros fd r1 r2 r12. split; [split; vm_compute; reflexivity|].
  apply (read_file_consecutive fd (lit "dir/b") 2 3 4
           (repeat SPACE 3) (repeat SPACE 4) (repeat SPACE 7));
    try lia; vm_compute; try reflexivity; discriminate.
Defined.

(** ** Through a symbolic link *)

Lemma resolve_entries_more (hs : list (tar_header_t * Z)) :
  forall m current res,
    resolve_entries m hs current = Some res ->
    resolve_entries (S m) hs current = Some res.
Proof.
  induction m as [|m IH]; intros current res H; [discriminate|].
  cbn [resolve_entries] in H. cbn [resolve_entries].
  destruct (find_entry current hs) as [[h o]|]; [|discriminate].
  destruct (Ascii.eqb (hdr_typeflag h) SYMTYPE); [|exact H].
  apply IH in H. exact H.
Qed.

(** X11: a symbolic link is transparent to [resolve_path], [read_file]
    and [list].  When a path that names a symbolic link resolves, the
    target of the link resolves to the same entry, and reading or
    listing through the link gives what the target gives. *)
Theorem symlink_transparent (fd : tar_fd) (p : list ascii)
    (lnk : tar_header_t) (off : Z) :
  lookup (fd_content fd) (path_query p) = Some (lnk, off) ->
  hdr_typeflag lnk = SYMTYPE ->
  fst (resolve_path fd p) <> None ->
  fst (resolve_path fd (hdr_linkname lnk)) = fst (resolve_path fd p)
  /\ (forall offset dest len,
         fst (read_file fd (hdr_linkname lnk) offset dest len)
         = fst (read_file fd p offset dest len))
  /\ (char_at p 0 <> NUL -> char_at (hdr_linkname lnk) 0 <> NUL ->
      forall entries capacity,
        fst (Tar.list fd (Some (hdr_linkname lnk)) entries capacity)
        = fst (Tar.list fd (Some p) entries capacity)).
Proof.
  intros Hl Ht Hres.
  assert (Heq : fst (resolve_path fd (hdr_linkname lnk)) = fst (resolve_path fd p)).
  { rewrite !resolve_path_fst in *. fold (path_query p) in *.
    fold (path_query (hdr_linkname lnk)). fold (link_target lnk).
    assert (Hk : links_to (fd_content fd) 1 (path_query p) = Some (link_target lnk)).
    { cbn [links_to]. rewrite Hl, Ht, Ascii.eqb_refl. reflexivity. }
    rewrite (resolve_entries_links _ _ 16 _ _ Hk) in *.
    change (if (1 <? 16)%nat
            then resolve_entries (16 - 1) (headers (fd_content fd)) (link_target lnk)
            else None)
      with (resolve_entries 15 (headers (fd_content fd)) (link_target lnk)) in *.
    destruct (resolve_entries 15 (headers (fd_content fd)) (link_target lnk))
      as [res|] eqn:E; [|congruence].
    apply (resolve_entries_more _ 15). exact E. }
  split; [exact Heq|split].
  - intros offset dest len. rewrite !read_file_fst, Heq. reflexivity.
  - intros Hp Hq entries capacity. rewrite !list_fst. unfold list_prefix.
    apply Ascii.eqb_neq in Hp, Hq. rewrite Hp, Hq. cbn [negb].
    rewrite <- !resolve_path_fst, Heq. reflexivity.
Qed.

(** X11, on [dir_archive]: [to_b] is a link to [dir/b], [to_dir] a link
    to [dir/]. *)
Lemma symlink_transparent_witness :
  (fst (resolve_path (open_archive dir_archive) (lit "dir/b"))
   = fst (resolve_path (open_archive dir_archive) (lit "to_b"))
   /\ forall offset dest len,
        fst (read_file (open_archive dir_archive) (lit "dir/b") offset dest len)
        = fst (read_file (open_archive dir_archive) (lit "to_b") offset dest len))
  /\ forall entries capacity,
       fst (Tar.list (open_archive dir_archive) (Some (lit "dir/")) entries capacity)
       = fst (Tar.list (open_archive dir_archive) (Some (lit "to_dir")) entries capacity).
Proof.
  split.
  - destruct (symlink_transparent (open_archive dir_archive) (lit "to_b")
                (mk_header (lit "to_b") 0 SYMTYPE (lit "dir/b") []) 5632)
      as [H1 [H2 _]];
      [vm_compute; reflexivity|vm_compute; reflexivity|vm_compute; discriminate|].
    split.
    + rewrite <- H1. vm_compute. reflexivity.
    + intros offset dest len. rewrite <- H2, !read_file_fst.
      replace (fst (resolve_path (open_archive dir_archive) (lit "dir/b")))
        with (fst (resolve_path (open_archive dir_archive)
                     (hdr_linkname (mk_header (lit "to_b") 0 SYMTYPE (lit "dir/b") []))))
        by (vm_compute; reflexivity).
      reflexivity.
  - intros entries capacity.
    destruct (symlink_transparent (open_archive dir_archive) (lit "to_dir")
                (mk_header (lit "to_dir") 0 SYMTYPE (lit "dir/") []) 5120)
      as [_ [_ H3]];
      [vm_compute; reflexivity|vm_compute; reflexivity|vm_compute; discriminate|].
    rewrite <- H3; [|vm_compute; discriminate|vm_compute; discriminate].
    rewrite !list_fst. unfold list_prefix.
    replace (char_at (lit "dir/") 0) with "d"%char by reflexivity.
    replace (char_at (hdr_linkname (mk_header (lit "to_dir") 0 SYMTYPE (lit "dir/") [])) 0)
      with "d"%char by (vm_compute; reflexivity).
    replace (strip_slash (strncpy255 (lit "dir/")))
      with (strip_slash
              (strncpy255 (hdr_linkname (mk_header (lit "to_dir") 0 SYMTYPE (lit "dir/") []))))
      by (vm_compute; reflexivity).
    reflexivity.
Defined.

(** ** The descriptor *)

Lemma lseek_content (fd : tar_fd) (offset : Z) (w : whence) :
  fd_content (snd (lseek fd offset w)) = fd_content fd.
Proof. unfold lseek. destruct (_ <? 0); reflexivity. Qed.

Lemma check_archive_loop_content :
  forall fuel fd count r fd',
    check_archive_loop fuel fd count = Some (r, fd') ->
    fd_content fd' = fd_content fd.
Proof.
  induction fuel as [|fuel IH]; intros fd count r fd' H; [discriminate|].
  cbn [check_archive_loop] in H. unfold read in H.
  destruct (negb _) in H; [injection H as _ <-; reflexivity|].
  destruct (is_empty_block _) in H; [injection H as _ <-; reflexivity|].
  destruct (bad_magic _) in H; [injection H as _ <-; reflexivity|].
  destruct (bad_version _) in H; [injection H as _ <-; reflexivity|].
  destruct (bad_chksum _) in H; [injection H as _ <-; reflexivity|].
  match type of H with
  | context [lseek ?d ?o ?w] =>
      pose proof (lseek_content d o w) as Hc; destruct (lseek d o w) as [r1 fd2]
  end.
  cbn [snd fd_content] in Hc.
  destruct (r1 =? -1); [injection H as _ <-; exact Hc|].
  apply IH in H. rewrite H. exact Hc.
Qed.

Lemma check_archive_content (fd : tar_fd) :
  fd_content (snd (check_archive fd)) = fd_content fd.
Proof.
  unfold check_archive. rewrite lseek_set_0. cbn [Z.eqb].
  destruct (check_archive_loop _ _ 0) as [[r fd']|] eqn:E; [|reflexivity].
  apply check_archive_loop_content in E. exact E.
Qed.

Lemma list_loop_content (base : list ascii) (capacity : nat) :
  forall fuel fd entries count entries' count' fd',
    list_loop fuel fd base capacity entries count = Some (entries', count', fd') ->
    fd_content fd' = fd_content fd.
Proof.
  induction fuel as [|fuel IH]; intros fd entries count entries' count' fd' H;
    [discriminate|].
  cbn [list_loop] in H. unfold read in H.
  destruct (negb _) in H; [injection H as _ _ <-; reflexivity|].
  destruct (is_empty_block _) in H; [injection H as _ _ <-; reflexivity|].
  rewrite lseek_cur_0 in H.
  match type of H with
  | context [let '(e, c) := ?sel in _] => destruct sel as [e1 c1]
  end.
  match type of H with
  | context [lseek ?d ?o ?w] =>
      pose proof (lseek_content d o w) as Hc; destruct (lseek d o w) as [r1 fd2]
  end.
  cbn [snd fd_content] in Hc.
  destruct (r1 =? -1); [injection H as _ _ <-; exact Hc|].
  apply IH in H. rewrite H. exact Hc.
Qed.

Lemma list_content (fd : tar_fd) (path : option (list ascii))
    (entries : list (list ascii)) (capacity : nat) :
  fd_content (snd (Tar.list fd path entries capacity)) = fd_content fd.
Proof.
  assert (Hscan : forall fd1 base, fd_content fd1 = fd_content fd ->
    fd_content
      (snd (let '(r, fd2) := lseek fd1 0 SEEK_SET in
            if r =? -1 then ((0, entries, 0%nat), fd2)
            else match list_loop (scan_fuel fd2) fd2 base capacity entries 0 with
                 | Some (entries', count, fd3) => ((1, entries', count), fd3)
                 | None => ((0, entries, 0%nat), fd2)
                 end))
    = fd_content fd).
  { intros fd1 base Hc. rewrite lseek_set_0. cbn [Z.eqb].
    destruct (list_loop _ _ base capacity entries 0) as [[[e c] fd3]|] eqn:E;
      [|exact Hc].
    apply list_loop_content in E. cbn [snd]. rewrite E. exact Hc. }
  unfold Tar.list.
  destruct path as [p|]; [|apply Hscan; reflexivity].
  destruct (negb (Ascii.eqb (char_at p 0) NUL)); [|apply Hscan; reflexivity].
  destruct (resolve_path_run fd p) as [fd1 [Hrun Hc]]. rewrite Hrun.
  destruct (fst (resolve_path fd p)) as [[[hdr off] base]|]; [|exact Hc].
  destruct (negb (Ascii.eqb (hdr_typeflag hdr) DIRTYPE)); [exact Hc|].
  apply Hscan, Hc.
Qed.

(** X8: no operation depends on where the descriptor stands when it is
    called, and none changes the file: on two descriptors of the same
    bytes every operation returns the same, and the descriptor it leaves
    holds the same bytes.  So the operations can be called one after the
    other on one descriptor, in any order. *)
Theorem operations_ignore_offset (fd fd' : tar_fd) :
  fd_content fd = fd_content fd' ->
  (fst (check_archive fd) = fst (check_archive fd')
   /\ fd_content (snd (check_archive fd)) = fd_content fd)
  /\ (forall path,
         (fst (find_header fd path) = fst (find_header fd' path)
          /\ fd_content (snd (find_header fd path)) = fd_content fd)
         /\ (fst (resolve_path fd path) = fst (resolve_path fd' path)
             /\ fd_content (snd (resolve_path fd path)) = fd_content fd)
         /\ (fst (exists_ fd path) = fst (exists_ fd' path)
             /\ fd_content (snd (exists_ fd path)) = fd_content fd)
         /\ (fst (is_dir fd path) = fst (is_dir fd' path)
             /\ fd_content (snd (is_dir fd path)) = fd_content fd)
         /\ (fst (is_file fd path) = fst (is_file fd' path)
             /\ fd_content (snd (is_file fd path)) = fd_content fd)
         /\ (fst (is_symlink fd path) = fst (is_symlink fd' path)
             /\ fd_content (snd (is_symlink fd path)) = fd_content fd))
  /\ (forall path entries capacity,
         fst (Tar.list fd path entries capacity)
         = fst (Tar.list fd' path entries capacity)
         /\ fd_content (snd (Tar.list fd path entries capacity)) = fd_content fd)
  /\ (forall path offset dest len,
         fst (read_file fd path offset dest len)
         = fst (read_file fd' path offset dest len)
         /\ fd_content (snd (read_file fd path offset dest len)) = fd_content fd).
Proof.
  intros Hc.
  assert (Hfind : forall path,
             fst (find_header fd path) = fst (find_header fd' path)
             /\ fd_content (snd (find_header fd path)) = fd_content fd).
  { intros path. rewrite !find_header_fst, Hc. split; [reflexivity|].
    destruct (find_header_run fd path) as [fd1 [H H1]]. rewrite H, <- Hc. exact H1. }
  split; [|split; [|split]].
  - rewrite !check_archive_fst, Hc. split; [reflexivity|].
    rewrite <- Hc. apply check_archive_content.
  - intros path. destruct (Hfind path) as [Hf Hfc].
    split; [exact (Hfind path)|]. split.
    { rewrite !resolve_path_fst, Hc. split; [reflexivity|].
      destruct (resolve_path_run fd path) as [fd1 [H H1]]. rewrite H, <- Hc. exact H1. }
    unfold exists_, is_dir, is_file, is_symlink.
    destruct (find_header fd path) as [[[h o]|] fd1];
      destruct (find_header fd' path) as [[[h' o']|] fd1']; cbn [fst snd] in *;
      try discriminate; try (injection Hf as <- <-); repeat split; assumption.
  - intros path entries capacity. rewrite !list_fst, Hc. split; [reflexivity|].
    rewrite <- Hc. apply list_content.
  - intros path offset dest len. rewrite !read_file_fst, !resolve_path_fst, Hc.
    split; [reflexivity|].
    destruct (read_file_run fd path offset dest len) as [fd1 [H H1]].
    rewrite H, <- Hc. exact H1.
Qed.

(** X8, on [dir_archive]: after a validation, a lookup and a read, a
    second read returns what it returns on a descriptor just opened. *)
Lemma operations_ignore_offset_witness :
  let fd0 := open_archive dir_archive in
  let fd1 := snd (check_archive fd0) in
  let fd2 := snd (find_header fd1 (lit "dir/c/d")) in
  let fd3 := snd (read_file fd2 (lit "dir/a") 0 (repeat SPACE 5) 5) in
  fd_pos fd3 = 1029%nat
  /\ fst (read_file fd3 (lit "to_b") 4 (repeat SPACE 4) 4)
     = fst (read_file fd0 (lit "to_b") 4 (repeat SPACE 4) 4).
Proof.
  intros fd0 fd1 fd2 fd3. split; [vm_compute; reflexivity|].
  apply (operations_ignore_offset fd3 fd0). vm_compute. reflexivity.
Defined.

(** ** What [list] stores *)

(** X12: every path [list] stores names an entry of the archive: it is
    directly under the prefix, [exists] returns 1 for it, and there are no
    more of them than headers in the archive -- than [check_archive]
    counts, when it accepts the archive. *)
Theorem listed_entries_exist (fd : tar_fd) (path : option (list ascii))
    (base : list ascii) (entries : list (list ascii)) (capacity : nat) :
  lists_under fd path base ->
  let result := fst (Tar.list fd path entries capacity) in
  let written := snd (fst result) in
  let count := snd result in
  (forall i name,
      (i < count)%nat -> written !! i = Some name ->
      direct_child base name /\ fst (exists_ fd name) = 1)
  /\ (count <= length (headers (fd_content fd)))%nat
  /\ (0 <= fst (check_archive fd) -> Z.of_nat count <= fst (check_archive fd)).
Proof.
  intros Hu result written count. subst result written count.
  pose proof (lists_under_prefix _ _ _ Hu) as [_ Hb].
  rewrite (list_under fd path base entries capacity Hu). cbn [fst snd].
  set (hs := headers (fd_content fd)).
  assert (Hcount : (length (children base hs) <= length hs)%nat).
  { unfold children. etransitivity; [apply filter_length_le|].
    rewrite length_map. reflexivity. }
  split; [|split].
  - intros i name Hi Hw.
    assert (Hin : In name (children base hs)).
    { destruct (Nat.lt_ge_cases i (length entries)) as [Hlt|Hge].
      - rewrite write_entries_at in Hw by (rewrite ?length_firstn; lia).
        apply lookup_take_Some in Hw as [Hw _].
        apply list_elem_of_In. exact (list_elem_of_lookup_2 _ _ _ Hw).
      - rewrite lookup_ge_None_2 in Hw by (rewrite write_entries_length; exact Hge).
        discriminate. }
    apply (children_in base hs name Hb) in Hin as [[hdr [off [Hin Hp]]] Hchild].
    split; [exact Hchild|].
    unfold exists_. destruct (find_header_run fd name) as [fd1 [Hrun _]].
    rewrite Hrun. fold hs.
    destruct (find_entry name hs) as [e|] eqn:Ef; [reflexivity|].
    unfold find_entry in Ef. pose proof (find_none _ _ Ef _ Hin) as Hm.
    cbn [fst] in Hm. rewrite <- Hp, entry_match_self in Hm. discriminate.
  - lia.
  - rewrite check_archive_fst. fold hs. intros Hcheck.
    destruct (check_headers_verdict hs) with (count := 0)
      as [[_ Hc]|[pre [h [o [post [_ [_ Hbad]]]]]]].
    + intros h o Hin. apply (headers_blocks _ _ _ Hin).
    + lia.
    + lia.
Qed.

(** X12, on [dir_archive]: the four children of [dir/]. *)
Lemma listed_entries_exist_witness :
  let written := snd (fst (fst (Tar.list (open_archive dir_archive) (Some (lit "dir"))
                                  (repeat [] 4) 4))) in
  written = [lit "dir/a"; lit "dir/b"; lit "dir/c/"; lit "dir/e/"]
  /\ forall i name, (i < 4)%nat -> written !! i = Some name ->
       direct_child (lit "dir/") name
       /\ fst (exists_ (open_archive dir_archive) name) = 1.
Proof.
  intros written. split; [vm_compute; reflexivity|].
  assert (Hu : lists_under (open_archive dir_archive) (Some (lit "dir")) (lit "dir/")).
  { apply (lists_directory _ (lit "dir") (mk_header (lit "dir/") 0 DIRTYPE [] [])
             512 (lit "dir/")).
    - discriminate.
    - vm_compute. reflexivity.
    - vm_compute. reflexivity.
    - vm_compute. lia. }
  exact (proj1 (listed_entries_exist (open_archive dir_archive) (Some (lit "dir"))
                  (lit "dir/") (repeat [] 4) 4 Hu)).
Defined.

(** ** The end of the archive *)

Lemma archive_end_stop (tail : list ascii) :
  archive_end tail ->
  length (firstn sizeof_header tail) <> sizeof_header
  \/ is_empty_block (firstn sizeof_header tail) = true.
Proof.
  intros [H|H].
  - left. rewrite length_firstn. lia.
  - right. rewrite H. apply end_block_empty.
Qed.

(** X13: an archive that is empty, shorter than a block, or that starts
    with a block of zeros has no entry: [check_archive] returns 0, no path
    is found or resolves, the predicates return 0, [list] succeeds with no
    entry for the root and fails for any other path, and [read_file]
    returns -1; the array and the buffer are left as they were. *)
Theorem empty_archive (fd : tar_fd) :
  archive_end (fd_content fd) ->
  fst (check_archive fd) = 0
  /\ (forall path,
         fst (find_header fd path) = None
         /\ fst (resolve_path fd path) = None
         /\ fst (exists_ fd path) = 0
         /\ fst (is_dir fd path) = 0
         /\ fst (is_file fd path) = 0
         /\ fst (is_symlink fd path) = 0)
  /\ (forall path entries capacity,
         fst (Tar.list fd path entries capacity)
         = match path with
           | None => (1, entries, 0%nat)
           | Some p =>
               if Ascii.eqb (char_at p 0) NUL
               then (1, entries, 0%nat)
               else (0, entries, 0%nat)
           end)
  /\ (forall path offset dest len,
         fst (read_file fd path offset dest len) = (-1, dest, len)).
Proof.
  intros Hend.
  assert (Hh : headers (fd_content fd) = []).
  { unfold headers. apply scan_from_stop. cbn [skipn]. apply archive_end_stop, Hend. }
  assert (Hfind : forall path, fst (find_header fd path) = None).
  { intros path. rewrite find_header_fst, Hh. reflexivity. }
  assert (Hres : forall path, fst (resolve_path fd path) = None).
  { intros path. rewrite resolve_path_fst, Hh. reflexivity. }
  split; [|split; [|split]].
  - rewrite check_archive_fst, Hh. reflexivity.
  - intros path. specialize (Hfind path).
    unfold exists_, is_dir, is_file, is_symlink.
    destruct (find_header fd path) as [[[h o]|] fd1]; [discriminate|].
    repeat split; try reflexivity. apply Hres.
  - intros path entries capacity. rewrite list_fst, Hh. unfold list_prefix.
    destruct path as [p|]; [|reflexivity].
    destruct (Ascii.eqb (char_at p 0) NUL); reflexivity.
  - intros path offset dest len. rewrite read_file_fst, Hres. reflexivity.
Qed.

(** X13, on the file of two blocks of zeros that [tar] writes for no
    entry, and on the empty file. *)
Lemma empty_archive_witness :
  fst (check_archive (open_archive end_marker)) = 0
  /\ fst (check_archive (open_archive [])) = 0
  /\ fst (Tar.list (open_archive []) None [lit "old"] 1) = (1, [lit "old"], 0%nat).
Proof.
  split; [|split].
  - apply (empty_archive (open_archive end_marker)). right. vm_compute. reflexivity.
  - apply (empty_archive (open_archive [])). left. cbn. block_lia.
  - assert (Hend : archive_end (fd_content (open_archive []))) by (left; cbn; block_lia).
    exact (proj1 (proj2 (proj2 (empty_archive (open_archive []) Hend)))
             None [lit "old"] 1%nat).
Defined.

Lemma headers_image_end (es : list (tar_header_t * list ascii)) (tail : list ascii) :
  Forall well_formed_entry es ->
  archive_end tail ->
  headers (entries_image es ++ tail) = image_headers es 0.
Proof.
  intros Hwf Hend. unfold headers.
  pose proof (scan_from_image es Hwf (entries_image es ++ tail) [] tail eq_refl) as Hscan.
  cbn [length Nat.add] in Hscan. rewrite Hscan, scan_from_stop.
  - apply app_nil_r.
  - rewrite skipn_app, skipn_all, Nat.sub_diag. cbn [skipn app].
    apply archive_end_stop, Hend.
Qed.

(** The data of a laid-out entry lies within the image of the entries. *)
Lemma image_headers_extent (es : list (tar_header_t * list ascii)) :
  Forall well_formed_entry es ->
  forall pos hdr off,
    In (hdr, off) (image_headers es pos) ->
    Z.of_nat pos + 512 <= off
    /\ off + entry_span hdr <= Z.of_nat (pos + length (entries_image es)).
Proof.
  induction 1 as [|[h body] es Hwf _ IH]; intros pos hdr off Hin;
    cbn [image_headers] in Hin; [contradiction|].
  destruct Hwf as [[Hlen _] Hspan]. cbn [fst snd] in *.
  cbn [entries_image flat_map fst snd]. fold (entries_image es).
  rewrite !length_app, Hlen.
  destruct Hin as [Heq|Hin].
  - injection Heq as <- <-. block_lia.
  - apply IH in Hin. block_lia.
Qed.

Lemma firstn_skipn_within (A : Type) (n p : nat) (a t : list A) :
  (p + n <= length a)%nat ->
  firstn n (skipn p (a ++ t)) = firstn n (skipn p a).
Proof.
  intros H. rewrite skipn_app, firstn_app, length_skipn.
  replace (n - (length a - p))%nat with 0%nat by lia.
  cbn [firstn]. apply app_nil_r.
Qed.

(** X14: what follows the entries of a well-formed archive does not
    matter, as long as it is the end of the file or starts with a block of
    zeros.  The walk visits exactly the entries, [check_archive] returns
    their number, and two such archives with the same entries -- one
    closed by blocks of zeros and trailing bytes, one cut right after the
    last entry -- give the same results for every lookup, resolution,
    listing and read. *)
Theorem archive_tail_ignored
    (es : list (tar_header_t * list ascii)) (tail tail' : list ascii)
    (fd fd' : tar_fd) :
  Forall well_formed_entry es ->
  fd_content fd = entries_image es ++ tail -> archive_end tail ->
  fd_content fd' = entries_image es ++ tail' -> archive_end tail' ->
  Z.of_nat (length (fd_content fd)) < 2 ^ 62 ->
  Z.of_nat (length (fd_content fd')) < 2 ^ 62 ->
  headers (fd_content fd) = image_headers es 0
  /\ fst (check_archive fd) = Z.of_nat (length es)
  /\ fst (check_archive fd') = Z.of_nat (length es)
  /\ (forall path,
         fst (find_header fd' path) = fst (find_header fd path)
         /\ fst (resolve_path fd' path) = fst (resolve_path fd path))
  /\ (forall path entries capacity,
         fst (Tar.list fd' path entries capacity)
         = fst (Tar.list fd path entries capacity))
  /\ (forall path offset dest len,
         0 <= offset -> 0 <= len ->
         fst (read_file fd' path offset dest len)
         = fst (read_file fd path offset dest len)).
Proof.
  intros Hwf Hc Hend Hc' Hend' Hlen Hlen'.
  assert (Hh : headers (fd_content fd) = image_headers es 0).
  { rewrite Hc. apply headers_image_end; assumption. }
  assert (Hh' : headers (fd_content fd') = image_headers es 0).
  { rewrite Hc'. apply headers_image_end; assumption. }
  assert (Hcheck : check_headers (image_headers es 0) 0 = Z.of_nat (length es)).
  { rewrite <- (app_nil_r (image_headers es 0)).
    rewrite (check_headers_well_formed es Hwf). reflexivity. }
  assert (Hres : forall path, fst (resolve_path fd' path) = fst (resolve_path fd path)).
  { intros path. rewrite !resolve_path_fst, Hh, Hh'. reflexivity. }
  split; [exact Hh|].
  split; [rewrite check_archive_fst, Hh; exact Hcheck|].
  split; [rewrite check_archive_fst, Hh'; exact Hcheck|].
  split; [|split].
  - intros path. split; [|apply Hres].
    rewrite !find_header_fst, Hh, Hh'. reflexivity.
  - intros path entries capacity. rewrite !list_fst, Hh, Hh'. reflexivity.
  - intros path offset dest len Hoff Hl.
    rewrite !read_file_fst, Hres.
    destruct (fst (resolve_path fd path)) as [[[hdr data_off] resolved]|] eqn:Hr;
      [|reflexivity].
    rewrite resolve_path_fst in Hr. apply resolve_entries_in in Hr as [Hin _].
    pose proof Hin as Hin'. rewrite Hh, <- Hh' in Hin'.
    apply headers_blocks in Hin' as [_ [_ [_ [Hd' _]]]].
    pose proof Hin as Hin0. apply headers_blocks in Hin0 as [_ [_ [_ [Hd _]]]].
    rewrite Hh in Hin. apply (image_headers_extent es Hwf) in Hin as [_ Hext].
    cbn [Nat.add] in Hext.
    pose proof (entry_span_range hdr) as Hspan.
    pose proof (entry_size_range hdr) as Hsize.
    rewrite !read_resolved_closed by lia.
    destruct (Ascii.eqb (hdr_typeflag hdr) REGTYPE || Ascii.eqb (hdr_typeflag hdr) AREGTYPE);
      [|reflexivity].
    destruct (entry_size hdr <? offset) eqn:E; [reflexivity|].
    apply Z.ltb_ge in E. cbv zeta.
    assert (Himg : Z.of_nat (length (entries_image es)) <= Z.of_nat (length (fd_content fd))
                   /\ Z.of_nat (length (entries_image es))
                      <= Z.of_nat (length (fd_content fd'))).
    { rewrite Hc, Hc', !length_app. lia. }
    replace (Z.min (Z.min len (entry_size hdr - offset))
               (Z.max 0 (Z.of_nat (length (fd_content fd)) - (data_off + offset))))
      with (Z.min len (entry_size hdr - offset)) by lia.
    replace (Z.min (Z.min len (entry_size hdr - offset))
               (Z.max 0 (Z.of_nat (length (fd_content fd')) - (data_off + offset))))
      with (Z.min len (entry_size hdr - offset)) by lia.
    rewrite Hc, Hc', !firstn_skipn_within by lia. reflexivity.
Qed.

(** X14, on [dir_archive] and on the same entries with nothing after
    them. *)
Lemma archive_tail_ignored_witness :
  fst (check_archive (open_archive (entries_image dir_entries))) = 8
  /\ fst (read_file (open_archive (entries_image dir_entries)) (lit "to_b") 0
            (repeat SPACE 10) 10)
     = fst (read_file (open_archive dir_archive) (lit "to_b") 0 (repeat SPACE 10) 10).
Proof.
  assert (Hwf : Forall well_formed_entry dir_entries)
    by (unfold dir_entries; check_entries).
  assert (Hc : fd_content (open_archive dir_archive) = entries_image dir_entries ++ end_marker)
    by (vm_compute; reflexivity).
  assert (Hend : archive_end end_marker) by (right; vm_compute; reflexivity).
  assert (Hc' : fd_content (open_archive (entries_image dir_entries))
                = entries_image dir_entries ++ [])
    by (symmetry; apply app_nil_r).
  assert (Hend' : archive_end []) by (left; cbn; block_lia).
  assert (Hlen : Z.of_nat (length (fd_content (open_archive dir_archive))) < 2 ^ 62)
    by (vm_compute; reflexivity).
  assert (Hlen' : Z.of_nat (length (fd_content (open_archive (entries_image dir_entries))))
                  < 2 ^ 62)
    by (vm_compute; reflexivity).
  destruct (archive_tail_ignored dir_entries end_marker [] _ _
              Hwf Hc Hend Hc' Hend' Hlen Hlen') as [_ [_ [Hcheck [_ [_ Hread]]]]].
  split; [exact Hcheck|].
  apply Hread; lia.
Defined.

(** ** The query of [resolve_path] *)

Lemma path_query_cut (p : list ascii) :
  path_query (firstn 255 (cstr p)) = path_query p.
Proof.
  unfold path_query, strncpy255.
  rewrite (cstr_id (firstn 255 (cstr p)))
    by (apply nul_free_firstn, cstr_nul_free).
  rewrite firstn_firstn, Nat.min_id. reflexivity.
Qed.

Lemma char_at_0_slash (p : list ascii) :
  char_at p 0 <> NUL -> char_at (cstr p ++ [SLASH]) 0 <> NUL.
Proof.
  destruct p as [|c p]; unfold char_at; cbn [nth cstr]; [congruence|].
  intros Hc. destruct (Ascii.eqb_spec c NUL); [contradiction|exact Hc].
Qed.

(** X16: [resolve_path] looks at the first 255 bytes of its argument only
    and ignores one trailing slash, whatever the entry is.  So [read_file]
    reads a regular file that is asked for with a slash at the end, and
    [list] lists a directory asked for with or without it. *)
Theorem resolve_path_query (fd : tar_fd) (p : list ascii) :
  fst (resolve_path fd (firstn 255 (cstr p))) = fst (resolve_path fd p)
  /\ ((forall d, cstr p <> d ++ [SLASH]) ->
      fst (resolve_path fd (cstr p ++ [SLASH])) = fst (resolve_path fd p)
      /\ (forall offset dest len,
             fst (read_file fd (cstr p ++ [SLASH]) offset dest len)
             = fst (read_file fd p offset dest len))
      /\ (char_at p 0 <> NUL ->
          forall entries capacity,
            fst (Tar.list fd (Some (cstr p ++ [SLASH])) entries capacity)
            = fst (Tar.list fd (Some p) entries capacity))).
Proof.
  split.
  - rewrite !resolve_path_fst. fold (path_query (firstn 255 (cstr p))).
    rewrite path_query_cut. reflexivity.
  - intros Hno.
    assert (Heq : fst (resolve_path fd (cstr p ++ [SLASH])) = fst (resolve_path fd p)).
    { rewrite !resolve_path_fst, (query_trailing_slash p Hno). reflexivity. }
    split; [exact Heq|split].
    + intros offset dest len. rewrite !read_file_fst, Heq. reflexivity.
    + intros Hp entries capacity. rewrite !list_fst. unfold list_prefix.
      pose proof (char_at_0_slash p Hp) as Hq.
      apply Ascii.eqb_neq in Hp, Hq. rewrite Hp, Hq. cbn [negb].
      rewrite <- !resolve_path_fst, Heq. reflexivity.
Qed.

(** X16, on [dir_archive]: [dir/b/] is not a file for [is_file], which
    does not resolve its path, and is read by [read_file]. *)
Lemma resolve_path_query_witness :
  fst (is_file (open_archive dir_archive) (lit "dir/b/")) = 0
  /\ fst (read_file (open_archive dir_archive) (lit "dir/b/") 0 (repeat SPACE 10) 10)
     = (0, lit "0123456789", 10).
Proof.
  split; [vm_compute; reflexivity|].
  assert (Hno : forall d, cstr (lit "dir/b") <> d ++ [SLASH]).
  { intros d H. apply (f_equal (fun s => List.last s NUL)) in H.
    rewrite List.last_last in H. vm_compute in H. discriminate. }
  destruct (proj2 (resolve_path_query (open_archive dir_archive) (lit "dir/b")) Hno)
    as [_ [Hread _]].
  change (lit "dir/b/") with (cstr (lit "dir/b") ++ [SLASH]).
  rewrite Hread. vm_compute. reflexivity.
Defined.
